(** * FeedFlow: task registry, ranking strategy and workflow orchestration

    A shallow embedding of [src/task-queue.js], of the topic selection and
    the batch loop of [StrategyExecutor] and of the pipelines of
    [src/workflow/WorkflowManager.js], followed by the properties of the
    specification that were checked against them. The text helpers of
    [StrategyExecutor], the file names and tags of the formatters and the
    paging of the report list are embedded as well, with properties of
    their own. *)

From Stdlib Require Import ZArith QArith Qcanon Qround Ascii String List Lia.
From stdpp Require Import base numbers option list strings pretty sorting gmap fin_maps.

Local Open Scope string_scope.
Local Open Scope Z_scope.

(** ** The fragment of JavaScript the sources rely on *)

Module Js.

(** A JavaScript number. Finite doubles are represented by canonical
    rationals: arithmetic on them is exact (rounding and overflow of the
    IEEE format are outside the model); the three non-finite values are
    kept, since the sources test for them with [Number.isFinite]. *)
Inductive JsNumber : Type :=
  | Fin (q : Qc)
  | NaN
  | PosInf
  | NegInf.

Definition num (z : Z) : JsNumber := Fin (Qc_of_Z z).

(** An exception value: [new Error(msg)] has [name] "Error"; the engine
    raises [TypeError]s. *)
Record JsError : Type := mkError { name : string; message : string }.

Definition Error (msg : string) : JsError := mkError "Error" msg.
Definition TypeError (msg : string) : JsError := mkError "TypeError" msg.

(** Code that may throw: it returns a value or raises an exception. *)
Inductive Exc (A : Type) : Type :=
  | Return (a : A)
  | Throw (e : JsError).
Arguments Return {A} a.
Arguments Throw {A} e.

Definition bind {A B : Type} (m : Exc A) (k : A -> Exc B) : Exc B :=
  match m with
  | Return a => k a
  | Throw e => Throw e
  end.

Definition is_return {A : Type} (m : Exc A) : bool :=
  match m with Return _ => true | Throw _ => false end.

Fixpoint mapM {A B : Type} (f : A -> Exc B) (l : list A) : Exc (list B) :=
  match l with
  | [] => Return []
  | x :: l' => bind (f x) (fun y => bind (mapM f l') (fun ys => Return (y :: ys)))
  end.

(** The values [JSON.parse] produces. An object is the list of its own
    properties (keys are distinct in a parsed object). *)
#[warnings="-register-all"]
Inductive json : Type :=
  | JNull
  | JBool (b : bool)
  | JNum (n : JsNumber)
  | JStr (s : string)
  | JArr (xs : list json)
  | JObj (kvs : list (string * json)).

(** The result of reading a property: [None] is [undefined]. *)
Definition jsval : Type := option json.

Fixpoint assoc {A : Type} (k : string) (kvs : list (string * A)) : option A :=
  match kvs with
  | [] => None
  | (k', v) :: rest => if String.eqb k k' then Some v else assoc k rest
  end.

Fixpoint remove_key {A : Type} (k : string) (kvs : list (string * A)) : list (string * A) :=
  match kvs with
  | [] => []
  | (k', v) :: rest =>
      if String.eqb k k' then remove_key k rest else (k', v) :: remove_key k rest
  end.

Definition has_key {A : Type} (k : string) (kvs : list (string * A)) : bool :=
  match assoc k kvs with Some _ => true | None => false end.

(** [v.k] for a property name [k] that no prototype defines (such as
    [noveltyScore]): reading from [null] raises a [TypeError], an object
    yields its own property, every other value yields [undefined]. *)
Definition get_field (v : json) (k : string) : Exc jsval :=
  match v with
  | JNull => Throw (TypeError ("Cannot read properties of null (reading '" +:+ k +:+ "')"))
  | JObj kvs => Return (assoc k kvs)
  | _ => Return None
  end.

(** [v ?? d] *)
Definition nullish (v : jsval) (d : json) : json :=
  match v with
  | None | Some JNull => d
  | Some x => x
  end.

(** The two conversions between strings and numbers are built-ins of the
    engine; the development is parametric in them. *)
Class Builtins : Type := {
  StringToNumber : string -> JsNumber;
  NumberToString : JsNumber -> string
}.

(** [Array.prototype.join] with the default separator, given the
    conversion of an element to a string: [null] prints as the empty
    string. *)
Section Join.
Context (element : json -> Exc string).

Definition element_string (x : json) : Exc string :=
  match x with
  | JNull => Return ""
  | _ => element x
  end.

Fixpoint join (l : list json) : Exc string :=
  match l with
  | [] => Return ""
  | x :: l' =>
      bind (element_string x) (fun s =>
      match l' with
      | [] => Return s
      | _ => bind (join l') (fun r => Return (s +:+ "," +:+ r))
      end)
  end.
End Join.

Section Conversions.
Context {B : Builtins}.

Definition cannot_convert : JsError :=
  TypeError "Cannot convert object to primitive value".

(** [ToString]. A parsed object inherits [Object.prototype.toString]
    unless it has an own property of that name; such a property is never
    callable, and then neither [toString] nor [valueOf] yields a
    primitive. *)
Fixpoint ToString (v : json) : Exc string :=
  match v with
  | JNull => Return "null"
  | JBool b => Return (if b then "true" else "false")
  | JNum n => Return (NumberToString n)
  | JStr s => Return s
  | JArr xs => join ToString xs
  | JObj kvs =>
      if has_key "toString" kvs then Throw cannot_convert
      else Return "[object Object]"
  end.

(** [Number(v)] *)
Definition Number (v : jsval) : Exc JsNumber :=
  match v with
  | None => Return NaN
  | Some JNull => Return (num 0)
  | Some (JBool b) => Return (if b then num 1 else num 0)
  | Some (JNum n) => Return n
  | Some (JStr s) => Return (StringToNumber s)
  | Some (JArr xs) => bind (ToString (JArr xs)) (fun s => Return (StringToNumber s))
  | Some (JObj kvs) =>
      if has_key "toString" kvs then Throw cannot_convert else Return NaN
  end.
End Conversions.

(** The values on which [ToString] and [Number] do not throw: no object
    with an own [toString] property, at any depth inside arrays. *)
Fixpoint convertible (v : json) : bool :=
  match v with
  | JArr xs => forallb convertible xs
  | JObj kvs => negb (has_key "toString" kvs)
  | _ => true
  end.

(** [Number.isFinite(n) ? n : 0] *)
Definition finite_or_zero (n : JsNumber) : Qc :=
  match n with
  | Fin q => q
  | _ => Qc_of_Z 0
  end.

(** [a >= b] on numbers *)
Definition ge (a b : JsNumber) : bool :=
  match a, b with
  | NaN, _ | _, NaN => false
  | PosInf, _ => true
  | _, NegInf => true
  | NegInf, _ => false
  | _, PosInf => false
  | Fin x, Fin y => bool_decide (y ≤ x)%Qc
  end.

(** [Math.max(a, b)] *)
Definition Math_max (a b : JsNumber) : JsNumber :=
  match a, b with
  | NaN, _ | _, NaN => NaN
  | PosInf, _ | _, PosInf => PosInf
  | NegInf, x | x, NegInf => x
  | Fin x, Fin y => if bool_decide (x ≤ y)%Qc then Fin y else Fin x
  end.

(** [ToIntegerOrInfinity]: [NaN] becomes 0, a finite number is truncated
    towards zero. *)
Inductive IntegerOrInfinity : Type :=
  | Int (z : Z)
  | PlusInfinity
  | MinusInfinity.

Definition truncate (q : Qc) : Z := Z.quot (Qnum q) (Zpos (Qden q)).

Definition ToIntegerOrInfinity (n : JsNumber) : IntegerOrInfinity :=
  match n with
  | NaN => Int 0
  | Fin q => Int (truncate q)
  | PosInf => PlusInfinity
  | NegInf => MinusInfinity
  end.

(** [xs.slice(0, e)] *)
Definition slice0 {A : Type} (xs : list A) (e : JsNumber) : list A :=
  let len := Z.of_nat (length xs) in
  match ToIntegerOrInfinity e with
  | MinusInfinity => []
  | PlusInfinity => xs
  | Int z =>
      let final := if z <? 0 then Z.max (len + z) 0 else Z.min z len in
      take (Z.to_nat final) xs
  end.

(** [xs.sort(cmp)] for a comparator that returns a finite number: the
    sort is stable (ECMAScript 2019), so for a consistent comparator its
    result is determined; it is computed here by insertion from the right.
    [after x y] holds when [cmp(x, y) > 0], that is when [x] has to come
    after [y]. *)
Section Sort.
Context {A : Type} (after : A -> A -> bool).

Fixpoint insert_sorted (x : A) (l : list A) : list A :=
  match l with
  | [] => [x]
  | y :: l' => if after x y then y :: insert_sorted x l' else x :: y :: l'
  end.

Definition sort (l : list A) : list A := foldr insert_sorted [] l.
End Sort.

End Js.

(** ** The task registry ([src/task-queue.js]) *)

Module TaskQueue.

(** The [TaskStatus] enumeration and the string each member stands for. *)
Inductive TaskStatus : Type :=
  | PENDING
  | IN_PROGRESS
  | COMPLETED
  | FAILED
  | CANCELLED.

Definition status_string (s : TaskStatus) : string :=
  match s with
  | PENDING => "pending"
  | IN_PROGRESS => "in_progress"
  | COMPLETED => "completed"
  | FAILED => "failed"
  | CANCELLED => "cancelled"
  end.

#[global] Instance TaskStatus_eq_dec : EqDecision TaskStatus.
Proof. solve_decision. Defined.

(** An entry of [task.steps]. *)
Record Step : Type := mkStep {
  step : string;
  message : string;
  timestamp : Z
}.

(** [steps.findIndex(s => s.step === step)] followed by the update in
    place of the entry found, or by [steps.push] when there is none. *)
Fixpoint upsert_step (name msg : string) (now : Z) (steps : list Step) : list Step :=
  match steps with
  | [] => [mkStep name msg now]
  | s :: rest =>
      if String.eqb (step s) name then mkStep (step s) msg now :: rest
      else s :: upsert_step name msg now rest
  end.

(** [Math.max(0, Math.min(100, progress))] *)
Definition clamp (progress : Z) : Z := Z.max 0 (Z.min 100 progress).

Section Registry.
(** The registry does not look into a task's options or result. *)
Context {Options Result : Type}.

(** A task record. Dates are milliseconds since the epoch; [None] is
    [null]. *)
Record Task : Type := mkTask {
  id : string;
  type : string;
  status : TaskStatus;
  progress : Z;
  startTime : option Z;
  endTime : option Z;
  duration : option Z;
  options : Options;
  result : option Result;
  error : option Js.JsError;
  steps : list Step
}.

(** The state of a [TaskQueue] instance: the [tasks] map, the id counter
    and, for the inherited [EventEmitter], the events emitted so far (event
    name and id of the task passed with it). *)
Record TaskQueue : Type := mkQueue {
  tasks : gmap string Task;
  nextTaskId : N;
  events : list (string * string)
}.

(** [new TaskQueue()] *)
Definition new : TaskQueue := mkQueue ∅ 1%N [].

Definition emit (event taskId : string) (q : TaskQueue) : TaskQueue :=
  mkQueue (tasks q) (nextTaskId q) (events q ++ [(event, taskId)]).

(** The mutation of the record stored under [taskId]. *)
Definition update (taskId : string) (f : Task -> Task) (q : TaskQueue) : TaskQueue :=
  mkQueue (alter f taskId (tasks q)) (nextTaskId q) (events q).

Definition task_name (n : N) : string := "task_" +:+ pretty n.

Definition createTask (type : string) (options : Options) (q : TaskQueue)
  : string * TaskQueue :=
  let taskId := task_name (nextTaskId q) in
  let task := mkTask taskId type PENDING 0 None None None options None None [] in
  (taskId,
   emit "taskCreated" taskId
     (mkQueue (<[taskId := task]> (tasks q)) (nextTaskId q + 1)%N (events q))).

Definition set_started (now : Z) (t : Task) : Task :=
  mkTask (id t) (type t) IN_PROGRESS (progress t) (Some now) (endTime t)
         (duration t) (options t) (result t) (error t) (steps t).

(** [endTime - startTime]: a missing start time counts as 0. *)
Definition elapsed (t : Task) (now : Z) : Z := now - default 0 (startTime t).

Definition set_completed (now : Z) (r : Result) (t : Task) : Task :=
  mkTask (id t) (type t) COMPLETED 100 (startTime t) (Some now)
         (Some (elapsed t now)) (options t) (Some r) (error t) (steps t).

Definition set_failed (now : Z) (e : Js.JsError) (t : Task) : Task :=
  mkTask (id t) (type t) FAILED (progress t) (startTime t) (Some now)
         (Some (elapsed t now)) (options t) (result t) (Some e) (steps t).

(** [startTask] up to the call of the executor: the two checks, the
    transition to IN_PROGRESS and the [taskStarted] event. *)
Definition startTask_begin (now : Z) (taskId : string) (q : TaskQueue)
  : Js.Exc TaskQueue :=
  match tasks q !! taskId with
  | None => Js.Throw (Js.Error ("任务不存在: " +:+ taskId))
  | Some task =>
      if bool_decide (status task ≠ PENDING) then
        Js.Throw (Js.Error ("任务状态不允许开始: " +:+ status_string (status task)))
      else
        Js.Return (emit "taskStarted" taskId (update taskId (set_started now) q))
  end.

(** [startTask] from the moment the promise of the executor settles: the
    [try] branch when it resolved, the [catch] branch, which throws the
    error again, when it rejected. Both assign to the task object that
    [startTask_begin] looked up, whatever its status has become. *)
Definition startTask_settle (now : Z) (taskId : string) (outcome : Js.Exc Result)
    (q : TaskQueue) : TaskQueue * Js.Exc unit :=
  match outcome with
  | Js.Return r =>
      (emit "taskCompleted" taskId (update taskId (set_completed now r) q),
       Js.Return tt)
  | Js.Throw e =>
      (emit "taskFailed" taskId (update taskId (set_failed now e) q),
       Js.Throw e)
  end.

(** [startTask] with an executor given as a function of the registry
    state: [started] and [settled] are the clock readings at the two
    transitions. A call that fails its checks leaves the registry as it
    was. *)
Definition startTask (started settled : Z) (taskId : string)
    (executor : TaskQueue -> TaskQueue * Js.Exc Result) (q : TaskQueue)
  : TaskQueue * Js.Exc unit :=
  match startTask_begin started taskId q with
  | Js.Throw e => (q, Js.Throw e)
  | Js.Return q1 =>
      let (q2, outcome) := executor q1 in
      startTask_settle settled taskId outcome q2
  end.

Definition set_cancelled (t : Task) : Task :=
  mkTask (id t) (type t) CANCELLED (progress t) (startTime t) (endTime t)
         (duration t) (options t) (result t) (error t) (steps t).

Definition has_status (s : TaskStatus) (taskId : string) (q : TaskQueue) : bool :=
  match tasks q !! taskId with
  | Some task => bool_decide (status task = s)
  | None => false
  end.

Definition cancelTask (taskId : string) (q : TaskQueue) : TaskQueue :=
  if has_status IN_PROGRESS taskId q then
    emit "taskCancelled" taskId (update taskId set_cancelled q)
  else q.

(** A step name is truthy when it is not the empty string. *)
Definition set_progress (now : Z) (percent : Z) (name msg : string) (t : Task) : Task :=
  mkTask (id t) (type t) (status t) (clamp percent) (startTime t) (endTime t)
         (duration t) (options t) (result t) (error t)
         (if String.eqb name "" then steps t else upsert_step name msg now (steps t)).

Definition updateProgress (now : Z) (taskId : string) (percent : Z)
    (name msg : string) (q : TaskQueue) : TaskQueue :=
  if has_status IN_PROGRESS taskId q then
    emit "taskProgress" taskId (update taskId (set_progress now percent name msg) q)
  else q.

Definition getTask (taskId : string) (q : TaskQueue) : option Task :=
  tasks q !! taskId.

(** [Array.from(this.tasks.values())]; the order of the list is the one
    of the finite map, not the insertion order of the [Map]. *)
Definition getTasks (q : TaskQueue) : list Task :=
  (map_to_list (tasks q)).*2.

Definition getTaskStatus (taskId : string) (q : TaskQueue) : option TaskStatus :=
  status <$> tasks q !! taskId.

(** [now - (task.endTime || task.startTime || now)]: a date object is
    always truthy. *)
Definition taskAge (now : Z) (t : Task) : Z :=
  now - match endTime t with
        | Some e => e
        | None => match startTime t with Some s => s | None => now end
        end.

Definition expired (maxAge now : Z) (t : Task) : bool :=
  (bool_decide (status t = COMPLETED) || bool_decide (status t = FAILED))
  && (maxAge <? taskAge now t).

(** [cleanupTasks(maxAge)], called at time [now]: the loop over the
    entries of the map, deleting as it goes. *)
Definition cleanupTasks (maxAge now : Z) (q : TaskQueue) : TaskQueue :=
  mkQueue
    (foldl (fun m entry => if expired maxAge now entry.2 then delete entry.1 m else m)
           (tasks q) (map_to_list (tasks q)))
    (nextTaskId q) (events q).

(** [stats[key]++] on an object: a key that is absent reads as
    [undefined], whose increment is [NaN]. *)
Definition increment (key : string) (stats : gmap string Js.JsNumber)
  : gmap string Js.JsNumber :=
  let next :=
    match stats !! key with
    | Some (Js.Fin q) => Js.Fin (q + Qc_of_Z 1)%Qc
    | Some n => n
    | None => Js.NaN
    end in
  <[key := next]> stats.

(** The object literal that [getStats] starts from. *)
Definition counters (total : Js.JsNumber) : gmap string Js.JsNumber :=
  list_to_map [("total", total);
               ("pending", Js.num 0);
               ("inProgress", Js.num 0);
               ("completed", Js.num 0);
               ("failed", Js.num 0);
               ("cancelled", Js.num 0)].

Definition getStats (q : TaskQueue) : gmap string Js.JsNumber :=
  map_fold (fun _ task acc => increment (status_string (status task)) acc)
           (counters (Js.num (Z.of_nat (size (tasks q))))) (tasks q).

(** The number of tasks of a map, and of the registry, that are in
    status [s]. *)
Definition counted (s : TaskStatus) (m : gmap string Task) : nat :=
  size (filter (fun entry => status entry.2 = s) m).

Definition tasks_in (s : TaskStatus) (q : TaskQueue) : nat := counted s (tasks q).

(** What reading the key [in_progress] of the statistics yields when [n]
    tasks are in progress: the key is absent until the first of them is
    counted, and not a number afterwards. *)
Definition stray_counter (n : nat) : option Js.JsNumber :=
  match n with
  | O => None
  | S _ => Some Js.NaN
  end.

(** *** Sequences of registry calls

    Between the two halves of [startTask] the executor is suspended at
    its [await]s, and other calls on the registry run in between. An
    [Operation] is one such call; [Settle] is the settling of the
    executor's promise, which [startTask] is waiting for. *)
Inductive Operation : Type :=
  | CreateTask (type : string) (options : Options)
  | StartTask (now : Z) (taskId : string)
  | Settle (now : Z) (taskId : string) (outcome : Js.Exc Result)
  | CancelTask (taskId : string)
  | UpdateProgress (now : Z) (taskId : string) (percent : Z) (name msg : string).

(** A registry together with the set of tasks whose executor has been
    called and has not settled yet. *)
Record System : Type := mkSystem {
  queue : TaskQueue;
  running : gset string
}.

Definition initial : System := mkSystem new ∅.

Definition perform (op : Operation) (s : System) : System :=
  match op with
  | CreateTask type options =>
      mkSystem (createTask type options (queue s)).2 (running s)
  | StartTask now taskId =>
      match startTask_begin now taskId (queue s) with
      | Js.Return q => mkSystem q ({[taskId]} ∪ running s)
      | Js.Throw _ => s
      end
  | Settle now taskId outcome =>
      if bool_decide (taskId ∈ running s) then
        mkSystem (startTask_settle now taskId outcome (queue s)).1
                 (running s ∖ {[taskId]})
      else s
  | CancelTask taskId => mkSystem (cancelTask taskId (queue s)) (running s)
  | UpdateProgress now taskId percent name msg =>
      mkSystem (updateProgress now taskId percent name msg (queue s)) (running s)
  end.

Definition perform_all (ops : list Operation) (s : System) : System :=
  foldl (fun s op => perform op s) s ops.

(** The successive statuses of a task along a sequence of calls, with
    repetitions removed. *)
Fixpoint status_history (taskId : string) (ops : list Operation) (s : System)
  : list (option TaskStatus) :=
  match ops with
  | [] => []
  | op :: ops' =>
      let s' := perform op s in
      let rest := status_history taskId ops' s' in
      if bool_decide (getTaskStatus taskId (queue s') = getTaskStatus taskId (queue s))
      then rest
      else getTaskStatus taskId (queue s') :: rest
  end.

(** What holds of every state that calls on a fresh registry lead to:
    the ids in use were issued by the counter, and a task whose executor
    has not settled is IN_PROGRESS or, after a [cancelTask], CANCELLED. *)
Definition well_formed (s : System) : Prop :=
  (forall taskId t, tasks (queue s) !! taskId = Some t ->
     exists n, taskId = task_name n /\ (n < nextTaskId (queue s))%N)
  /\ (forall taskId, taskId ∈ running s ->
     getTaskStatus taskId (queue s) = Some IN_PROGRESS
     \/ getTaskStatus taskId (queue s) = Some CANCELLED).

End Registry.

Arguments Task : clear implicits.
Arguments TaskQueue : clear implicits.
Arguments Operation : clear implicits.
Arguments System : clear implicits.

(** The edges of the state machine of section 4.1. *)
Definition edge (a b : TaskStatus) : bool :=
  match a, b with
  | PENDING, IN_PROGRESS
  | IN_PROGRESS, COMPLETED
  | IN_PROGRESS, FAILED
  | IN_PROGRESS, CANCELLED => true
  | _, _ => false
  end.

(** The status changes that the calls of the registry can make. *)
Definition step_of_code (a b : TaskStatus) : bool :=
  edge a b ||
  match a, b with
  | CANCELLED, COMPLETED
  | CANCELLED, FAILED => true
  | _, _ => false
  end.

Definition terminal (s : TaskStatus) : bool :=
  match s with
  | COMPLETED | FAILED | CANCELLED => true
  | _ => false
  end.

End TaskQueue.

(** ** The strategy executor ([StrategyExecutor], second half of
    [src/update_tasks.js]) *)

Module StrategyExecutor.
Import Js.

(** [{...v}]: the own enumerable properties of a value. *)
Definition own_props (v : jsval) : list (string * json) :=
  match v with
  | Some (JObj kvs) => kvs
  | Some (JArr xs) => imap (fun i x => (pretty i, x)) xs
  | Some (JStr s) =>
      imap (fun i c => (pretty i, JStr (String c ""))) (list_ascii_of_string s)
  | _ => []
  end.

(** [obj[k] = v]: an existing key keeps its place, a new one is added at
    the end. *)
Fixpoint set_key (k : string) (v : json) (kvs : list (string * json))
  : list (string * json) :=
  match kvs with
  | [] => [(k, v)]
  | (k', v') :: rest =>
      if String.eqb k k' then (k, v) :: rest else (k', v') :: set_key k v rest
  end.

(** [{...base, ...over}] *)
Definition spread (base over : list (string * json)) : list (string * json) :=
  foldl (fun acc kv => set_key kv.1 kv.2 acc) base over.

(** [v || d] needs the truthiness of [v]. *)
Definition truthy (v : jsval) : bool :=
  match v with
  | None | Some JNull | Some (JBool false) | Some (JNum NaN) | Some (JStr "") => false
  | Some (JNum (Fin q)) => negb (bool_decide (q = Qc_of_Z 0))
  | _ => true
  end.

(** The part of the system configuration the executor reads. *)
Record Config : Type := mkConfig {
  rssFeeds : list string;
  analysis : jsval;
  strategy : jsval;
  postsDir : string;
  imagesDir : string
}.

Definition defaultAnalysisConfig : list (string * json) :=
  [("minNoveltyScore", JNum (num 6));
   ("minImpactScore", JNum (num 6));
   ("minValueScore", JNum (num 8));
   ("maxTopics", JNum (num 5))].

Definition getAnalysisConfig (config : Config) : list (string * json) :=
  spread defaultAnalysisConfig
         (own_props (if truthy (analysis config) then analysis config else Some (JObj []))).

Definition defaultStrategyConfig : list (string * json) :=
  [("articlesPerBlog", JNum (num 5));
   ("maxTokenLimit", JNum (num 80000));
   ("topicCount", JNum (num 3));
   ("wordCount", JNum (num 5000))].

Definition getStrategyConfig (config : Config) : list (string * json) :=
  spread defaultStrategyConfig (own_props (strategy config)).

(** A topic with its combined score, the object [{...topic, _score}]:
    [props] are its properties other than [_score]. *)
Record ScoredTopic : Type := mkScored {
  props : list (string * json);
  _score : Qc
}.

(** A character that does not occur in the decimal form of an index. *)
Definition not_a_digit (c : ascii) : Prop := forall d, pretty_N_char d <> c.

(** The own property [k] of a value that is not [null]. *)
Definition field (v : json) (k : string) : jsval :=
  match v with
  | JObj kvs => assoc k kvs
  | _ => None
  end.

(** The topics that can be scored: every value but [null], provided that
    neither of its two scores holds an object with an own [toString]
    property. *)
Definition scorable (topic : json) : bool :=
  match topic with
  | JNull => false
  | _ =>
      convertible (nullish (field topic "noveltyScore") (JNum (num 0)))
      && convertible (nullish (field topic "impactScore") (JNum (num 0)))
  end.

(** [a] may stand before [b] in a list sorted by descending score. *)
Definition score_ge (a b : ScoredTopic) : Prop := (_score b ≤ _score a)%Qc.

Section Selection.
Context {B : Builtins}.

(** [Number(v ?? 0)] followed by [Number.isFinite(n) ? n : 0] *)
Definition numeric (v : jsval) : Exc Qc :=
  bind (Number (Some (nullish v (JNum (num 0))))) (fun n => Return (finite_or_zero n)).

(** The callback of [topics.map]: the two scores are read from the topic
    and added up. *)
Definition scoreTopic (topic : json) : Exc ScoredTopic :=
  bind (get_field topic "noveltyScore") (fun nov =>
  bind (numeric nov) (fun novelty =>
  bind (get_field topic "impactScore") (fun imp =>
  bind (numeric imp) (fun impact =>
  Return (mkScored (remove_key "_score" (own_props (Some topic)))
                   (novelty + impact)%Qc))))).

(** The callback of [scoredTopics.filter]. *)
Definition passes (minNoveltyScore minImpactScore : JsNumber) (t : ScoredTopic)
  : Exc bool :=
  bind (numeric (assoc "noveltyScore" (props t))) (fun novelty =>
  bind (numeric (assoc "impactScore" (props t))) (fun impact =>
  Return (ge (Fin novelty) minNoveltyScore && ge (Fin impact) minImpactScore))).

Fixpoint filterM {A : Type} (f : A -> Exc bool) (l : list A) : Exc (list A) :=
  match l with
  | [] => Return []
  | x :: l' =>
      bind (f x) (fun keep =>
      bind (filterM f l') (fun rest => Return (if keep then x :: rest else rest)))
  end.

(** [(a, b) => b._score - a._score] is positive when [b] has the greater
    score. *)
Definition by_score_desc (a b : ScoredTopic) : bool :=
  bool_decide (_score a < _score b)%Qc.

(** [analysis.topics] when it is an array, the empty array otherwise. *)
Definition topics_of (analysis : json) : Exc (list json) :=
  bind (get_field analysis "topics") (fun v =>
  Return (match v with Some (JArr xs) => xs | _ => [] end)).

(** [a ?? b] where [b] may be [undefined] *)
Definition nullish_or (a b : jsval) : jsval :=
  match a with
  | None | Some JNull => b
  | _ => a
  end.

(** The thresholds as [generateBlog] reads them. *)
Record Thresholds : Type := mkThresholds {
  minNoveltyScore : JsNumber;
  minImpactScore : JsNumber;
  minValueScore : JsNumber;
  maxTopics : JsNumber
}.

Definition thresholds (analysisConfig strategyConfig : list (string * json))
  : Exc Thresholds :=
  let zero := JNum (num 0) in
  bind (Number (Some (nullish (assoc "minNoveltyScore" analysisConfig) zero))) (fun nov =>
  bind (Number (Some (nullish (assoc "minImpactScore" analysisConfig) zero))) (fun imp =>
  bind (Number (Some (nullish (assoc "minValueScore" analysisConfig) zero))) (fun val =>
  bind (Number (nullish_or (assoc "maxTopics" analysisConfig)
                           (assoc "topicCount" strategyConfig))) (fun top =>
  Return (mkThresholds nov imp val top))))).

(** The topics to rank: the scored topics that pass the filter or, when
    none does, all the scored topics. *)
Definition topicsToRank (th : Thresholds) (topics : list json) : Exc (list ScoredTopic) :=
  bind (mapM scoreTopic topics) (fun scoredTopics =>
  bind (filterM (passes (minNoveltyScore th) (minImpactScore th)) scoredTopics)
       (fun filteredTopics =>
  Return (if (0 <? length filteredTopics)%nat then filteredTopics else scoredTopics))).

(** The chain [.sort(...).slice(0, Math.max(1, maxTopics))] applied to
    them. *)
Definition rankTopics (th : Thresholds) (topics : list json) : Exc (list ScoredTopic) :=
  bind (topicsToRank th topics) (fun toRank =>
  Return (slice0 (sort by_score_desc toRank) (Math_max (num 1) (maxTopics th)))).

(** [.map(({ _score, ...rest }) => rest)] *)
Definition selectTopics (th : Thresholds) (topics : list json) : Exc (list json) :=
  bind (rankTopics th topics) (fun ranked =>
  Return (map (fun t => JObj (props t)) ranked)).

(** [analysis.articles.filter(item => Number(item.valueScore) >= minValueScore)]
    when [analysis.articles] is an array. *)
Definition highValueArticles (th : Thresholds) (analysis : json) : Exc (list json) :=
  bind (get_field analysis "articles") (fun v =>
  match v with
  | Some (JArr items) =>
      filterM (fun item =>
                 bind (get_field item "valueScore") (fun s =>
                 bind (Number s) (fun n => Return (ge n (minValueScore th)))))
              items
  | _ => Return []
  end).

End Selection.

(** *** The batch loop *)

(** A fetched article, the options of a run, the article that the model
    writes and the entry that the loop records for it. *)
Record Article : Type := mkArticle {
  guid : string;
  title : string;
  source : string;
  link : string
}.

Record Options : Type := mkOptions {
  aiModel : option string;
  outputStyle : option string;
  outputDir : option string;
  selectedArticles : list string
}.

(** [v || d] for an optional string *)
Definition or_else (v : option string) (d : string) : string :=
  match v with
  | None | Some "" => d
  | Some s => s
  end.

Record Blog : Type := mkBlog {
  blog_title : string;
  blog_description : string;
  content : string;
  tags : list string;
  imagePrompt : string
}.

Record GeneratedBlog : Type := mkGenerated {
  generated_title : string;
  generated_description : string;
  path : string;
  imagePath : option string;
  wordCount : nat;
  processedArticles : nat;
  generated_analysis : json;
  generated_aiModel : string;
  generated_outputStyle : string;
  generated_outputDir : string
}.

(** The collaborators of the loop. Each is given by what its call in
    iteration [i] answers: a value, or an exception. [analyzeArticles]
    stands for the request to the model and the parsing of its reply,
    [writeArticle] for the request and the parsing that end
    [generateBlog]; [saveJekyllPost] and [saveArticle] format the article
    in their style and save it. *)
Record Services : Type := mkServices {
  newAIClient : string -> Exc unit;
  getArticleById : nat -> string -> Exc (option Article);
  getUnprocessedArticles : nat -> jsval -> Exc (list Article);
  analyzeArticles : nat -> list Article -> Exc json;
  writeArticle : nat -> json -> list json -> list json -> Exc Blog;
  generateImage : nat -> string -> string -> Exc (option string);
  saveJekyllPost : nat -> Blog -> option string -> string -> Exc string;
  saveArticle : nat -> Blog -> option string -> string -> string -> Exc string;
  markArticleProcessed : nat -> Article -> Exc unit
}.

Section Batch.
Context {B : Builtins} (services : Services).

(** [generateBlog]: the thresholds, the selection of the topics and of
    the high value articles, then the request for the article. *)
Definition generateBlog (i : nat) (analysisResult : json)
    (strategyConfig analysisConfig : list (string * json)) : Exc Blog :=
  bind (thresholds analysisConfig strategyConfig) (fun th =>
  bind (topics_of analysisResult) (fun topics =>
  bind (selectTopics th topics) (fun selectedTopics =>
  bind (highValueArticles th analysisResult) (fun highValue =>
  writeArticle services i analysisResult selectedTopics highValue)))).

(** [generateBlogImage]: no prompt, no image; a failure of the image
    service is swallowed. *)
Definition generateBlogImage (i : nat) (prompt imagesDir : string) : option string :=
  if String.eqb prompt "" then None
  else match generateImage services i prompt imagesDir with
       | Return imagePath => imagePath
       | Throw _ => None
       end.

(** The body of the [try] block of iteration [i]: [None] is the [break]
    taken when there is no article to process. *)
Definition iteration (config : Config) (options : Options) (i : nat)
  : Exc (option GeneratedBlog) :=
  let strategyConfig := getStrategyConfig config in
  let analysisConfig := getAnalysisConfig config in
  let style := or_else (outputStyle options) "jekyll" in
  let dir := or_else (outputDir options) (postsDir config) in
  bind (match selectedArticles options with
        | [] => getUnprocessedArticles services i (assoc "articlesPerBlog" strategyConfig)
        | ids => bind (mapM (getArticleById services i) ids) (fun found =>
                 Return (omap id found))
        end) (fun unprocessedArticles =>
  match unprocessedArticles with
  | [] => Return None
  | _ =>
    bind (analyzeArticles services i unprocessedArticles) (fun analysisResult =>
    bind (generateBlog i analysisResult strategyConfig analysisConfig) (fun blog =>
    let image := generateBlogImage i (imagePrompt blog) (imagesDir config) in
    bind (if String.eqb style "jekyll"
          then saveJekyllPost services i blog image dir
          else saveArticle services i blog image dir style) (fun savedPath =>
    bind (mapM (markArticleProcessed services i) unprocessedArticles) (fun _ =>
    Return (Some (mkGenerated (blog_title blog) (blog_description blog) savedPath image
                              (String.length (content blog))
                              (length unprocessedArticles) analysisResult
                              (or_else (aiModel options) "default") style dir))))))
  end).

(** The [for] loop from iteration [i] on, with [remaining] iterations to
    go: an iteration that throws is logged and the loop goes on. *)
Fixpoint iterate (config : Config) (options : Options) (remaining i : nat)
    (generatedBlogs : list GeneratedBlog) : list GeneratedBlog :=
  match remaining with
  | O => generatedBlogs
  | S remaining' =>
      match iteration config options i with
      | Return None => generatedBlogs
      | Return (Some blog) =>
          iterate config options remaining' (S i) (generatedBlogs ++ [blog])
      | Throw _ => iterate config options remaining' (S i) generatedBlogs
      end
  end.

(** [executeStrategy]: a model other than the default one needs a client
    of its own, whose construction may throw. *)
Definition executeStrategy (config : Config) (count : nat) (options : Options)
  : Exc (list GeneratedBlog) :=
  bind (match aiModel options with
        | Some model =>
            if String.eqb model "" || String.eqb model "default" then Return tt
            else newAIClient services model
        | None => Return tt
        end) (fun _ =>
  Return (iterate config options count 0 [])).

(** The client that [executeStrategy] needs can be had. *)
Definition client_available (options : Options) : Prop :=
  match aiModel options with
  | Some model =>
      if String.eqb model "" || String.eqb model "default" then True
      else newAIClient services model = Return tt
  | None => True
  end.

(** The iterations that the loop enters, and those that add an entry. *)
Fixpoint iterations_run (config : Config) (options : Options) (remaining i : nat) : nat :=
  match remaining with
  | O => O
  | S remaining' =>
      match iteration config options i with
      | Return None => 1
      | _ => S (iterations_run config options remaining' (S i))
      end
  end.

Definition generated_by (config : Config) (options : Options) (i : nat)
  : option GeneratedBlog :=
  match iteration config options i with
  | Return (Some blog) => Some blog
  | _ => None
  end.

Definition succeeded (config : Config) (options : Options) (i : nat) : bool :=
  match generated_by config options i with Some _ => true | None => false end.

End Batch.

End StrategyExecutor.

(** ** The workflow manager ([src/workflow/WorkflowManager.js]) *)

Module WorkflowManager.
Import Js StrategyExecutor.

(** [formatDuration(ms)] *)
Definition formatDuration (ms : Z) : string :=
  let seconds := ms / 1000 in
  let minutes := seconds / 60 in
  let hours := minutes / 60 in
  if 0 <? hours then pretty hours +:+ "小时" +:+ pretty (Z.rem minutes 60) +:+ "分钟"
  else if 0 <? minutes then pretty minutes +:+ "分钟" +:+ pretty (Z.rem seconds 60) +:+ "秒"
  else pretty seconds +:+ "秒" +:+ pretty (Z.rem ms 1000) +:+ "毫秒".

(** The statistics of the article repository are not looked into. *)
Record ArticleStats : Type := mkStats {
  totalArticles : nat;
  processedCount : nat;
  unprocessedCount : nat
}.

(** A report. The object built by [generateReport] has the list of the
    blogs, the analysis results and the strategy figures; the one built by
    the fetch workflow has the number of articles fetched instead; the
    process figures of [systemInfo] are left out. *)
Record Report : Type := mkReport {
  success : bool;
  startTime : Z;
  duration : string;
  generatedBlogs : nat;
  blogs : option (list GeneratedBlog);
  analysisResults : option (list (string * json));
  articleStats : ArticleStats;
  rssFeedCount : nat;
  articlesPerBlog : option json;
  reportWordCount : option json;
  analysisSummary : option json;
  articlesFetched : option nat
}.

(** The object made by [createWorkflowResult], and what its [data] may
    hold. *)
Inductive Data : Type :=
  | NoData
  | ErrorData (e : JsError)
  | ReportData (r : Report).

Record WorkflowResult : Type := mkResult {
  result_success : bool;
  message : string;
  timestamp : Z;
  result_duration : string;
  data : Data
}.

(** What a workflow executor resolves with, hence the [result] of its
    task. *)
Inductive Payload : Type :=
  | TheReport (r : Report)
  | TheResult (w : WorkflowResult).

(** The options recorded with a task. *)
Inductive TaskOptions : Type :=
  | FullWorkflow (blogCount : nat) (options : Options)
  | AnalyzeWorkflow (blogCount : nat) (options : Options)
  | FetchWorkflow (selectedFeeds : list string)
  | External (options : json).

(** The progress callback that a caller may pass: the one in the
    repository forwards to [updateProgress] for a task of its own. *)
Inductive ProgressCallback : Type :=
  | ForwardTo (taskId : string).

(** The world around one run: what each collaborator answers, the clock
    readings, and whether a [cancelTask] for the task of the run arrives
    while the executor waits at its [k]-th [await]. [storeArticle] is
    [StorageManager.saveArticle]; [writeReport] stands for the writing of
    the two files of [saveReport]. *)
Record World : Type := mkWorld {
  loadConfig : Exc Config;
  fetchRSSFeeds : list string -> Exc (list Article);
  storeArticle : Article -> Exc unit;
  getArticleStats : Exc ArticleStats;
  writeReport : Report -> Exc unit;
  services : Services;
  clock : nat -> Z;
  cancelled_during : nat -> bool
}.

(** The state a run acts on: the shared registry and the reports
    persisted so far. *)
Record State : Type := mkState {
  registry : TaskQueue.TaskQueue TaskOptions Payload;
  reports : list Report
}.

(** [createWorkflowResult(success, message, data)], called at time
    [now]; its two clock readings are taken to be equal. *)
Definition createWorkflowResult (now : Z) (success : bool) (message : string)
    (data : Data) : WorkflowResult :=
  mkResult success message now (formatDuration 0) data.

(** [x || d] *)
Definition or_default (v : jsval) (d : json) : json :=
  match v with
  | Some x => if truthy v then x else d
  | None => d
  end.

(** [config.strategy.k]: reading a property of [undefined] or of [null]
    throws. *)
Definition strategy_field (config : Config) (k : string) : Exc jsval :=
  match strategy config with
  | None => Throw (TypeError ("Cannot read properties of undefined (reading '" +:+ k +:+ "')"))
  | Some v => get_field v k
  end.

(** The feeds that the fetch workflow reads: the selected ones when
    some are selected. *)
Definition feedsToFetch (selectedFeeds : list string) (config : Config) : list string :=
  match selectedFeeds with
  | [] => rssFeeds config
  | _ => filter (fun feed => feed ∈ selectedFeeds) (rssFeeds config)
  end.

(** A task whose executor is running is IN_PROGRESS or, once a
    [cancelTask] has come in, CANCELLED. *)
Definition live (taskId : string) (q : TaskQueue.TaskQueue TaskOptions Payload) : Prop :=
  TaskQueue.getTaskStatus taskId q = Some TaskQueue.IN_PROGRESS
  \/ TaskQueue.getTaskStatus taskId q = Some TaskQueue.CANCELLED.

(** [!taskId]: no id was passed, or an empty one. *)
Definition no_task (taskId : option string) : bool :=
  match taskId with
  | None | Some "" => true
  | Some _ => false
  end.

(** The task that a workflow works on can be started: it is the one the
    workflow creates, or the one passed in, which is then PENDING. *)
Definition startable (taskId : option string) (st : State) : Prop :=
  if no_task taskId then True
  else TaskQueue.getTaskStatus (default "" taskId) (registry st) = Some TaskQueue.PENDING.

(** The id of that task. *)
Definition task_of (taskId : option string) (st : State) : string :=
  if no_task taskId then TaskQueue.task_name (TaskQueue.nextTaskId (registry st))
  else default "" taskId.

Section Run.
Context {B : Builtins} (world : World).

(** [generateReport(generatedBlogs, config, startTime)], called at time
    [now]: reading a property of [config.strategy] throws when the
    configuration has no strategy. *)
Definition generateReport (now : Z) (generatedBlogs : list GeneratedBlog)
    (config : Config) (startTime : Z) : Exc Report :=
  bind (getArticleStats world) (fun stats =>
  let analysisResults :=
    map (fun blog => (generated_title blog, generated_analysis blog))
        (filter (fun blog => truthy (Some (generated_analysis blog)) = true) generatedBlogs) in
  bind (strategy_field config "articlesPerBlog") (fun perBlog =>
  bind (strategy_field config "wordCount") (fun words =>
  Return (mkReport true startTime (formatDuration (now - startTime))
                   (length generatedBlogs) (Some generatedBlogs) (Some analysisResults)
                   stats (length (rssFeeds config))
                   (Some (or_default perBlog (JNum (num 5))))
                   (Some (or_default words (JNum (num 5000))))
                   (Some (or_default (analysis config) (JObj [])))
                   None)))).

(** *** The executors

    An executor acts on the state and resolves or rejects. *)
Definition Executor (A : Type) : Type := State -> State * Exc A.

Definition resolve {A : Type} (a : A) : Executor A := fun st => (st, Return a).

Definition and_then {A C : Type} (m : Executor A) (k : A -> Executor C) : Executor C :=
  fun st =>
    match m st with
    | (st', Return a) => k a st'
    | (st', Throw e) => (st', Throw e)
    end.

(** An executor that leaves a running task running (or cancelled). *)
Definition keeps_live {A : Type} (taskId : string) (m : Executor A) : Prop :=
  forall st, live taskId (registry st) -> live taskId (registry (m st).1).

Section Steps.
Context (taskId : string) (progressCallback : option ProgressCallback).

(** [await] number [k]: the call has been answered with [outcome], and a
    [cancelTask] may have run in the meantime. *)
Definition await {A : Type} (k : nat) (outcome : Exc A) : Executor A :=
  fun st =>
    (if cancelled_during world k
     then mkState (TaskQueue.cancelTask taskId (registry st)) (reports st)
     else st,
     outcome).

(** [progress(percent, step, message)], which is [updateProgress] for the
    task of the run, then the callback of the caller when there is one. *)
Definition progress (k : nat) (percent : Z) (step message : string) : Executor unit :=
  fun st =>
    let q := TaskQueue.updateProgress (clock world k) taskId percent step message
                                      (registry st) in
    let q' := match progressCallback with
              | Some (ForwardTo other) =>
                  TaskQueue.updateProgress (clock world k) other percent step message q
              | None => q
              end in
    (mkState q' (reports st), Return tt).

(** [saveReport(report)]: the report is persisted unless the writing
    throws. *)
Definition saveReport (k : nat) (report : Report) : Executor unit :=
  fun st =>
    match await k (writeReport world report) st with
    | (st', Return _) => (mkState (registry st') (reports st' ++ [report]), Return tt)
    | (st', Throw e) => (st', Throw e)
    end.

(** The executor of [executeFullWorkflow]. *)
Definition fullWorkflow (blogCount : nat) (options : Options) : Executor Payload :=
  let start := clock world 0 in
  and_then (progress 0 10 "加载配置" "正在加载系统配置") (fun _ =>
  and_then (await 0 (loadConfig world)) (fun config =>
  and_then (progress 1 25 "抓取RSS" "正在抓取RSS内容") (fun _ =>
  and_then (await 1 (fetchRSSFeeds world (rssFeeds config))) (fun articles =>
  match articles with
  | [] => resolve (TheResult (createWorkflowResult (clock world 2) false
                                                   "没有抓取到任何文章" NoData))
  | _ =>
  and_then (progress 2 50 "存储文章" "正在存储文章内容") (fun _ =>
  and_then (await 2 (mapM (storeArticle world) articles)) (fun _ =>
  and_then (progress 3 70 "分析文章" "正在分析和生成博客") (fun _ =>
  and_then (await 3 (executeStrategy (services world) config blogCount options))
           (fun generatedBlogs =>
  and_then (progress 4 90 "生成报告" "正在生成执行报告") (fun _ =>
  and_then (await 4 (generateReport (clock world 4) generatedBlogs config start))
           (fun report =>
  and_then (progress 5 95 "保存报告" "正在保存执行报告") (fun _ =>
  and_then (saveReport 5 report) (fun _ =>
  and_then (progress 6 100 "完成" "工作流执行完成") (fun _ =>
  resolve (TheReport report))))))))))
  end)))).

(** The executor of [analyzeExistingArticles]. *)
Definition analyzeWorkflow (blogCount : nat) (options : Options) : Executor Payload :=
  let start := clock world 0 in
  and_then (progress 0 10 "加载配置" "正在加载系统配置") (fun _ =>
  and_then (await 0 (loadConfig world)) (fun config =>
  and_then (progress 1 50 "分析文章" "正在分析文章和生成博客") (fun _ =>
  and_then (await 1 (executeStrategy (services world) config blogCount options))
           (fun generatedBlogs =>
  and_then (progress 2 90 "生成报告" "正在生成执行报告") (fun _ =>
  and_then (await 2 (generateReport (clock world 2) generatedBlogs config start))
           (fun report =>
  and_then (saveReport 3 report) (fun _ =>
  and_then (progress 4 100 "完成" "分析文章执行完成") (fun _ =>
  resolve (TheReport report))))))))).

(** The executor of [executeFetchWorkflow]. *)
Definition fetchWorkflow (selectedFeeds : list string) : Executor Payload :=
  let start := clock world 0 in
  and_then (progress 0 15 "加载配置" "正在加载系统配置") (fun _ =>
  and_then (await 0 (loadConfig world)) (fun config =>
  and_then (progress 1 45 "抓取RSS" "正在抓取RSS内容") (fun _ =>
  and_then (await 1 (fetchRSSFeeds world (feedsToFetch selectedFeeds config)))
           (fun articles =>
  match articles with
  | [] =>
  and_then (progress 2 100 "完成" "没有抓取到任何文章") (fun _ =>
  resolve (TheResult (createWorkflowResult (clock world 2) false
                                           "没有抓取到任何文章" NoData)))
  | _ =>
  and_then (progress 2 75 "存储文章" "正在存储文章内容") (fun _ =>
  and_then (await 2 (mapM (storeArticle world) articles)) (fun _ =>
  and_then (progress 3 90 "生成报告" "正在生成执行报告") (fun _ =>
  and_then (await 3 (getArticleStats world)) (fun stats =>
  let report :=
    mkReport true start (formatDuration (clock world 3 - start)) 0 None None stats
             (length (feedsToFetch selectedFeeds config)) None None None
             (Some (length articles)) in
  and_then (saveReport 4 report) (fun _ =>
  and_then (progress 5 100 "完成" "选择性抓取执行完成") (fun _ =>
  resolve (TheResult (createWorkflowResult (clock world 5) true
                                           "选择性抓取执行成功" (ReportData report)))))))))
  end)))).

End Steps.

(** *** The workflows

    Each creates its task unless the caller passes the id of one, starts
    it with its executor and, once [startTask] is over, returns the result
    of the task; any exception on the way is turned into a failure
    result. *)
Definition task_for (options : TaskOptions) (type : string) (taskId : option string)
    (st : State) : string * TaskQueue.TaskQueue TaskOptions Payload :=
  if no_task taskId then TaskQueue.createTask type options (registry st)
  else (default "" taskId, registry st).

Definition run (failure : string) (options : TaskOptions) (type : string)
    (executor : string -> Executor Payload) (taskId : option string) (st : State)
  : State * option Payload :=
  let (id, q) := task_for options type taskId st in
  let failed (now : Z) (e : Data) := Some (TheResult (createWorkflowResult now false failure e)) in
  match TaskQueue.startTask_begin (clock world 0) id q with
  | Throw e => (mkState q (reports st), failed (clock world 0) (ErrorData e))
  | Return q1 =>
      let (st2, outcome) := executor id (mkState q1 (reports st)) in
      let (q3, thrown) := TaskQueue.startTask_settle (clock world 7) id outcome (registry st2) in
      let st3 := mkState q3 (reports st2) in
      match thrown with
      | Throw e => (st3, failed (clock world 7) (ErrorData e))
      | Return _ =>
          match TaskQueue.getTask id q3 with
          | None =>
              (st3, failed (clock world 7)
                      (ErrorData (TypeError "Cannot read properties of null (reading 'status')")))
          | Some task =>
              match TaskQueue.status task with
              | TaskQueue.COMPLETED => (st3, TaskQueue.result task)
              | TaskQueue.FAILED =>
                  (st3, failed (clock world 7)
                          (match TaskQueue.error task with
                           | Some e => ErrorData e
                           | None => NoData
                           end))
              | other =>
                  (st3, failed (clock world 7)
                          (ErrorData (Error ("任务 " +:+ id +:+ " 状态异常: "
                                             +:+ TaskQueue.status_string other))))
              end
          end
      end
  end.

Definition executeFullWorkflow (blogCount : nat) (options : Options)
    (progressCallback : option ProgressCallback) (taskId : option string)
  : State -> State * option Payload :=
  run "工作流执行失败" (FullWorkflow blogCount options) "fullWorkflow"
      (fun id => fullWorkflow id progressCallback blogCount options) taskId.

Definition analyzeExistingArticles (blogCount : nat) (options : Options)
    (progressCallback : option ProgressCallback) (taskId : option string)
  : State -> State * option Payload :=
  run "分析现有文章失败" (AnalyzeWorkflow blogCount options) "analyzeWorkflow"
      (fun id => analyzeWorkflow id progressCallback blogCount options) taskId.

Definition executeFetchWorkflow (selectedFeeds : list string)
    (progressCallback : option ProgressCallback) (taskId : option string)
  : State -> State * option Payload :=
  run "选择性抓取执行失败" (FetchWorkflow selectedFeeds) "fetchWorkflow"
      (fun id => fetchWorkflow id progressCallback selectedFeeds) taskId.

End Run.

(** The report that a workflow hands back, if any: the payload itself or
    the [data] of a result. *)
Definition report_of (p : option Payload) : option Report :=
  match p with
  | Some (TheReport r) => Some r
  | Some (TheResult w) => match data w with ReportData r => Some r | _ => None end
  | None => None
  end.

End WorkflowManager.

(** ** Concrete inputs used in the examples *)

Module Examples.
Import TaskQueue.

(** A registry of three tasks: task_1 completed at time 10, task_2 in
    progress since time 20, task_3 pending. *)
Definition task_1 : Task unit unit :=
  mkTask "task_1" "fetchWorkflow" COMPLETED 100 (Some 0) (Some 10) (Some 10) tt
         (Some tt) None [].

Definition task_2 : Task unit unit :=
  mkTask "task_2" "fullWorkflow" IN_PROGRESS 25 (Some 20) None None tt None None [].

Definition task_3 : Task unit unit :=
  mkTask "task_3" "fullWorkflow" PENDING 0 None None None tt None None [].

Definition sample : TaskQueue unit unit :=
  mkQueue (<["task_1" := task_1]> (<["task_2" := task_2]> (<["task_3" := task_3]> ∅)))
          4%N [].

(** An executor that resolves at once and leaves the registry alone. *)
Definition idle : TaskQueue unit unit -> TaskQueue unit unit * Js.Exc unit :=
  fun q => (q, Js.Return tt).

(** A task is created and started, a [cancelTask] arrives while its
    executor is suspended, then the executor resolves. *)
Definition cancel_while_running : list (Operation unit unit) :=
  [CreateTask "fullWorkflow" tt; StartTask 0 "task_1"; CancelTask "task_1"].

Definition cancel_then_resolve : list (Operation unit unit) :=
  cancel_while_running ++ [Settle 5 "task_1" (Js.Return tt)].

Definition cancel_then_reject : list (Operation unit unit) :=
  cancel_while_running ++ [Settle 5 "task_1" (Js.Throw (Js.Error "boom"))].

(** Three topics with the scores of the example of the specification. *)
Definition topic (title : string) (novelty impact : Z) : Js.json :=
  Js.JObj [("title", Js.JStr title);
           ("noveltyScore", Js.JNum (Js.num novelty));
           ("impactScore", Js.JNum (Js.num impact))].

Definition first_topic : Js.json := topic "first" 8 7.
Definition second_topic : Js.json := topic "second" 5 9.
Definition third_topic : Js.json := topic "third" 7 6.
Definition fourth_topic : Js.json := topic "fourth" 9 6.

Definition three_topics : list Js.json := [first_topic; second_topic; third_topic].

Definition example_thresholds : StrategyExecutor.Thresholds :=
  StrategyExecutor.mkThresholds (Js.num 6) (Js.num 6) (Js.num 8) (Js.num 2).

(** A configuration whose [analysis.maxTopics] is a word, not a number. *)
Definition wordy_config : StrategyExecutor.Config :=
  StrategyExecutor.mkConfig ["feed"] (Some (Js.JObj [("maxTopics", Js.JStr "many")]))
                            None "_posts" "images".

(** A topic whose novelty score is an object with a [toString] entry. *)
Definition odd_topic : Js.json :=
  Js.JObj [("title", Js.JStr "odd");
           ("noveltyScore", Js.JObj [("toString", Js.JNum (Js.num 1))]);
           ("impactScore", Js.JNum (Js.num 5))].

(** Conversions that answer [NaN] and the empty string throughout, for
    the examples in which no string is converted to a number. *)
Definition no_numerals : Js.Builtins :=
  {| Js.StringToNumber := fun _ => Js.NaN; Js.NumberToString := fun _ => "" |}.

(** A world in which every collaborator answers. The repository hands
    out one article per request; the analysis of the second iteration
    (index 1) cannot be parsed. *)
Definition an_article : StrategyExecutor.Article :=
  StrategyExecutor.mkArticle "guid-1" "An article" "feed" "https://example.org/1".

Definition a_blog : StrategyExecutor.Blog :=
  StrategyExecutor.mkBlog "A title" "A description" "Some content" ["tag"] "".

Definition an_analysis : Js.json := Js.JObj [("topics", Js.JArr three_topics)].

Definition example_services : StrategyExecutor.Services :=
  StrategyExecutor.mkServices
    (fun _ => Js.Return tt)
    (fun _ _ => Js.Return None)
    (fun _ _ => Js.Return [an_article])
    (fun i _ => if Nat.eqb i 1 then Js.Throw (Js.Error "无法解析分析结果")
                else Js.Return an_analysis)
    (fun _ _ _ _ => Js.Return a_blog)
    (fun _ _ _ => Js.Return None)
    (fun _ _ _ _ => Js.Return "post.md")
    (fun _ _ _ _ _ => Js.Return "post.md")
    (fun _ _ => Js.Return tt).

Definition example_config : StrategyExecutor.Config :=
  StrategyExecutor.mkConfig
    ["feed"]
    (Some (Js.JObj StrategyExecutor.defaultAnalysisConfig))
    (Some (Js.JObj StrategyExecutor.defaultStrategyConfig))
    "_posts" "images".

Definition no_options : StrategyExecutor.Options :=
  StrategyExecutor.mkOptions None None None [].

Definition example_stats : WorkflowManager.ArticleStats :=
  WorkflowManager.mkStats 3 2 1.

Definition busy_world : WorkflowManager.World :=
  WorkflowManager.mkWorld
    (Js.Return example_config)
    (fun _ => Js.Return [an_article])
    (fun _ => Js.Return tt)
    (Js.Return example_stats)
    (fun _ => Js.Return tt)
    example_services
    (fun k => Z.of_nat k)
    (fun _ => false).

(** The same world with nothing to fetch, and a [cancelTask] arriving
    while the feeds are read. *)
Definition silent_world : WorkflowManager.World :=
  WorkflowManager.mkWorld
    (Js.Return example_config)
    (fun _ => Js.Return [])
    (fun _ => Js.Return tt)
    (Js.Return example_stats)
    (fun _ => Js.Return tt)
    example_services
    (fun k => Z.of_nat k)
    (fun k => Nat.eqb k 1).

Definition fresh : WorkflowManager.State :=
  WorkflowManager.mkState TaskQueue.new [].

End Examples.

(** ** Calls on the registry, [cleanupTasks] included *)

Module RegistryCalls.
Import TaskQueue.

(** [Number.MAX_SAFE_INTEGER]: up to it, [nextTaskId++] is exact. *)
Definition MAX_SAFE_INTEGER : N := (2 ^ 53 - 1)%N.

Section Calls.
Context {Options Result : Type}.

(** A call of a method that changes the registry: one of the operations
    above, or [cleanupTasks(maxAge)] at time [now]. *)
Inductive Call : Type :=
  | Operate (op : Operation Options Result)
  | CleanupTasks (maxAge now : Z).

Definition call (c : Call) (s : System Options Result) : System Options Result :=
  match c with
  | Operate op => perform op s
  | CleanupTasks maxAge now => mkSystem (cleanupTasks maxAge now (queue s)) (running s)
  end.

Definition call_all (cs : list Call) (s : System Options Result) : System Options Result :=
  foldl (fun s c => call c s) s cs.

(** The states that calls on a fresh registry lead to. *)
Definition reachable (s : System Options Result) : Prop :=
  exists cs, s = call_all cs initial.

(** How many times [event] has been emitted for the task [taskId]. *)
Definition emitted (event taskId : string) (q : TaskQueue Options Result) : nat :=
  length (filter (fun e => e = (event, taskId)) (events q)).

(** [startTime], [endTime] and [duration] are set, and the duration is
    their difference. *)
Definition timed (t : Task Options Result) : Prop :=
  exists s e, startTime t = Some s /\ endTime t = Some e /\ duration t = Some (e - s).

(** What the fields of a task record stored under [key] satisfy,
    depending on its status. *)
Definition consistent (key : string) (t : Task Options Result) : Prop :=
  id t = key
  /\ 0 <= progress t <= 100
  /\ NoDup (map step (steps t))
  /\ match status t with
     | PENDING =>
         progress t = 0 /\ steps t = [] /\ startTime t = None /\ endTime t = None
         /\ duration t = None /\ result t = None /\ error t = None
     | IN_PROGRESS | CANCELLED =>
         is_Some (startTime t) /\ endTime t = None /\ duration t = None
         /\ result t = None /\ error t = None
     | COMPLETED =>
         progress t = 100 /\ is_Some (result t) /\ error t = None /\ timed t
     | FAILED =>
         is_Some (error t) /\ result t = None /\ timed t
     end.

(** The events of a state mention issued ids only, and the tasks that
    have been started are not PENDING. *)
Definition started_once (s : System Options Result) : Prop :=
  (forall event taskId, (event, taskId) ∈ events (queue s) ->
     exists n, taskId = task_name n /\ (n < nextTaskId (queue s))%N)
  /\ (forall taskId,
        (emitted "taskStarted" taskId (queue s) <= 1)%nat
        /\ (getTaskStatus taskId (queue s) = Some PENDING ->
            emitted "taskStarted" taskId (queue s) = 0%nat)).

End Calls.

Arguments Call : clear implicits.

End RegistryCalls.

(** ** How a workflow leaves its task, and the callers of the workflows *)

Module WorkflowOutcomes.
Import Js StrategyExecutor WorkflowManager.

(** The task [id] is COMPLETED and [out] returns its result, or it is
    FAILED and [out] returns the failure result made from its error. *)
Definition settled (failure id : string) (out : State * option Payload) : Prop :=
  (exists payload task,
     out.2 = Some payload
     /\ TaskQueue.getTask id (registry out.1) = Some task
     /\ TaskQueue.status task = TaskQueue.COMPLETED
     /\ TaskQueue.result task = Some payload)
  \/ (exists e now task,
        out.2 = Some (TheResult (createWorkflowResult now false failure (ErrorData e)))
        /\ TaskQueue.getTask id (registry out.1) = Some task
        /\ TaskQueue.status task = TaskQueue.FAILED
        /\ TaskQueue.error task = Some e).

(** The run [out] from the state [st] has failed with the error [e]: it
    returns the failure result made at time [now] from [e], its task is
    FAILED with that error, and no report has been persisted. *)
Definition failed_with (failure : string) (now : Z) (e : JsError) (id : string)
    (st : State) (out : State * option Payload) : Prop :=
  out.2 = Some (TheResult (createWorkflowResult now false failure (ErrorData e)))
  /\ (exists task,
        TaskQueue.getTask id (registry out.1) = Some task
        /\ TaskQueue.status task = TaskQueue.FAILED
        /\ TaskQueue.error task = Some e)
  /\ reports out.1 = reports st.

(** The same without the last part: [saveReport] writes the report file
    before the page made from it, so that a run that fails while saving
    may leave the report file behind. *)
Definition task_failed_with (failure : string) (now : Z) (e : JsError) (id : string)
    (out : State * option Payload) : Prop :=
  out.2 = Some (TheResult (createWorkflowResult now false failure (ErrorData e)))
  /\ (exists task,
        TaskQueue.getTask id (registry out.1) = Some task
        /\ TaskQueue.status task = TaskQueue.FAILED
        /\ TaskQueue.error task = Some e).

(** The error with which [startTask] refuses a task in the state it is
    in. *)
Definition refusal (id : string) (status : option TaskQueue.TaskStatus) : JsError :=
  match status with
  | Some s => Error ("任务状态不允许开始: " +:+ TaskQueue.status_string s)
  | None => Error ("任务不存在: " +:+ id)
  end.

(** The world [world] with other services. *)
Definition with_services (world : World) (services' : Services) : World :=
  mkWorld (loadConfig world) (fetchRSSFeeds world) (storeArticle world)
          (getArticleStats world) (writeReport world) services'
          (clock world) (cancelled_during world).

(** [CLI.fetchOnly] (the command [fetch] of [src/index-v2.js]): the full
    workflow with a count of 0, default options, no callback and no task
    id. *)
Definition fetchOnly {B : Builtins} (world : World) : State -> State * option Payload :=
  executeFullWorkflow world 0 (mkOptions None None None []) None None.

End WorkflowOutcomes.

(** ** Further concrete inputs *)

Module Scenarios.
Import TaskQueue RegistryCalls.

(** A session on a fresh registry: a task is created and started and
    reports a step; then it is cancelled, its executor resolves all the
    same, and a second task is created. *)
Definition opening : list (Call unit unit) :=
  [Operate (CreateTask "fullWorkflow" tt);
   Operate (StartTask 10 "task_1");
   Operate (UpdateProgress 11 "task_1" 25 "抓取RSS" "正在抓取RSS内容")].

Definition closing : list (Call unit unit) :=
  [Operate (CancelTask "task_1");
   Operate (Settle 20 "task_1" (Js.Return tt));
   Operate (CreateTask "fetchWorkflow" tt)].

Definition under_way : System unit unit := call_all opening initial.

Definition over : System unit unit := call_all closing under_way.

(** The first task when the session is under way, and when it is over. *)
Definition running_task : Task unit unit :=
  mkTask "task_1" "fullWorkflow" IN_PROGRESS 25 (Some 10) None None tt None None
         [mkStep "抓取RSS" "正在抓取RSS内容" 11].

Definition finished_task : Task unit unit :=
  mkTask "task_1" "fullWorkflow" COMPLETED 100 (Some 10) (Some 20) (Some 10) tt
         (Some tt) None [mkStep "抓取RSS" "正在抓取RSS内容" 11].

End Scenarios.

(** ** Further worlds *)

Module Worlds.
Import Js StrategyExecutor WorkflowManager.

(** The world of [Examples.busy_world] with a configuration file that
    cannot be read. *)
Definition unreadable : JsError := Error "ENOENT: no such file or directory".

Definition broken_world : World :=
  mkWorld (Throw unreadable)
          (fetchRSSFeeds Examples.busy_world) (storeArticle Examples.busy_world)
          (getArticleStats Examples.busy_world) (writeReport Examples.busy_world)
          (services Examples.busy_world) (clock Examples.busy_world)
          (cancelled_during Examples.busy_world).

(** The same world with a configuration file that has no [strategy]
    section; [loadConfig] has supplied the default [analysis] section. *)
Definition bare_config : Config :=
  mkConfig ["feed"] (Some (JObj defaultAnalysisConfig)) None "_posts" "images".

Definition bare_world : World :=
  mkWorld (Return bare_config)
          (fetchRSSFeeds Examples.busy_world) (storeArticle Examples.busy_world)
          (getArticleStats Examples.busy_world) (writeReport Examples.busy_world)
          (services Examples.busy_world) (clock Examples.busy_world)
          (cancelled_during Examples.busy_world).

(** What the loop generates in that world when one article is asked
    for. *)
Definition one_entry : list GeneratedBlog :=
  match executeStrategy (B := Examples.no_numerals) (services bare_world) bare_config 1
                        Examples.no_options with
  | Return entries => entries
  | Throw _ => []
  end.

End Worlds.

(** ** Reading the analysis of the model *)

Module Reading.
Import Js StrategyExecutor.

(** Whether an item of [analysis.articles] is of high value: its
    [valueScore], converted to a number, reaches the threshold. *)
Definition valued {B : Builtins} (minValueScore : JsNumber) (item : json) : bool :=
  match get_field item "valueScore" with
  | Return score =>
      match Number score with
      | Return n => ge n minValueScore
      | Throw _ => false
      end
  | Throw _ => false
  end.

(** The section that [getAnalysisConfig] spreads over the defaults. *)
Definition analysisSection (config : Config) : list (string * json) :=
  own_props (if truthy (analysis config) then analysis config else Some (JObj [])).

(** An analysis that rates three articles, the last one without a
    [valueScore]. *)
Definition rated (title : string) (valueScore : Z) : json :=
  JObj [("title", JStr title); ("valueScore", JNum (num valueScore))].

Definition rated_analysis : json :=
  JObj [("articles", JArr [rated "kept" 9; rated "dropped" 3;
                          JObj [("title", JStr "unrated")]])].

End Reading.

(** ** Strings as sequences of code units, and the text functions *)

Module Text.
Import Js.

(** A JavaScript string is the sequence of its UTF-16 code units. [lit]
    gives the code units of a literal made of ASCII characters. *)
Definition JsString : Type := list N.

Definition lit (s : string) : JsString := map N_of_ascii (list_ascii_of_string s).

(** The class [\s] of a regular expression, which is also what [trim]
    removes: the white space and line terminator characters. *)
Definition isWhiteSpace (c : N) : bool :=
  ((9 <=? c) && (c <=? 13) || (c =? 32) || (c =? 160) || (c =? 5760)
   || (8192 <=? c) && (c <=? 8202) || (c =? 8232) || (c =? 8233) || (c =? 8239)
   || (c =? 8287) || (c =? 12288) || (c =? 65279))%N.

(** The class [\w]: letters, digits and the underscore, all ASCII. *)
Definition isDigit (c : N) : bool := ((48 <=? c) && (c <=? 57))%N.
Definition isUpper (c : N) : bool := ((65 <=? c) && (c <=? 90))%N.
Definition isLower (c : N) : bool := ((97 <=? c) && (c <=? 122))%N.
Definition isWordChar (c : N) : bool :=
  isDigit c || isUpper c || isLower c || (c =? 95)%N.

(** The string has a [>] in it. *)
Definition closes (s : JsString) : bool := existsb (fun c => (c =? 62)%N) s.

(** [s.replace(/<[^>]*>/g, '')]. A match starts at a [<] that some [>]
    follows and runs up to the first such [>]; the search goes on after
    it. [inside] tells that the characters read belong to a match. *)
Fixpoint stripTags_from (inside : bool) (s : JsString) : JsString :=
  match s with
  | [] => []
  | c :: s' =>
      if inside then
        if (c =? 62)%N then stripTags_from false s' else stripTags_from true s'
      else if (c =? 60)%N && closes s' then stripTags_from true s'
      else c :: stripTags_from false s'
  end.

Definition stripTags (s : JsString) : JsString := stripTags_from false s.

(** [s.replace(/&[^;]+;/g, ' ')]. A match starts at a [&] that is
    followed by a character other than [;] and, further on, by a [;]; it
    runs up to the first such [;] and is replaced by one space. *)
Definition entity_follows (s : JsString) : bool :=
  match s with
  | c :: _ => negb (c =? 59)%N && existsb (fun c' => (c' =? 59)%N) s
  | [] => false
  end.

Fixpoint blankEntities_from (inside : bool) (s : JsString) : JsString :=
  match s with
  | [] => []
  | c :: s' =>
      if inside then
        if (c =? 59)%N then blankEntities_from false s' else blankEntities_from true s'
      else if (c =? 38)%N && entity_follows s' then 32%N :: blankEntities_from true s'
      else c :: blankEntities_from false s'
  end.

Definition blankEntities (s : JsString) : JsString := blankEntities_from false s.

(** [s.replace(/\s+/g, r)] for a one-character [r]: every run of white
    space becomes one [r]. [in_run] tells that the run read has been
    replaced already. *)
Fixpoint squeeze_from (r : N) (in_run : bool) (s : JsString) : JsString :=
  match s with
  | [] => []
  | c :: s' =>
      if isWhiteSpace c then
        if in_run then squeeze_from r true s' else r :: squeeze_from r true s'
      else c :: squeeze_from r false s'
  end.

Definition squeeze (r : N) (s : JsString) : JsString := squeeze_from r false s.

(** [s.trim()] *)
Fixpoint trimStart (s : JsString) : JsString :=
  match s with
  | c :: s' => if isWhiteSpace c then trimStart s' else s
  | [] => []
  end.

Definition trimEnd (s : JsString) : JsString := reverse (trimStart (reverse s)).

Definition trim (s : JsString) : JsString := trimEnd (trimStart s).

(** [StrategyExecutor.getArticlePreview(article, length)] for an article
    whose [content] is the string [content] and a whole number [length]:
    the content cleaned of tags, entities and surplus white space, cut
    after [length] code units (none when [length] is negative) and followed
    by three dots when it is longer. *)
Definition cleanContent (content : JsString) : JsString :=
  trim (squeeze 32 (blankEntities (stripTags content))).

Definition getArticlePreview (content : JsString) (length : Z) : JsString :=
  let clean := cleanContent content in
  if length <? Z.of_nat (List.length clean)
  then (take (Z.to_nat length) clean ++ lit "...")%list
  else clean.

(** A string in which no [<] is followed, at any distance, by a [>]:
    the expression for tags matches nowhere in it. *)
Fixpoint tagFree (s : JsString) : bool :=
  match s with
  | [] => true
  | c :: s' => (negb (c =? 60)%N || negb (closes s')) && tagFree s'
  end.

(** A string whose white space is tidy: single spaces only, none at
    either end. *)
Fixpoint singleSpaced (s : JsString) : bool :=
  match s with
  | [] => true
  | c :: s' =>
      (negb (isWhiteSpace c)
       || (c =? 32)%N && match s' with c' :: _ => negb (isWhiteSpace c') | [] => true end)
      && singleSpaced s'
  end.

Definition tidy (s : JsString) : Prop :=
  singleSpaced s = true
  /\ (forall c, head s = Some c -> isWhiteSpace c = false)
  /\ (forall c, last s = Some c -> isWhiteSpace c = false).

End Text.

(** ** The reply of the model ([StrategyExecutor.extractJSON]) *)

Module Reply.
Import Js Text.

(** [JSON.parse] is a built-in of the engine; the development is
    parametric in it. *)
Class Parser : Type := { JSON_parse : JsString -> Exc json }.

(** [p] is a prefix of [s]. *)
Fixpoint starts_with (p s : JsString) : bool :=
  match p, s with
  | [], _ => true
  | a :: p', b :: s' => (a =? b)%N && starts_with p' s'
  | _ :: _, [] => false
  end.

(** The same up to the case of the letters, for a [p] of ASCII
    characters (the flag [i]): a letter of [p] stands for itself and for
    its other case, and for no character outside ASCII. *)
Definition upper (c : N) : N := if isLower c then (c - 32)%N else c.

Fixpoint starts_with_ci (p s : JsString) : bool :=
  match p, s with
  | [], _ => true
  | a :: p', b :: s' => (upper a =? upper b)%N && starts_with_ci p' s'
  | _ :: _, [] => false
  end.

Definition fence : JsString := lit "```".

(** The text before the first closing fence of [s], if there is one: what
    the lazy group [([\s\S]*?)] captures before the three backquotes. *)
Fixpoint until_fence (s : JsString) : option JsString :=
  if starts_with fence s then Some []
  else match s with
       | [] => None
       | c :: s' => cons c <$> until_fence s'
       end.

(** [text.match(/```json([\s\S]*?)```/i)]: the group of the first match,
    which starts at the first opening fence that a closing fence
    follows. *)
Fixpoint fenced (s : JsString) : option JsString :=
  match s with
  | [] => None
  | c :: s' =>
      match (if starts_with_ci (lit "```json") s then until_fence (drop 7 s) else None) with
      | Some inner => Some inner
      | None => fenced s'
      end
  end.

(** The part of [s] from the first [x] on, and the part up to the last
    [x]. *)
Fixpoint from_first (x : N) (s : JsString) : option JsString :=
  match s with
  | [] => None
  | c :: s' => if (c =? x)%N then Some s else from_first x s'
  end.

Definition through_last (x : N) (s : JsString) : option JsString :=
  reverse <$> from_first x (reverse s).

(** [text.match(/\{[\s\S]*\}/)]: the match runs from the first opening
    brace to the last closing brace after it. *)
Definition braced (s : JsString) : option JsString :=
  match from_first 123 s with
  | Some s1 => match s1 with
               | open :: s2 => cons open <$> through_last 125 s2
               | [] => None
               end
  | None => None
  end.

(** [extractJSON(text)] for a reply that is a string or [undefined]. The
    result [null] is also what the parser returns for the document
    [null]. *)
Definition parsed_or {P : Parser} (s : JsString) (otherwise : json) : json :=
  match JSON_parse s with
  | Return v => v
  | Throw _ => otherwise
  end.

Definition extractJSON {P : Parser} (text : option JsString) : json :=
  match text with
  | None | Some [] => JNull
  | Some t =>
      let in_braces :=
        match braced t with
        | Some m => parsed_or m JNull
        | None => JNull
        end in
      match fenced t with
      | Some inner => parsed_or (trim inner) in_braces
      | None => in_braces
      end
  end.

(** The string has a backquote in it. *)
Definition quoted (s : JsString) : bool := existsb (fun c => (c =? 96)%N) s.

(** The string has three backquotes in a row. *)
Fixpoint fence_inside (s : JsString) : bool :=
  match s with
  | [] => false
  | _ :: s' => starts_with fence s || fence_inside s'
  end.

(** A document that a closing fence can follow: it has no three
    backquotes in a row and does not end in a backquote, so that the
    first three backquotes after its start are those of the fence. *)
Definition fenceable (s : JsString) : Prop :=
  fence_inside s = false /\ last s <> Some 96%N.

(** What [extractJSON] returns when the fenced document, if there is one,
    does not parse: the value of the text between the first opening brace
    and the last closing brace, or [null]. *)
Definition in_braces {P : Parser} (text : JsString) : json :=
  match braced text with
  | Some m => parsed_or m JNull
  | None => JNull
  end.

End Reply.

(** ** File names and tags of the posts ([formatJekyllPost] of
    [src/jekyll-formatter.js], [ArticleFormatter.generateFileName]) *)

Module Formatters.
Import Text.

(** The characters that [formatJekyllPost] keeps in a title, the class
    [[一-龥a-zA-Z0-9\s-]]. *)
Definition isSlugChar (c : N) : bool :=
  ((19968 <=? c) && (c <=? 40869))%N || isLower c || isUpper c || isDigit c
  || isWhiteSpace c || (c =? 45)%N.

(** [titleSlug]: the title without the other characters, each run of
    white space turned into a hyphen, cut after 50 code units. *)
Definition titleSlug (title : JsString) : JsString :=
  take 50 (squeeze 45 (filter (fun c => isSlugChar c = true) title)).

(** The [filename] of the post, given the date string of the day. *)
Definition postFileName (dateStr title : JsString) : JsString :=
  (dateStr ++ lit "-" ++ titleSlug title ++ lit ".md")%list.

(** [[...new Set(l)]]: the elements of [l] in the order of their first
    occurrence. *)
Fixpoint distinct_from (seen l : list JsString) : list JsString :=
  match l with
  | [] => []
  | x :: l' =>
      if bool_decide (x ∈ seen) then distinct_from seen l'
      else x :: distinct_from (x :: seen) l'
  end.

Definition distinct (l : list JsString) : list JsString := distinct_from [] l.

(** The [tags] of the front matter. *)
Definition frontMatterTags (defaultTags tags : list JsString) : list JsString :=
  distinct (defaultTags ++ tags).

(** The characters of a slug: Chinese characters, letters, digits and
    the hyphen. *)
Definition isSlugged (c : N) : bool :=
  ((19968 <=? c) && (c <=? 40869))%N || isLower c || isUpper c || isDigit c
  || (c =? 45)%N.

(** The characters that [generateFileName] keeps in a title, the class
    [[\w\s-]]. *)
Definition isPlain (c : N) : bool := isWordChar c || isWhiteSpace c || (c =? 45)%N.

(** [toLowerCase] on a string of ASCII characters, the only ones left
    where [generateFileName] calls it. *)
Definition lower (c : N) : N := if isUpper c then (c + 32)%N else c.

(** [safeTitle], given the title found in the content, and the file name
    made of it and of the date string of the day. *)
Definition safeTitle (title : JsString) : JsString :=
  map lower (squeeze 45 (filter (fun c => isPlain c = true) title)).

Definition articleFileName (date title : JsString) : JsString :=
  (date ++ lit "-" ++ safeTitle title ++ lit ".md")%list.

(** The characters of a safe title: small letters, digits, the
    underscore and the hyphen. *)
Definition isSafe (c : N) : bool :=
  isLower c || isDigit c || (c =? 95)%N || (c =? 45)%N.

End Formatters.

(** ** The pages of the report list ([GET /api/reports] of [src/server.js]) *)

Module Reports.
Import Js.

(** [Math.min(a, b)] *)
Definition Math_min (a b : JsNumber) : JsNumber :=
  match a, b with
  | NaN, _ | _, NaN => NaN
  | NegInf, _ | _, NegInf => NegInf
  | PosInf, x | x, PosInf => x
  | Fin x, Fin y => if bool_decide (x ≤ y)%Qc then Fin x else Fin y
  end.

(** [a + b], [a - b] and [a * b] on numbers *)
Definition add (a b : JsNumber) : JsNumber :=
  match a, b with
  | NaN, _ | _, NaN => NaN
  | PosInf, NegInf | NegInf, PosInf => NaN
  | PosInf, _ | _, PosInf => PosInf
  | NegInf, _ | _, NegInf => NegInf
  | Fin x, Fin y => Fin (x + y)%Qc
  end.

Definition sub (a b : JsNumber) : JsNumber :=
  match a, b with
  | NaN, _ | _, NaN => NaN
  | PosInf, PosInf | NegInf, NegInf => NaN
  | PosInf, _ | _, NegInf => PosInf
  | NegInf, _ | _, PosInf => NegInf
  | Fin x, Fin y => Fin (x - y)%Qc
  end.

(** The infinity of the sign of [x], or of the opposite sign; [NaN]
    for zero. *)
Definition infinity_of (x : Qc) (opposite : bool) : JsNumber :=
  match (x ?= Qc_of_Z 0)%Qc with
  | Eq => NaN
  | Gt => if opposite then NegInf else PosInf
  | Lt => if opposite then PosInf else NegInf
  end.

Definition mul (a b : JsNumber) : JsNumber :=
  match a, b with
  | NaN, _ | _, NaN => NaN
  | Fin x, Fin y => Fin (x * y)%Qc
  | Fin x, PosInf | PosInf, Fin x => infinity_of x false
  | Fin x, NegInf | NegInf, Fin x => infinity_of x true
  | PosInf, PosInf | NegInf, NegInf => PosInf
  | PosInf, NegInf | NegInf, PosInf => NegInf
  end.

(** [a / b]: the model has one zero, which divides as [+0] does. *)
Definition divide (a b : JsNumber) : JsNumber :=
  match a, b with
  | NaN, _ | _, NaN => NaN
  | Fin x, Fin y =>
      if bool_decide (y = Qc_of_Z 0) then infinity_of x false else Fin (x / y)%Qc
  | Fin _, _ => Fin (Qc_of_Z 0)
  | PosInf, Fin y => if bool_decide (y < Qc_of_Z 0)%Qc then NegInf else PosInf
  | NegInf, Fin y => if bool_decide (y < Qc_of_Z 0)%Qc then PosInf else NegInf
  | _, _ => NaN
  end.

(** [Math.ceil(a)] *)
Definition Math_ceil (a : JsNumber) : JsNumber :=
  match a with
  | Fin q => num (Qceiling q)
  | _ => a
  end.

(** The bound [k] of [slice] in a list of [len] elements: a negative
    bound is taken from the end. *)
Definition relative (k : JsNumber) (len : Z) : Z :=
  match ToIntegerOrInfinity k with
  | MinusInfinity => 0
  | PlusInfinity => len
  | Int z => if z <? 0 then Z.max (len + z) 0 else Z.min z len
  end.

(** [l.slice(start, end)] *)
Definition slice {A : Type} (l : list A) (start end_ : JsNumber) : list A :=
  let len := Z.of_nat (length l) in
  let from := relative start len in
  let final := relative end_ len in
  take (Z.to_nat (final - from)) (drop (Z.to_nat from) l).

(** The body of the answer. *)
Record Listing (A : Type) : Type := mkListing {
  page : JsNumber;
  pageSize : JsNumber;
  total : nat;
  totalPages : JsNumber;
  items : list A
}.
Arguments mkListing {A}.
Arguments page {A}.
Arguments pageSize {A}.
Arguments total {A}.
Arguments totalPages {A}.
Arguments items {A}.

(** The answer of the handler for the matching [reports], where
    [parsedPage] is [parseInt(req.query.page || '1', 10)] and
    [parsedPageSize] is [parseInt(req.query.pageSize || '10', 10)]. *)
Definition listReports {A : Type} (parsedPage parsedPageSize : JsNumber)
    (reports : list A) : Listing A :=
  let page := Math_max parsedPage (num 1) in
  let pageSize := Math_min (Math_max parsedPageSize (num 1)) (num 50) in
  let total := length reports in
  let totalPages :=
    Math_max (Math_ceil (divide (num (Z.of_nat total)) pageSize)) (num 1) in
  let safePage := Math_min page totalPages in
  let start := mul (sub safePage (num 1)) pageSize in
  let pagedReports := slice reports start (add start pageSize) in
  mkListing safePage pageSize total totalPages pagedReports.

(** What [parseInt] gives apart from [NaN]: an integer, or an infinity
    for a numeral that is too long. *)
Definition whole (n : JsNumber) : Prop :=
  match n with
  | Fin q => q = Qc_of_Z (truncate q)
  | NaN => False
  | PosInf | NegInf => True
  end.

(** The pages that the handler announces, asked for one after the other. *)
Definition all_pages {A : Type} (parsedPageSize : JsNumber) (reports : list A)
  : list (list A) :=
  match totalPages (listReports (num 1) parsedPageSize reports) with
  | Fin n =>
      map (fun k => items (listReports (num (Z.of_nat k)) parsedPageSize reports))
          (seq 1 (Z.to_nat (truncate n)))
  | _ => []
  end.

End Reports.

(** ** Configurations and topic lists for the length of the selection *)

Module SelectionCases.
Import Js StrategyExecutor.




End SelectionCases.

(** * Properties *)

(** ** The task registry *)

Module TaskQueueFacts.
Import TaskQueue Examples.

Section Registry.
Context {Options Result : Type}.
Implicit Types (q : TaskQueue Options Result) (t : Task Options Result).

(** *** [startTask]: the two checks *)

Lemma startTask_begin_unknown now taskId q :
  tasks q !! taskId = None ->
  startTask_begin now taskId q = Js.Throw (Js.Error ("任务不存在: " +:+ taskId)).
Proof. intros H. unfold startTask_begin. by rewrite H. Qed.

Lemma startTask_begin_not_pending now taskId q t :
  tasks q !! taskId = Some t -> status t <> PENDING ->
  startTask_begin now taskId q =
    Js.Throw (Js.Error ("任务状态不允许开始: " +:+ status_string (status t))).
Proof.
  intros H Hs. unfold startTask_begin. rewrite H.
  by rewrite bool_decide_eq_true_2.
Qed.

Lemma startTask_begin_pending now taskId q t :
  tasks q !! taskId = Some t -> status t = PENDING ->
  startTask_begin now taskId q =
    Js.Return (emit "taskStarted" taskId (update taskId (set_started now) q)).
Proof.
  intros H Hs. unfold startTask_begin. rewrite H.
  rewrite bool_decide_eq_false_2; [done|]. by intros [].
Qed.

(** *** [cleanupTasks]: what the loop leaves in the map *)

Lemma cleanup_loop_lookup maxAge now (l : list (string * Task Options Result))
    (m : gmap string (Task Options Result)) k :
  foldl (fun m entry => if expired maxAge now entry.2 then delete entry.1 m else m) m l !! k
  = if existsb (fun entry => bool_decide (entry.1 = k) && expired maxAge now entry.2) l
    then None else m !! k.
Proof.
  revert m. induction l as [|[k' t'] l IH]; intros m; simpl; [done|].
  rewrite IH. destruct (existsb _ l); simpl.
  { by rewrite orb_true_r. }
  rewrite orb_false_r. destruct (expired maxAge now t'); simpl.
  - rewrite andb_true_r. case_bool_decide as Hk.
    + subst. by rewrite lookup_delete_eq.
    + by rewrite lookup_delete_ne.
  - by rewrite andb_false_r.
Qed.

Lemma cleanupTasks_lookup maxAge now q taskId :
  tasks (cleanupTasks maxAge now q) !! taskId =
    match tasks q !! taskId with
    | Some t => if expired maxAge now t then None else Some t
    | None => None
    end.
Proof.
  unfold cleanupTasks; simpl. rewrite cleanup_loop_lookup.
  destruct (tasks q !! taskId) as [t|] eqn:Hl.
  - destruct (expired maxAge now t) eqn:He.
    + destruct (existsb _ _) eqn:Hex; [done|].
      apply not_true_iff_false in Hex. exfalso. apply Hex.
      apply existsb_exists. exists (taskId, t). split.
      * apply list_elem_of_In, elem_of_map_to_list, Hl.
      * simpl. by rewrite bool_decide_eq_true_2.
    + destruct (existsb _ _) eqn:Hex; [|done].
      apply existsb_exists in Hex as [[k' t'] [Hin Hb]]. simpl in Hb.
      apply andb_prop in Hb as [Hk Hb]. apply bool_decide_eq_true_1 in Hk. subst k'.
      apply list_elem_of_In, elem_of_map_to_list in Hin. congruence.
  - by destruct (existsb _ _).
Qed.

Lemma expired_spec maxAge now t :
  expired maxAge now t = true <->
  (status t = COMPLETED \/ status t = FAILED) /\ maxAge < taskAge now t.
Proof.
  unfold expired. rewrite andb_true_iff, orb_true_iff, !bool_decide_eq_true, Z.ltb_lt.
  tauto.
Qed.

(** C8, as the code has it: [startTask] on a task that is not PENDING
    throws an [Error] (the generic class; the sources define no error
    classes of their own) whose message ends with the status the task is
    in, and [startTask] on an id that the registry does not hold throws an
    [Error] whose message ends with that id. In both cases the executor is
    not called and the registry, hence the task, is left as it was. *)
Theorem C8_startTask_rejects started settled taskId executor q :
  (forall t, tasks q !! taskId = Some t -> status t <> PENDING ->
     startTask started settled taskId executor q =
       (q, Js.Throw (Js.Error ("任务状态不允许开始: " +:+ status_string (status t)))))
  /\ (tasks q !! taskId = None ->
     startTask started settled taskId executor q =
       (q, Js.Throw (Js.Error ("任务不存在: " +:+ taskId)))).
Proof.
  split.
  - intros t Hl Hs. unfold startTask.
    by rewrite (startTask_begin_not_pending _ _ _ t).
  - intros Hl. unfold startTask. by rewrite startTask_begin_unknown.
Qed.

(** C10: [cleanupTasks] removes a task exactly when its status is
    COMPLETED or FAILED and its age exceeds [maxAge]; a task that is
    PENDING, IN_PROGRESS or CANCELLED stays whatever its age; every task
    that is still in the registry afterwards has the record it had before;
    the id counter and the events are not touched. *)
Theorem C10_cleanupTasks_frame maxAge now q taskId :
  (forall t, tasks q !! taskId = Some t ->
     (tasks (cleanupTasks maxAge now q) !! taskId = None <->
      (status t = COMPLETED \/ status t = FAILED) /\ maxAge < taskAge now t))
  /\ (forall t, tasks q !! taskId = Some t ->
       status t = PENDING \/ status t = IN_PROGRESS \/ status t = CANCELLED ->
       tasks (cleanupTasks maxAge now q) !! taskId = Some t)
  /\ (forall t, tasks (cleanupTasks maxAge now q) !! taskId = Some t ->
       tasks q !! taskId = Some t)
  /\ nextTaskId (cleanupTasks maxAge now q) = nextTaskId q
  /\ events (cleanupTasks maxAge now q) = events q.
Proof.
  split; [|split; [|split; [|split; reflexivity]]].
  - intros t Hl. rewrite cleanupTasks_lookup, Hl, <- expired_spec.
    by destruct (expired maxAge now t).
  - intros t Hl Hs. rewrite cleanupTasks_lookup, Hl.
    destruct (expired maxAge now t) eqn:He; [|done].
    apply expired_spec in He as [[He|He] _]; rewrite He in Hs;
      by destruct Hs as [|[|]].
  - intros t. rewrite cleanupTasks_lookup.
    destruct (tasks q !! taskId) as [t'|]; [|done].
    by destruct (expired maxAge now t').
Qed.

(** *** Status changes along a sequence of calls *)

Lemma task_name_inj (n n' : N) : task_name n = task_name n' -> n = n'.
Proof.
  unfold task_name. simpl. intros H. injection H as H. by apply (inj pretty).
Qed.

Lemma status_emit event k taskId q :
  getTaskStatus taskId (emit event k q) = getTaskStatus taskId q.
Proof. done. Qed.

Lemma status_update k f taskId q :
  getTaskStatus taskId (update k f q) =
    if decide (k = taskId) then status <$> (f <$> tasks q !! k)
    else getTaskStatus taskId q.
Proof.
  unfold getTaskStatus, update; simpl. rewrite lookup_alter.
  by destruct (decide (k = taskId)) as [->|].
Qed.

Lemma status_update_same k f taskId q :
  (forall t, status (f t) = status t) ->
  getTaskStatus taskId (update k f q) = getTaskStatus taskId q.
Proof.
  intros Hf. rewrite status_update. destruct (decide _) as [->|]; [|done].
  unfold getTaskStatus. destruct (tasks q !! taskId); simpl; [|done]. by rewrite Hf.
Qed.

Lemma status_createTask type options q taskId :
  getTaskStatus taskId (createTask type options q).2 =
    if decide (task_name (nextTaskId q) = taskId) then Some PENDING
    else getTaskStatus taskId q.
Proof.
  unfold createTask, getTaskStatus; simpl. rewrite lookup_insert.
  by destruct (decide _).
Qed.

Lemma status_startTask_begin now k q q' taskId :
  startTask_begin now k q = Js.Return q' ->
  getTaskStatus k q = Some PENDING
  /\ getTaskStatus taskId q' =
       if decide (k = taskId) then Some IN_PROGRESS else getTaskStatus taskId q.
Proof.
  unfold startTask_begin. destruct (tasks q !! k) as [t|] eqn:Hl; [|done].
  case_bool_decide as Hs; [done|]. intros [= <-].
  split.
  - unfold getTaskStatus. by rewrite Hl; simpl; rewrite Hs.
  - rewrite status_emit, status_update. destruct (decide _); [|done].
    by rewrite Hl.
Qed.

Lemma status_startTask_settle now k outcome q taskId :
  getTaskStatus taskId (startTask_settle now k outcome q).1 =
    if decide (k = taskId) then
      (fun _ => match outcome with Js.Return _ => COMPLETED | Js.Throw _ => FAILED end)
        <$> getTaskStatus taskId q
    else getTaskStatus taskId q.
Proof.
  destruct outcome; simpl; rewrite status_emit, status_update;
    (destruct (decide _) as [->|]; [|done]);
    unfold getTaskStatus; by destruct (tasks q !! taskId).
Qed.

Lemma has_status_true s k q :
  has_status s k q = true <-> getTaskStatus k q = Some s.
Proof.
  unfold has_status, getTaskStatus. destruct (tasks q !! k) as [t|]; simpl.
  - rewrite bool_decide_eq_true. split; [by intros -> | by intros [= ->]].
  - split; discriminate.
Qed.

Lemma status_cancelTask k q taskId :
  getTaskStatus taskId (cancelTask k q) =
    if decide (k = taskId /\ getTaskStatus k q = Some IN_PROGRESS) then Some CANCELLED
    else getTaskStatus taskId q.
Proof.
  unfold cancelTask. destruct (has_status IN_PROGRESS k q) eqn:Hh.
  - apply has_status_true in Hh. rewrite status_emit, status_update.
    destruct (decide (k = taskId)) as [->|Hne].
    + rewrite decide_True by done. unfold getTaskStatus in *.
      by destruct (tasks q !! taskId).
    + rewrite decide_False; [done|]. by intros [? _].
  - rewrite decide_False; [done|]. intros [_ H%has_status_true]. congruence.
Qed.

Lemma status_updateProgress now k percent name msg q taskId :
  getTaskStatus taskId (updateProgress now k percent name msg q) = getTaskStatus taskId q.
Proof.
  unfold updateProgress. destruct (has_status IN_PROGRESS k q); [|done].
  rewrite status_emit. by apply status_update_same.
Qed.

Lemma known_task_name (s : System Options Result) taskId :
  well_formed s -> is_Some (getTaskStatus taskId (queue s)) ->
  task_name (nextTaskId (queue s)) <> taskId.
Proof.
  intros [Hids _] [a Ha] <-. unfold getTaskStatus in Ha.
  destruct (tasks (queue s) !! _) as [t|] eqn:Hl; [|done].
  destruct (Hids _ _ Hl) as (n & Hn%task_name_inj & Hlt). lia.
Qed.

Lemma well_formed_initial : well_formed (initial : System Options Result).
Proof.
  split.
  - intros taskId t. simpl. by rewrite lookup_empty.
  - intros taskId. simpl. set_solver.
Qed.

Lemma tasks_keys_update k f q taskId :
  is_Some (tasks (update k f q) !! taskId) <-> is_Some (tasks q !! taskId).
Proof.
  unfold update; simpl. rewrite lookup_alter.
  destruct (decide (k = taskId)) as [->|]; [|done].
  by rewrite fmap_is_Some.
Qed.

Lemma well_formed_perform op (s : System Options Result) :
  well_formed s -> well_formed (perform op s).
Proof.
  intros Hwf. pose proof Hwf as [Hids Hrun].
  destruct op; cbn [perform].
  - (* createTask *)
    split; cbn [queue running].
    + intros k t. unfold createTask; simpl. rewrite lookup_insert.
      destruct (decide _) as [<-|Hne].
      * intros _. eexists; split; [done|lia].
      * intros (n & -> & Hn)%Hids. eexists; split; [done|lia].
    + intros k Hk.
      rewrite status_createTask, decide_False; [by apply Hrun|].
      apply known_task_name; [done|]. destruct (Hrun _ Hk) as [->| ->]; eauto.
  - (* startTask *)
    destruct (startTask_begin now taskId (queue s)) as [q'|e] eqn:Hb; [|done].
    split; cbn [queue running].
    + intros k t Hl. unfold startTask_begin in Hb.
      destruct (tasks (queue s) !! taskId); [|done]. case_bool_decide; [done|].
      injection Hb as <-.
      assert (is_Some (tasks (queue s) !! k)) as [t' Ht'].
      { apply (tasks_keys_update taskId (set_started now)). exists t; exact Hl. }
      by apply Hids in Ht'.
    + intros k Hk. destruct (status_startTask_begin _ _ _ _ k Hb) as [_ ->].
      destruct (decide _) as [|Hne]; [by left|]. apply Hrun.
      apply elem_of_union in Hk as [Hk%elem_of_singleton|Hk]; [congruence|done].
  - (* the executor settles *)
    case_bool_decide as Hin; [|done]. split; cbn [queue running].
    + intros k t Hl.
      assert (is_Some (tasks (queue s) !! k)) as [t' Ht'].
      { destruct outcome as [r|e];
          [apply (tasks_keys_update taskId (set_completed now r))
          |apply (tasks_keys_update taskId (set_failed now e))];
          exists t; exact Hl. }
      apply Hids in Ht'. by destruct outcome.
    + intros k [Hk Hne]%elem_of_difference.
      rewrite status_startTask_settle, decide_False; [by apply Hrun|].
      intros ->. apply Hne. by apply elem_of_singleton.
  - (* cancelTask *)
    split; cbn [queue running].
    + intros k t Hl. unfold cancelTask in Hl |- *.
      destruct (has_status _ _ _); [|by apply Hids in Hl].
      assert (is_Some (tasks (queue s) !! k)) as [t' Ht'].
      { apply (tasks_keys_update taskId set_cancelled). exists t; exact Hl. }
      by apply Hids in Ht'.
    + intros k Hk. rewrite status_cancelTask. destruct (decide _); [by right|].
      by apply Hrun.
  - (* updateProgress *)
    split; cbn [queue running].
    + intros k t Hl. unfold updateProgress in Hl |- *.
      destruct (has_status _ _ _); [|by apply Hids in Hl].
      assert (is_Some (tasks (queue s) !! k)) as [t' Ht'].
      { apply (tasks_keys_update taskId (set_progress now percent name msg)).
        exists t; exact Hl. }
      by apply Hids in Ht'.
    + intros k Hk. rewrite status_updateProgress. by apply Hrun.
Qed.

Lemma well_formed_perform_all ops (s : System Options Result) :
  well_formed s -> well_formed (perform_all ops s).
Proof.
  revert s. induction ops as [|op ops IH]; intros s Hs; [done|].
  simpl. apply IH. by apply well_formed_perform.
Qed.

(** In every state that calls on a fresh registry lead to, one more call
    leaves the status of a task as it is or moves it along an edge of the
    state machine, with two exceptions: a CANCELLED task whose executor
    then settles becomes COMPLETED or FAILED. *)
Lemma status_changes_of_perform ops op taskId a b :
  let s : System Options Result := perform_all ops initial in
  getTaskStatus taskId (queue s) = Some a ->
  getTaskStatus taskId (queue (perform op s)) = Some b ->
  a = b \/ step_of_code a b = true.
Proof.
  intros s Ha Hb.
  assert (well_formed s) as Hwf by apply well_formed_perform_all, well_formed_initial.
  destruct op; cbn [perform queue] in Hb.
  - rewrite status_createTask, decide_False in Hb; [left; congruence|].
    apply known_task_name; eauto.
  - destruct (startTask_begin now taskId0 (queue s)) as [q'|e] eqn:Hs;
      [|left; congruence].
    destruct (status_startTask_begin _ _ _ _ taskId Hs) as [Hp Hq]. cbn [queue] in Hb.
    rewrite Hq in Hb. destruct (decide _) as [->|]; [|left; congruence].
    right. by simplify_eq.
  - case_bool_decide as Hin; [|left; congruence]. cbn [queue] in Hb.
    rewrite status_startTask_settle in Hb.
    destruct (decide _) as [->|]; [|left; congruence].
    destruct Hwf as [_ Hrun]. rewrite Ha in Hb. simpl in Hb.
    destruct (Hrun _ Hin) as [Hr|Hr]; rewrite Ha in Hr;
      right; destruct outcome; by simplify_eq.
  - rewrite status_cancelTask in Hb.
    destruct (decide _) as [[-> Hp]|]; [|left; congruence].
    right. by simplify_eq.
  - rewrite status_updateProgress in Hb. left; congruence.
Qed.

(** *** [getStats]: what the counting loop computes *)

Lemma counted_insert s (m : gmap string (Task Options Result)) i t :
  m !! i = None ->
  counted s (<[i := t]> m) = if bool_decide (status t = s) then S (counted s m) else counted s m.
Proof.
  intros Hi. unfold counted. case_bool_decide as Hs.
  - rewrite map_filter_insert_True by done.
    rewrite map_size_insert_None; [done|].
    by apply map_lookup_filter_None_2; left.
  - rewrite map_filter_insert_False by done.
    by rewrite delete_id.
Qed.

Lemma num_succ (n : nat) :
  Js.Fin (Qc_of_Z (Z.of_nat n) + Qc_of_Z 1)%Qc = Js.num (Z.of_nat (S n)).
Proof. unfold Js.num. rewrite <- Z2Qc_inj_add. do 2 f_equal. lia. Qed.

Lemma increment_counter key (stats : gmap string Js.JsNumber) (n : nat) :
  stats !! key = Some (Js.num (Z.of_nat n)) ->
  increment key stats = <[key := Js.num (Z.of_nat (S n))]> stats.
Proof. intros H. unfold increment. rewrite H. unfold Js.num at 1. by rewrite num_succ. Qed.

Lemma increment_stray key (stats : gmap string Js.JsNumber) (n : nat) :
  stats !! key = stray_counter n ->
  increment key stats = <[key := Js.NaN]> stats.
Proof. intros H. unfold increment. rewrite H. by destruct n. Qed.

Lemma counting_loop total (m : gmap string (Task Options Result)) :
  let stats := map_fold (fun _ task acc => increment (status_string (status task)) acc)
                        (counters total) m in
  stats !! "total" = Some total
  /\ stats !! "pending" = Some (Js.num (Z.of_nat (counted PENDING m)))
  /\ stats !! "completed" = Some (Js.num (Z.of_nat (counted COMPLETED m)))
  /\ stats !! "failed" = Some (Js.num (Z.of_nat (counted FAILED m)))
  /\ stats !! "cancelled" = Some (Js.num (Z.of_nat (counted CANCELLED m)))
  /\ stats !! "inProgress" = Some (Js.num 0)
  /\ stats !! "in_progress" = stray_counter (counted IN_PROGRESS m).
Proof.
  simpl. apply (map_fold_weak_ind (fun stats m =>
    stats !! "total" = Some total
    /\ stats !! "pending" = Some (Js.num (Z.of_nat (counted PENDING m)))
    /\ stats !! "completed" = Some (Js.num (Z.of_nat (counted COMPLETED m)))
    /\ stats !! "failed" = Some (Js.num (Z.of_nat (counted FAILED m)))
    /\ stats !! "cancelled" = Some (Js.num (Z.of_nat (counted CANCELLED m)))
    /\ stats !! "inProgress" = Some (Js.num 0)
    /\ stats !! "in_progress" =
         stray_counter (counted IN_PROGRESS m))).
  - unfold counted. rewrite !map_filter_empty, !map_size_empty. by repeat split.
  - intros i t m' stats Hi (Ht & Hp & Hc & Hf & Hx & Hi0 & Hi1).
    rewrite !counted_insert by done.
    destruct (status t) eqn:Hs; simpl;
      repeat (rewrite bool_decide_eq_false_2 by done);
      repeat (rewrite bool_decide_eq_true_2 by done).
    + rewrite (increment_counter _ _ _ Hp).
      by rewrite lookup_insert_eq, !lookup_insert_ne.
    + rewrite (increment_stray _ _ _ Hi1).
      by rewrite lookup_insert_eq, !lookup_insert_ne.
    + rewrite (increment_counter _ _ _ Hc).
      by rewrite lookup_insert_eq, !lookup_insert_ne.
    + rewrite (increment_counter _ _ _ Hf).
      by rewrite lookup_insert_eq, !lookup_insert_ne.
    + rewrite (increment_counter _ _ _ Hx).
      by rewrite lookup_insert_eq, !lookup_insert_ne.
Qed.

(** For every registry [getStats] reports the exact total and the exact
    number of pending, completed, failed and cancelled tasks; the
    [inProgress] counter is never touched, because the tasks in progress
    are counted under the key [in_progress] of their status string, which
    the object does not have. *)
Lemma getStats_counts q :
  getStats q !! "total" = Some (Js.num (Z.of_nat (size (tasks q))))
  /\ getStats q !! "pending" = Some (Js.num (Z.of_nat (tasks_in PENDING q)))
  /\ getStats q !! "completed" = Some (Js.num (Z.of_nat (tasks_in COMPLETED q)))
  /\ getStats q !! "failed" = Some (Js.num (Z.of_nat (tasks_in FAILED q)))
  /\ getStats q !! "cancelled" = Some (Js.num (Z.of_nat (tasks_in CANCELLED q)))
  /\ getStats q !! "inProgress" = Some (Js.num 0)
  /\ getStats q !! "in_progress" = stray_counter (tasks_in IN_PROGRESS q).
Proof. apply counting_loop. Qed.

End Registry.

(** C8 as the specification words it fails: the errors thrown are plain
    [Error]s, neither a [NotFoundError] nor an [InvalidStateError]. *)
Lemma C8_counterexample :
  (exists e, startTask 30 31 "task_9" idle sample = (sample, Js.Throw e)
             /\ Js.name e = "Error" /\ Js.name e <> "NotFoundError")
  /\ (exists e, startTask 30 31 "task_2" idle sample = (sample, Js.Throw e)
             /\ Js.name e = "Error" /\ Js.name e <> "InvalidStateError").
Proof.
  split; eexists; (split; [vm_compute; reflexivity | split; [reflexivity | discriminate]]).
Qed.

Lemma C8_startTask_rejects_witness :
  startTask 30 31 "task_2" idle sample =
    (sample, Js.Throw (Js.Error "任务状态不允许开始: in_progress"))
  /\ startTask 30 31 "task_9" idle sample =
    (sample, Js.Throw (Js.Error "任务不存在: task_9")).
Proof.
  destruct (C8_startTask_rejects 30 31 "task_2" idle sample) as [H2 _].
  destruct (C8_startTask_rejects 30 31 "task_9" idle sample) as [_ H9].
  split.
  - apply (H2 task_2); [reflexivity | discriminate].
  - apply H9. reflexivity.
Defined.

Lemma C10_cleanupTasks_frame_witness :
  tasks (cleanupTasks 5 100 sample) !! "task_1" = None
  /\ tasks (cleanupTasks 5 100 sample) !! "task_2" = tasks sample !! "task_2".
Proof.
  destruct (C10_cleanupTasks_frame 5 100 sample "task_1") as [H1 _].
  destruct (C10_cleanupTasks_frame 5 100 sample "task_2") as (_ & H2 & _).
  split.
  - apply (H1 task_1); [reflexivity|].
    split; [by left | reflexivity].
  - rewrite (H2 task_2); [reflexivity | reflexivity | by right; left].
Defined.

(** C1, evaluated where the code departs from it: a task that was
    cancelled while its executor was suspended is CANCELLED, a terminal
    status, and when the executor then resolves (or rejects) [startTask]
    overwrites the status with COMPLETED (or FAILED); neither change is an
    edge of the state machine. *)
Theorem C1_cancelled_task_is_overwritten :
  getTaskStatus "task_1" (queue (perform_all cancel_while_running initial)) = Some CANCELLED
  /\ getTaskStatus "task_1" (queue (perform_all cancel_then_resolve initial)) = Some COMPLETED
  /\ getTaskStatus "task_1" (queue (perform_all cancel_then_reject initial)) = Some FAILED
  /\ status_history "task_1" cancel_then_resolve initial =
       [Some PENDING; Some IN_PROGRESS; Some CANCELLED; Some COMPLETED]
  /\ terminal CANCELLED = true
  /\ edge CANCELLED COMPLETED = false
  /\ edge CANCELLED FAILED = false.
Proof. repeat split; vm_compute; reflexivity. Qed.

(** C5, evaluated where the code departs from it: with one task in
    progress, [getStats] reports [inProgress] as 0; the task was counted
    under the key [in_progress], which holds [NaN]. The other counters and
    the total are exact. *)
Theorem C5_getStats_misses_in_progress :
  tasks_in IN_PROGRESS sample = 1%nat
  /\ getStats sample !! "inProgress" = Some (Js.num 0)
  /\ getStats sample !! "in_progress" = Some Js.NaN
  /\ getStats sample !! "total" = Some (Js.num 3).
Proof.
  assert (tasks_in IN_PROGRESS sample = 1%nat) as Hn by (vm_compute; reflexivity).
  destruct (getStats_counts sample) as (Ht & _ & _ & _ & _ & Hi & Hs).
  rewrite Hn in Hs. repeat split; try done.
Qed.

End TaskQueueFacts.

(** ** The ranking strategy *)

Module StrategyFacts.
Import Js StrategyExecutor Examples SelectionCases.

(** *** The sort: a stable, descending permutation *)

Lemma insert_sorted_perm (x : ScoredTopic) l :
  insert_sorted by_score_desc x l ≡ₚ x :: l.
Proof.
  induction l as [|y l IH]; simpl; [done|].
  destruct (by_score_desc x y); [|done].
  rewrite IH. apply Permutation_swap.
Qed.

Lemma sort_perm (l : list ScoredTopic) : sort by_score_desc l ≡ₚ l.
Proof.
  induction l as [|x l IH]; simpl; [done|].
  fold (sort by_score_desc l). by rewrite insert_sorted_perm, IH.
Qed.

Lemma insert_sorted_sorted (x : ScoredTopic) l :
  StronglySorted score_ge l -> StronglySorted score_ge (insert_sorted by_score_desc x l).
Proof.
  induction 1 as [|y l Hl IH Hy]; simpl.
  { repeat constructor. }
  unfold by_score_desc. case_bool_decide as Hxy.
  - constructor; [done|]. rewrite insert_sorted_perm. constructor; [|done].
    by apply Qclt_le_weak.
  - apply Qcnot_lt_le in Hxy. constructor; [by constructor|].
    constructor; [done|]. eapply Forall_impl; [exact Hy|].
    intros z Hz. unfold score_ge in *. by eapply Qcle_trans.
Qed.

Lemma sort_sorted (l : list ScoredTopic) : StronglySorted score_ge (sort by_score_desc l).
Proof.
  induction l as [|x l IH]; simpl; [constructor|].
  by apply insert_sorted_sorted.
Qed.

Lemma insert_sorted_stable (q : Qc) (x : ScoredTopic) l :
  filter (fun t => _score t = q) (insert_sorted by_score_desc x l)
  = filter (fun t => _score t = q) (x :: l).
Proof.
  induction l as [|y l IH]; simpl; [done|].
  destruct (by_score_desc x y) eqn:Hxy; [|done].
  apply bool_decide_eq_true in Hxy.
  rewrite filter_cons, IH, !filter_cons.
  destruct (decide (_score y = q)) as [Hy|]; [|done].
  destruct (decide (_score x = q)) as [Hx|]; [|done].
  rewrite Hx, Hy in Hxy. by apply Qclt_not_eq in Hxy.
Qed.

Lemma sort_stable (q : Qc) (l : list ScoredTopic) :
  filter (fun t => _score t = q) (sort by_score_desc l)
  = filter (fun t => _score t = q) l.
Proof.
  induction l as [|x l IH]; simpl; [done|].
  fold (sort by_score_desc l). by rewrite insert_sorted_stable, !filter_cons, IH.
Qed.

(** A list in descending order of score is determined by the topics it
    has of each score and their order: whatever stable sort the engine
    runs, its result is the one of [sort]. *)
Lemma sorted_head_max (x : ScoredTopic) l y :
  StronglySorted score_ge (x :: l) -> y ∈ x :: l -> (_score y ≤ _score x)%Qc.
Proof.
  intros Hs [->|Hy]%elem_of_cons; [apply Qcle_refl|].
  apply StronglySorted_inv in Hs as [_ Hx].
  by apply (proj1 (Forall_forall _ _) Hx y).
Qed.

Lemma stable_sorted_unique (l1 l2 : list ScoredTopic) :
  StronglySorted score_ge l1 -> StronglySorted score_ge l2 ->
  (forall q, filter (fun t => _score t = q) l1 = filter (fun t => _score t = q) l2) ->
  l1 = l2.
Proof.
  revert l2. induction l1 as [|x l1 IH]; intros l2 H1 H2 Hf.
  - destruct l2 as [|y l2]; [done|]. specialize (Hf (_score y)).
    rewrite filter_cons_True in Hf by done. done.
  - destruct l2 as [|y l2].
    { specialize (Hf (_score x)). by rewrite filter_cons_True in Hf. }
    assert (_score x = _score y) as Hxy.
    { apply Qcle_antisym.
      - apply (sorted_head_max y l2 x H2).
        apply (list_elem_of_filter (fun t => _score t = _score x)).
        rewrite <- Hf, filter_cons_True by done. apply list_elem_of_here.
      - apply (sorted_head_max x l1 y H1).
        apply (list_elem_of_filter (fun t => _score t = _score y)).
        rewrite Hf, filter_cons_True by done. apply list_elem_of_here. }
    pose proof (Hf (_score x)) as Hhead.
    rewrite !filter_cons_True in Hhead by done.
    injection Hhead as -> Htail. f_equal.
    apply IH; [by apply StronglySorted_inv in H1 as [? _]
              |by apply StronglySorted_inv in H2 as [? _]|].
    intros q. destruct (decide (_score y = q)) as [<-|Hq]; [done|].
    specialize (Hf q). by rewrite !filter_cons_False in Hf.
Qed.

Lemma sort_unique (l sorted : list ScoredTopic) :
  StronglySorted score_ge sorted ->
  (forall q, filter (fun t => _score t = q) sorted = filter (fun t => _score t = q) l) ->
  sorted = sort by_score_desc l.
Proof.
  intros Hs Hf. apply stable_sorted_unique; [done|apply sort_sorted|].
  intros q. by rewrite Hf, sort_stable.
Qed.

(** *** Conversions that cannot fail *)

Section Scoring.
Context {B : Builtins}.

Lemma json_nested_ind (P : json -> Prop) :
  P JNull -> (forall b, P (JBool b)) -> (forall n, P (JNum n)) -> (forall s, P (JStr s)) ->
  (forall xs, Forall P xs -> P (JArr xs)) -> (forall kvs, P (JObj kvs)) ->
  forall v, P v.
Proof.
  intros Hnull Hbool Hnum Hstr Harr Hobj. fix IH 1.
  intros [|b|n|s|xs|kvs];
    [exact Hnull | apply Hbool | apply Hnum | apply Hstr | | apply Hobj].
  apply Harr. induction xs as [|x xs IHxs]; constructor; [apply IH | exact IHxs].
Qed.

Lemma ToString_returns v : is_return (ToString v) = convertible v.
Proof.
  induction v as [| | | |xs IH|kvs] using json_nested_ind; simpl; try done.
  - induction IH as [|x xs Hx _ IHxs]; simpl; [done|].
    rewrite <- Hx, <- IHxs.
    assert (is_return (element_string ToString x) = is_return (ToString x)) as Hel
      by (by destruct x).
    destruct (element_string ToString x) as [s|e];
      destruct (ToString x) as [s'|e']; simpl; try done.
    destruct xs as [|y ys]; [done|].
    by destruct (join ToString (y :: ys)).
  - by destruct (has_key "toString" kvs).
Qed.

Lemma Number_returns v : is_return (Number (Some v)) = convertible v.
Proof.
  destruct v as [|b|n|s|xs|kvs]; try done.
  - rewrite <- (ToString_returns (JArr xs)). unfold Number.
    by destruct (ToString (JArr xs)).
  - simpl. by destruct (has_key "toString" kvs).
Qed.

Lemma numeric_returns v :
  is_return (numeric v) = convertible (nullish v (JNum (num 0))).
Proof.
  unfold numeric. rewrite <- Number_returns.
  by destruct (Number (Some (nullish v (JNum (num 0))))).
Qed.

(** A missing score counts as 0, and so does one that converts to [NaN]
    or to an infinity. *)
Lemma numeric_missing : numeric None = Return (Qc_of_Z 0) /\ numeric (Some JNull) = Return (Qc_of_Z 0).
Proof. done. Qed.

Lemma numeric_invalid v n :
  Number (Some (nullish v (JNum (num 0)))) = Return n ->
  numeric v = Return (finite_or_zero n).
Proof. unfold numeric. by intros ->. Qed.

Lemma null_or_not (v : json) : v = JNull \/ v <> JNull.
Proof. destruct v; (by left) || (by right). Qed.

Lemma get_field_field topic k : topic <> JNull -> get_field topic k = Return (field topic k).
Proof. by destruct topic. Qed.

(** The scoring of a topic throws exactly when the topic is not
    [scorable]; otherwise the combined score is the sum of the two scores,
    each read as above. *)
Lemma scoreTopic_returns topic : is_return (scoreTopic topic) = scorable topic.
Proof.
  destruct (null_or_not topic) as [->|Hn]; [done|].
  unfold scoreTopic. rewrite !get_field_field by done.
  assert (scorable topic =
          convertible (nullish (field topic "noveltyScore") (JNum (num 0)))
          && convertible (nullish (field topic "impactScore") (JNum (num 0)))) as ->
    by (by destruct topic).
  rewrite <- !numeric_returns. cbn [bind].
  destruct (numeric (field topic "noveltyScore")); cbn [bind is_return]; [|done].
  by destruct (numeric (field topic "impactScore")).
Qed.

Lemma scoreTopic_sum topic t :
  scoreTopic topic = Return t ->
  exists novelty impact,
    numeric (field topic "noveltyScore") = Return novelty
    /\ numeric (field topic "impactScore") = Return impact
    /\ _score t = (novelty + impact)%Qc
    /\ props t = remove_key "_score" (own_props (Some topic)).
Proof.
  destruct (null_or_not topic) as [->|Hn]; [done|].
  unfold scoreTopic. rewrite !get_field_field by done. cbn [bind].
  destruct (numeric (field topic "noveltyScore")) as [novelty|]; cbn [bind]; [|done].
  destruct (numeric (field topic "impactScore")) as [impact|]; cbn [bind]; [|done].
  intros [= <-]. by exists novelty, impact.
Qed.

Lemma mapM_returns {X Y : Type} (f : X -> Exc Y) l :
  is_return (mapM f l) = forallb (fun x => is_return (f x)) l.
Proof.
  induction l as [|x l IH]; simpl; [done|].
  destruct (f x); simpl; [|done]. rewrite <- IH. by destruct (mapM f l).
Qed.

Lemma mapM_length {X Y : Type} (f : X -> Exc Y) l ys :
  mapM f l = Return ys -> length ys = length l.
Proof.
  revert ys. induction l as [|x l IH]; simpl; intros ys.
  { by intros [= <-]. }
  destruct (f x); simpl; [|done]. destruct (mapM f l); simpl; [|done].
  intros [= <-]. simpl. f_equal. by apply IH.
Qed.

(** Scoring a list of topics returns a score for every topic when all of
    them are scorable, and throws otherwise. *)
Lemma scoring_returns topics :
  is_return (mapM scoreTopic topics) = forallb scorable topics.
Proof.
  rewrite mapM_returns. induction topics as [|t l IH]; simpl; [done|].
  by rewrite scoreTopic_returns, IH.
Qed.

(** *** Reading the scores back from the scored copy *)

Lemma pretty_N_go_head (c : ascii) x s :
  (forall d, pretty_N_char d <> c) -> (forall s', s <> String c s') ->
  forall s', pretty_N_go x s <> String c s'.
Proof.
  intros Hc. revert s. induction (N.lt_wf_0 x) as [x _ IH]; intros s Hs s'.
  assert (x = 0 \/ 0 < x)%N as [->|?] by lia.
  - rewrite pretty_N_go_0. apply Hs.
  - rewrite pretty_N_go_step by done. apply IH.
    { by apply N.div_lt. }
    intros s'' [= Hd _]. by apply Hc in Hd.
Qed.

Lemma pretty_nat_head (c : ascii) (i : nat) s' :
  (forall d, pretty_N_char d <> c) -> pretty i <> String c s'.
Proof.
  intros Hc. unfold pretty, pretty_nat, pretty, pretty_N.
  case_decide.
  - intros [= Hd _]. by apply (Hc 0%N).
  - by apply pretty_N_go_head.
Qed.

Lemma assoc_cons {X : Type} k k' (v : X) rest :
  assoc k ((k', v) :: rest) = if String.eqb k k' then Some v else assoc k rest.
Proof. done. Qed.

Lemma assoc_index_keys {X : Type} (h : X -> json) (g : nat -> nat) (l : list X) c k :
  not_a_digit c ->
  assoc (String c k) (imap (fun i x => (pretty (g i), h x)) l) = None.
Proof.
  intros Hc. revert g. induction l as [|x l IH]; intros g; [done|].
  rewrite imap_cons, assoc_cons.
  destruct (String.eqb_spec (String c k) (pretty (g 0%nat))) as [He|_].
  { symmetry in He. by apply pretty_nat_head in He. }
  apply (IH (g ∘ S)).
Qed.

Lemma assoc_remove_key {X : Type} k k' (kvs : list (string * X)) :
  k <> k' -> assoc k (remove_key k' kvs) = assoc k kvs.
Proof.
  intros Hk. induction kvs as [|[k0 v] kvs IH]; [done|].
  cbn [remove_key]. rewrite assoc_cons.
  destruct (String.eqb_spec k' k0) as [<-|Hne].
  - destruct (String.eqb_spec k k') as [?|_]; [done|]. apply IH.
  - by rewrite assoc_cons, IH.
Qed.

Lemma props_field topic c k :
  not_a_digit c -> String c k <> "_score" ->
  assoc (String c k) (remove_key "_score" (own_props (Some topic))) = field topic (String c k).
Proof.
  intros Hc Hk. rewrite assoc_remove_key by done.
  destruct topic as [|b|n|s|xs|kvs]; try done.
  - apply (assoc_index_keys (fun a => JStr (String a "")) id); done.
  - apply (assoc_index_keys id id); done.
Qed.

Lemma n_not_a_digit : not_a_digit "n".
Proof. intros d. unfold pretty_N_char. by repeat case_match. Qed.

Lemma i_not_a_digit : not_a_digit "i".
Proof. intros d. unfold pretty_N_char. by repeat case_match. Qed.

Lemma passes_scored a c topic t :
  scoreTopic topic = Return t ->
  exists novelty impact,
    numeric (field topic "noveltyScore") = Return novelty
    /\ numeric (field topic "impactScore") = Return impact
    /\ passes a c t = Return (ge (Fin novelty) a && ge (Fin impact) c).
Proof.
  intros Ht. destruct (scoreTopic_sum _ _ Ht) as (novelty & impact & Hn & Hi & _ & Hp).
  exists novelty, impact. repeat split; try done.
  unfold passes. rewrite Hp.
  rewrite (props_field topic "n" "oveltyScore") by (done || apply n_not_a_digit).
  rewrite (props_field topic "i" "mpactScore") by (done || apply i_not_a_digit).
  by rewrite Hn, Hi.
Qed.

Lemma filterM_scored a c topics scored :
  mapM scoreTopic topics = Return scored ->
  exists filtered, filterM (passes a c) scored = Return filtered.
Proof.
  revert scored. induction topics as [|topic topics IH]; simpl; intros scored.
  { intros [= <-]. by eexists. }
  destruct (scoreTopic topic) as [t|] eqn:Ht; simpl; [|done].
  destruct (mapM scoreTopic topics) as [ts|]; simpl; [|done].
  intros [= <-]. destruct (IH ts eq_refl) as [filtered Hf].
  destruct (passes_scored a c _ _ Ht) as (? & ? & _ & _ & Hp).
  simpl. rewrite Hp, Hf. simpl. by eexists.
Qed.

(** When every topic is scorable the topics to rank are computed without
    an exception, and there are some as soon as there is a topic. *)
Lemma topicsToRank_scorable th topics :
  forallb scorable topics = true ->
  exists toRank, topicsToRank th topics = Return toRank
                 /\ (topics <> [] -> toRank <> [])
                 /\ (length toRank <= length topics)%nat.
Proof.
  intros Hs. rewrite <- scoring_returns in Hs. unfold topicsToRank.
  destruct (mapM scoreTopic topics) as [scored|] eqn:Hm; [|done].
  destruct (filterM_scored (minNoveltyScore th) (minImpactScore th) _ _ Hm)
    as [filtered Hf].
  pose proof (mapM_length _ _ _ Hm) as Hlen.
  simpl. rewrite Hf. simpl. eexists; split; [done|].
  assert (length filtered <= length scored)%nat as Hle.
  { clear -Hf. revert filtered Hf. induction scored as [|t ts IH]; simpl; intros filtered.
    { by intros [= <-]. }
    destruct (passes _ _ t) as [keep|]; simpl; [|done].
    destruct (filterM _ ts) as [rest|]; simpl; [|done].
    intros [= <-]. specialize (IH rest eq_refl). destruct keep; simpl; lia. }
  destruct (0 <? length filtered)%nat eqn:Hpos.
  - apply Nat.ltb_lt in Hpos. split; [|lia]. intros _ ->. simpl in Hpos. lia.
  - split; [|lia]. intros Hne ->. simpl in Hlen. by destruct topics.
Qed.

(** *** The length of the selection *)

Lemma Math_max_num a b : Math_max (num a) (num b) = num (Z.max a b).
Proof.
  unfold Math_max, num. case_bool_decide as H.
  - apply Z2Qc_inj_le in H. by rewrite Z.max_r.
  - rewrite <- Z2Qc_inj_le in H. by rewrite Z.max_l by lia.
Qed.

Lemma truncate_integer z : truncate (Qc_of_Z z) = z.
Proof. unfold truncate. simpl. apply Z.quot_1_r. Qed.

Lemma slice0_integer {X : Type} (l : list X) z :
  1 <= z -> slice0 l (num z) = take (Z.to_nat z) l.
Proof.
  intros Hz. unfold slice0, num. cbn [ToIntegerOrInfinity]. rewrite truncate_integer.
  destruct (z <? 0) eqn:Hneg; [lia|].
  destruct (Z.min_spec z (Z.of_nat (length l))) as [[_ ->]|[Hle ->]]; [done|].
  rewrite Nat2Z.id, firstn_all. symmetry. apply take_ge. lia.
Qed.

Lemma rankTopics_integer th topics toRank z :
  topicsToRank th topics = Return toRank -> maxTopics th = num z ->
  exists ranked, rankTopics th topics = Return ranked
    /\ length ranked = Nat.min (length toRank) (Z.to_nat (Z.max 1 z)).
Proof.
  intros Ht Hz. unfold rankTopics. rewrite Ht, Hz. cbn [bind].
  eexists; split; [done|].
  rewrite Math_max_num, slice0_integer by lia.
  rewrite length_take, (Permutation_length (sort_perm toRank)). lia.
Qed.

(** The filter of the scored topics does not throw: it reads again the
    scores that the scoring has read. *)
Lemma selection_integer th topics scored z :
  mapM scoreTopic topics = Return scored -> maxTopics th = num z ->
  exists filtered selected,
    filterM (passes (minNoveltyScore th) (minImpactScore th)) scored = Return filtered
    /\ topicsToRank th topics
       = Return (if (0 <? length filtered)%nat then filtered else scored)
    /\ selectTopics th topics = Return selected
    /\ length selected
       = Nat.min (length (if (0 <? length filtered)%nat then filtered else scored))
                 (Z.to_nat (Z.max 1 z)).
Proof.
  intros Hm Hz.
  destruct (filterM_scored (minNoveltyScore th) (minImpactScore th) _ _ Hm)
    as [filtered Hf].
  assert (topicsToRank th topics
          = Return (if (0 <? length filtered)%nat then filtered else scored)) as Ht.
  { unfold topicsToRank. rewrite Hm. cbn [bind]. by rewrite Hf. }
  destruct (rankTopics_integer th topics _ z Ht Hz) as (ranked & Hr & Hlen).
  exists filtered, (map (fun t => JObj (props t)) ranked).
  split; [done|]. split; [done|]. split.
  - unfold selectTopics. by rewrite Hr.
  - by rewrite length_map.
Qed.

End Scoring.

(** C3: with the thresholds 6, 6 and 2 the three topics scored (8, 7),
    (5, 9) and (7, 6) yield the first and the third topic, in that order,
    the second one having been filtered out, ranked with the scores 15 and
    13; among topics of equal score the one that came first in the input
    stays first; and in general the sort that the selection applies
    returns a permutation of its input in descending order of score in
    which the topics of any one score keep their input order. *)
Theorem C3_selection_example (B : Builtins) :
  selectTopics example_thresholds three_topics = Return [first_topic; third_topic]
  /\ (exists toRank,
        topicsToRank example_thresholds three_topics = Return toRank
        /\ map (fun t => JObj (props t)) toRank = [first_topic; third_topic])
  /\ (exists ranked,
        rankTopics example_thresholds three_topics = Return ranked
        /\ map _score ranked = [Qc_of_Z 15; Qc_of_Z 13])
  /\ selectTopics example_thresholds [third_topic; first_topic; fourth_topic]
       = Return [first_topic; fourth_topic]
  /\ (forall l : list ScoredTopic,
        sort by_score_desc l ≡ₚ l
        /\ StronglySorted score_ge (sort by_score_desc l)
        /\ forall q, filter (fun t => _score t = q) (sort by_score_desc l)
                     = filter (fun t => _score t = q) l).
Proof.
  split; [vm_compute; reflexivity|].
  split; [eexists; split; vm_compute; reflexivity|].
  split.
  { eexists. split; [vm_compute; reflexivity|].
    simpl. f_equal; [|f_equal]; by apply Qc_is_canon. }
  split; [vm_compute; reflexivity|].
  intros l. split; [apply sort_perm|]. split; [apply sort_sorted|].
  intros q. apply sort_stable.
Qed.

(** *** The length of the selection for any limit but [NaN] *)








(** A [maxTopics] that is not a number, as the configuration entry "many"
    is once converted, makes [Math.max(1, maxTopics)] not a number and the
    slice empty, although two of the three topics pass the filter. *)
Lemma selection_empty_for_NaN (B : Builtins) :
  thresholds (getAnalysisConfig wordy_config) (getStrategyConfig wordy_config)
    = Return (mkThresholds (num 6) (num 6) (num 8) (StringToNumber "many"))
  /\ (exists toRank,
        topicsToRank (mkThresholds (num 6) (num 6) (num 8) NaN) three_topics = Return toRank
        /\ length toRank = 2%nat)
  /\ selectTopics (mkThresholds (num 6) (num 6) (num 8) NaN) three_topics = Return [].
Proof.
  split; [vm_compute; reflexivity|].
  split; [eexists; split; vm_compute; reflexivity|].
  vm_compute; reflexivity.
Qed.

(** C9, evaluated where the code departs from it: a topic list with a
    [null] entry makes the scoring throw a [TypeError] when it reads
    [noveltyScore] from that entry, and so does a topic whose score is an
    object with an own [toString] property, which [Number] cannot
    convert. *)
Theorem C9_scoring_throws (B : Builtins) :
  mapM scoreTopic [first_topic; JNull]
    = Throw (TypeError "Cannot read properties of null (reading 'noveltyScore')")
  /\ selectTopics example_thresholds [first_topic; JNull]
    = Throw (TypeError "Cannot read properties of null (reading 'noveltyScore')")
  /\ mapM scoreTopic [odd_topic] = Throw cannot_convert
  /\ selectTopics example_thresholds [odd_topic] = Throw cannot_convert.
Proof. repeat split; vm_compute; reflexivity. Qed.

(** *** The batch loop *)

Section Batch.
Context {B : Builtins} (services : Services) (config : Config) (options : Options).

Lemma iterate_spec remaining i acc :
  iterate services config options remaining i acc
  = (acc ++ omap (generated_by services config options)
                 (seq i (iterations_run services config options remaining i)))%list.
Proof.
  revert i acc. induction remaining as [|remaining IH]; intros i acc.
  { simpl. by rewrite app_nil_r. }
  cbn [iterate iterations_run].
  destruct (iteration services config options i) as [[blog|]|e] eqn:Hi;
    cbn [seq omap list_omap]; unfold generated_by at 1; rewrite Hi.
  - by rewrite IH, <- app_assoc.
  - by rewrite app_nil_r.
  - by rewrite IH.
Qed.

Lemma iterations_run_all remaining i :
  (forall j, (i <= j < i + remaining)%nat ->
     iteration services config options j <> Return None) ->
  iterations_run services config options remaining i = remaining.
Proof.
  revert i. induction remaining as [|remaining IH]; intros i Hno; simpl; [done|].
  destruct (iteration services config options i) as [[blog|]|e] eqn:Hi.
  - f_equal. apply IH. intros j Hj. apply Hno. lia.
  - exfalso. apply (Hno i); [lia|done].
  - f_equal. apply IH. intros j Hj. apply Hno. lia.
Qed.

Lemma iterations_run_positive remaining i :
  (0 < remaining)%nat -> (0 < iterations_run services config options remaining i)%nat.
Proof.
  destruct remaining as [|remaining]; [lia|]. intros _. simpl.
  destruct (iteration services config options i) as [[blog|]|e]; lia.
Qed.

(** After an iteration that does not take the [break] the loop enters
    the next one, if one is left. *)
Lemma iterations_run_next remaining start i :
  (i < iterations_run services config options remaining start)%nat ->
  iteration services config options (start + i) <> Return None ->
  (S i < remaining)%nat ->
  (S i < iterations_run services config options remaining start)%nat.
Proof.
  revert start i. induction remaining as [|remaining IH]; intros start i; [simpl; lia|].
  cbn [iterations_run]. destruct i as [|i].
  - rewrite Nat.add_0_r. intros _ Hno Hlt.
    pose proof (iterations_run_positive remaining (S start)).
    destruct (iteration services config options start) as [[blog|]|e]; [lia|done|lia].
  - replace (start + S i)%nat with (S start + i)%nat by lia. intros Hi Hno Hlt.
    destruct (iteration services config options start) as [[blog|]|e]; [|lia|];
      apply -> Nat.succ_lt_mono; apply IH; (done || lia).
Qed.

Lemma length_generated (l : list nat) :
  length (omap (generated_by services config options) l)
  = length (filter (fun i => succeeded services config options i = true) l).
Proof.
  induction l as [|i l IH]; [done|].
  rewrite filter_cons. cbn [omap list_omap].
  destruct (generated_by services config options i) as [blog|] eqn:Hg.
  - rewrite decide_True by (unfold succeeded; by rewrite Hg). simpl. by rewrite <- IH.
  - rewrite decide_False by (unfold succeeded; by rewrite Hg). apply IH.
Qed.

(** [executeStrategy] returns, in order, the entries of the iterations
    that came to their end, one per such iteration. *)
Lemma executeStrategy_spec count :
  client_available services options ->
  let n := iterations_run services config options count 0 in
  exists generatedBlogs,
    executeStrategy services config count options = Return generatedBlogs
    /\ generatedBlogs = omap (generated_by services config options) (seq 0 n)
    /\ length generatedBlogs
       = length (filter (fun i => succeeded services config options i = true) (seq 0 n)).
Proof.
  intros Hc n. unfold executeStrategy, client_available in *.
  exists (iterate services config options count 0 []).
  split.
  - destruct (aiModel options) as [model|]; [|done].
    destruct (String.eqb model "" || String.eqb model "default"); [done|].
    by rewrite Hc.
  - rewrite iterate_spec. simpl. split; [done|]. apply length_generated.
Qed.

End Batch.

End StrategyFacts.

(** ** The workflows *)

Module WorkflowFacts.
Import Js StrategyExecutor WorkflowManager.

Section Run.
Context {B : Builtins} (world : World).

(** *** The executors leave the status of their task to [startTask] *)

Lemma keeps_live_resolve {A : Type} id (a : A) : keeps_live id (resolve a).
Proof. by intros st. Qed.

Lemma keeps_live_and_then {A C : Type} id (m : Executor A) (k : A -> Executor C) :
  keeps_live id m -> (forall a, keeps_live id (k a)) -> keeps_live id (and_then m k).
Proof.
  intros Hm Hk st Hst. unfold and_then. specialize (Hm st Hst).
  destruct (m st) as [st' [a|e]]; [|done]. by apply Hk.
Qed.

Lemma live_cancelTask id other q :
  live id q -> live id (TaskQueue.cancelTask other q).
Proof.
  unfold live. rewrite TaskQueueFacts.status_cancelTask.
  destruct (decide _); [by right|done].
Qed.

Lemma live_updateProgress now id other percent step msg q :
  live id q -> live id (TaskQueue.updateProgress now other percent step msg q).
Proof. unfold live. by rewrite TaskQueueFacts.status_updateProgress. Qed.

Lemma keeps_live_await {A : Type} id k (outcome : Exc A) :
  keeps_live id (await world id k outcome).
Proof.
  intros st Hst. unfold await. simpl.
  destruct (cancelled_during world k); [|done]. by apply live_cancelTask.
Qed.

Lemma keeps_live_progress id cb k percent step msg :
  keeps_live id (progress world id cb k percent step msg).
Proof.
  intros st Hst. unfold progress. simpl.
  destruct cb as [[other]|]; repeat apply live_updateProgress; done.
Qed.

Lemma keeps_live_saveReport id k report :
  keeps_live id (saveReport world id k report).
Proof.
  intros st Hst. unfold saveReport.
  pose proof (keeps_live_await id k (writeReport world report) st Hst) as H.
  by destruct (await world id k (writeReport world report) st) as [st' [?|?]].
Qed.

Ltac keeps_live :=
  repeat first
    [ apply keeps_live_resolve
    | apply keeps_live_await
    | apply keeps_live_progress
    | apply keeps_live_saveReport
    | apply keeps_live_and_then; [|intros ?]
    | match goal with |- keeps_live _ (match ?l with [] => _ | _ :: _ => _ end) =>
        destruct l
      end ].

Lemma keeps_live_fullWorkflow id cb blogCount options :
  keeps_live id (fullWorkflow world id cb blogCount options).
Proof. unfold fullWorkflow. keeps_live. Qed.

Lemma keeps_live_analyzeWorkflow id cb blogCount options :
  keeps_live id (analyzeWorkflow world id cb blogCount options).
Proof. unfold analyzeWorkflow. keeps_live. Qed.

Lemma keeps_live_fetchWorkflow id cb selectedFeeds :
  keeps_live id (fetchWorkflow world id cb selectedFeeds).
Proof. unfold fetchWorkflow. keeps_live. Qed.

(** *** Running an executor under [startTask] *)

Lemma task_for_id options type taskId st :
  (task_for options type taskId st).1 = task_of taskId st.
Proof. unfold task_for, task_of. by destruct (no_task taskId). Qed.

Lemma startable_begins options type taskId st :
  startable taskId st ->
  exists q1, TaskQueue.startTask_begin (clock world 0) (task_of taskId st)
               (task_for options type taskId st).2 = Return q1.
Proof.
  unfold startable, task_of, task_for. destruct (no_task taskId).
  - intros _. eexists.
    eapply TaskQueueFacts.startTask_begin_pending; [simpl; apply lookup_insert_eq|done].
  - unfold TaskQueue.getTaskStatus. intros Hs. cbn [snd].
    destruct (TaskQueue.tasks (registry st) !! default "" taskId) as [t|] eqn:Hl; [|done].
    injection Hs as Hs. eexists.
    apply (TaskQueueFacts.startTask_begin_pending _ _ _ t); [exact Hl | exact Hs].
Qed.

Lemma settle_completed now id payload (q : TaskQueue.TaskQueue TaskOptions Payload) :
  live id q ->
  exists task,
    TaskQueue.getTask id (TaskQueue.startTask_settle now id (Return payload) q).1 = Some task
    /\ TaskQueue.status task = TaskQueue.COMPLETED
    /\ TaskQueue.result task = Some payload.
Proof.
  intros Hq. unfold TaskQueue.getTask. simpl. rewrite lookup_alter_eq.
  assert (is_Some (TaskQueue.tasks q !! id)) as [t Ht].
  { unfold live, TaskQueue.getTaskStatus in Hq.
    destruct (TaskQueue.tasks q !! id); [by eexists|]. by destruct Hq. }
  rewrite Ht. by eexists.
Qed.

(** What a workflow returns and how it leaves its task: when [startTask]
    rejects the task, a failure result; when the executor resolves, its
    payload, the task being COMPLETED with that payload as result; when it
    rejects, a failure result, the task being FAILED. *)
Lemma run_spec failure options type executor taskId st :
  (forall id, keeps_live id (executor id)) ->
  let id := task_of taskId st in
  let q := (task_for options type taskId st).2 in
  match TaskQueue.startTask_begin (clock world 0) id q with
  | Throw e =>
      run world failure options type executor taskId st =
        (mkState q (reports st),
         Some (TheResult (createWorkflowResult (clock world 0) false failure (ErrorData e))))
  | Return q1 =>
      match executor id (mkState q1 (reports st)) with
      | (st2, Return payload) =>
          exists q3,
            run world failure options type executor taskId st
              = (mkState q3 (reports st2), Some payload)
            /\ TaskQueue.getTaskStatus id q3 = Some TaskQueue.COMPLETED
            /\ TaskQueue.result <$> TaskQueue.getTask id q3 = Some (Some payload)
      | (st2, Throw e) =>
          exists q3,
            run world failure options type executor taskId st
              = (mkState q3 (reports st2),
                 Some (TheResult (createWorkflowResult (clock world 7) false failure
                                                       (ErrorData e))))
            /\ TaskQueue.getTaskStatus id q3 = Some TaskQueue.FAILED
      end
  end.
Proof.
  intros Hlive id q. subst id q. rewrite <- (task_for_id options type).
  unfold run. destruct (task_for options type taskId st) as [id q]. cbn [fst snd].
  destruct (TaskQueue.startTask_begin (clock world 0) id q) as [q1|e] eqn:Hb; [|done].
  assert (live id q1) as Hq1.
  { left. destruct (TaskQueueFacts.status_startTask_begin _ _ _ _ id Hb) as [_ ->].
    by rewrite decide_True. }
  pose proof (Hlive id (mkState q1 (reports st)) Hq1) as Hq2.
  destruct (executor id (mkState q1 (reports st))) as [st2 [payload|e]]; cbn [fst] in Hq2.
  - destruct (settle_completed (clock world 7) id payload _ Hq2) as (task & Ht & Hs & Hr).
    eexists. cbn [TaskQueue.startTask_settle]. cbv zeta.
    cbn [TaskQueue.startTask_settle fst] in Ht.
    rewrite Ht, Hs, Hr. split; [reflexivity|]. split.
    + unfold TaskQueue.getTaskStatus. unfold TaskQueue.getTask in Ht. by rewrite Ht, <- Hs.
    + by rewrite Ht; simpl; rewrite Hr.
  - eexists. cbn [TaskQueue.startTask_settle]. split; [done|].
    rewrite TaskQueueFacts.status_emit, TaskQueueFacts.status_update, decide_True by done.
    destruct Hq2 as [Hq2|Hq2]; unfold TaskQueue.getTaskStatus in Hq2;
      by destruct (TaskQueue.tasks (registry st2) !! id).
Qed.

(** *** Stepping through an executor *)

Lemma and_then_progress {C : Type} id cb k percent step msg (f : unit -> Executor C) st :
  and_then (progress world id cb k percent step msg) f st
  = f tt (progress world id cb k percent step msg st).1.
Proof. done. Qed.

Lemma and_then_await {A C : Type} id k (outcome : Exc A) (f : A -> Executor C) st a :
  outcome = Return a ->
  and_then (await world id k outcome) f st = f a (await world id k outcome st).1.
Proof. by intros ->. Qed.

Lemma and_then_saveReport {C : Type} id k report (f : unit -> Executor C) st :
  writeReport world report = Return tt ->
  and_then (saveReport world id k report) f st
  = f tt (saveReport world id k report st).1.
Proof. intros H. unfold and_then, saveReport, await. by rewrite H. Qed.

Lemma reports_progress id cb k percent step msg st :
  reports (progress world id cb k percent step msg st).1 = reports st.
Proof. done. Qed.

Lemma reports_await {A : Type} id k (outcome : Exc A) st :
  reports (await world id k outcome st).1 = reports st.
Proof. unfold await. simpl. by destruct (cancelled_during world k). Qed.

Lemma reports_saveReport id k report st :
  writeReport world report = Return tt ->
  reports (saveReport world id k report st).1 = (reports st ++ [report])%list.
Proof.
  intros H. unfold saveReport, await. rewrite H. simpl.
  by destruct (cancelled_during world k).
Qed.

(** *** The report of a batch *)

Lemma strategy_field_defined config v k :
  strategy config = Some v -> v <> JNull ->
  strategy_field config k = Return (StrategyExecutor.field v k).
Proof.
  intros Hs Hv. unfold strategy_field. rewrite Hs. by apply StrategyFacts.get_field_field.
Qed.

Lemma generateReport_defined now entries config start stats v :
  getArticleStats world = Return stats ->
  strategy config = Some v -> v <> JNull ->
  exists report,
    generateReport world now entries config start = Return report
    /\ generatedBlogs report = length entries
    /\ blogs report = Some entries
    /\ success report = true.
Proof.
  intros Hstats Hs Hv. unfold generateReport.
  rewrite Hstats, !(strategy_field_defined config v) by done.
  cbn [bind]. by eexists.
Qed.

(** The executor of the full workflow when every collaborator outside
    the batch loop answers: it resolves with the report of the batch,
    which has been persisted. *)
Lemma fullWorkflow_resolves id cb blogCount options config article articles
    stored entries report st :
  loadConfig world = Return config ->
  fetchRSSFeeds world (rssFeeds config) = Return (article :: articles) ->
  mapM (storeArticle world) (article :: articles) = Return stored ->
  executeStrategy (services world) config blogCount options = Return entries ->
  generateReport world (clock world 4) entries config (clock world 0) = Return report ->
  writeReport world report = Return tt ->
  exists st',
    fullWorkflow world id cb blogCount options st = (st', Return (TheReport report))
    /\ reports st' = (reports st ++ [report])%list.
Proof.
  intros Hload Hfetch Hstore Hbatch Hreport Hwrite.
  unfold fullWorkflow.
  rewrite and_then_progress, (and_then_await _ _ _ _ _ _ Hload),
    and_then_progress, (and_then_await _ _ _ _ _ _ Hfetch),
    and_then_progress, (and_then_await _ _ _ _ _ _ Hstore),
    and_then_progress, (and_then_await _ _ _ _ _ _ Hbatch),
    and_then_progress, (and_then_await _ _ _ _ _ _ Hreport),
    and_then_progress, (and_then_saveReport _ _ _ _ _ Hwrite),
    and_then_progress.
  unfold resolve. eexists. split; [done|].
  rewrite reports_progress, (reports_saveReport _ _ _ _ Hwrite).
  by repeat first [rewrite reports_await | rewrite reports_progress].
Qed.

Lemma analyzeWorkflow_resolves id cb blogCount options config entries report st :
  loadConfig world = Return config ->
  executeStrategy (services world) config blogCount options = Return entries ->
  generateReport world (clock world 2) entries config (clock world 0) = Return report ->
  writeReport world report = Return tt ->
  exists st',
    analyzeWorkflow world id cb blogCount options st = (st', Return (TheReport report))
    /\ reports st' = (reports st ++ [report])%list.
Proof.
  intros Hload Hbatch Hreport Hwrite.
  unfold analyzeWorkflow.
  rewrite and_then_progress, (and_then_await _ _ _ _ _ _ Hload),
    and_then_progress, (and_then_await _ _ _ _ _ _ Hbatch),
    and_then_progress, (and_then_await _ _ _ _ _ _ Hreport),
    (and_then_saveReport _ _ _ _ _ Hwrite), and_then_progress.
  unfold resolve. eexists. split; [done|].
  rewrite reports_progress, (reports_saveReport _ _ _ _ Hwrite).
  by repeat first [rewrite reports_await | rewrite reports_progress].
Qed.

(** C2: in a run of the full pipeline that asks for [blogCount] articles
    and in which the steps around the batch loop succeed (the
    configuration is loaded and has a strategy, articles are fetched and
    stored, the statistics are read, the report is written), an iteration
    that throws, in its analysis, its generation, its saving or anywhere
    else, adds no entry and the loop goes on with the next one, if one is
    left: the report counts exactly the iterations that came to their end,
    lists their entries in order, and the task ends COMPLETED with the
    report as its result. The loop enters all [blogCount] iterations unless
    one of them finds no article to process. *)
Theorem C2_failed_iterations_are_skipped blogCount options cb taskId st
    config article articles stats v :
  startable taskId st ->
  loadConfig world = Return config ->
  strategy config = Some v -> v <> JNull ->
  fetchRSSFeeds world (rssFeeds config) = Return (article :: articles) ->
  is_return (mapM (storeArticle world) (article :: articles)) = true ->
  client_available (services world) options ->
  getArticleStats world = Return stats ->
  (forall r, writeReport world r = Return tt) ->
  let n := iterations_run (services world) config options blogCount 0 in
  exists st' report,
    executeFullWorkflow world blogCount options cb taskId st = (st', Some (TheReport report))
    /\ TaskQueue.getTaskStatus (task_of taskId st) (registry st') = Some TaskQueue.COMPLETED
    /\ generatedBlogs report
       = length (filter (fun i => succeeded (services world) config options i = true)
                        (seq 0 n))
    /\ blogs report = Some (omap (generated_by (services world) config options) (seq 0 n))
    /\ reports st' = (reports st ++ [report])%list
    /\ (forall i e, (i < n)%nat ->
          iteration (services world) config options i = Throw e ->
          generated_by (services world) config options i = None
          /\ ((S i < blogCount)%nat -> (S i < n)%nat))
    /\ ((forall i, (i < blogCount)%nat ->
           iteration (services world) config options i <> Return None) ->
        n = blogCount).
Proof.
  intros Hstart Hload Hs Hv Hfetch Hstore Hclient Hstats Hwrite n.
  destruct (mapM (storeArticle world) (article :: articles)) as [stored|] eqn:Hstored;
    [clear Hstore|done].
  destruct (StrategyFacts.executeStrategy_spec (services world) config options blogCount Hclient)
    as (generated & Hbatch & Hgen & Hlen).
  destruct (generateReport_defined (clock world 4) generated config (clock world 0) stats v
              Hstats Hs Hv) as (report & Hreport & Hcount & Hblogs & _).
  destruct (startable_begins (FullWorkflow blogCount options) "fullWorkflow" _ _ Hstart)
    as [q1 Hq1].
  pose proof (run_spec "工作流执行失败" (FullWorkflow blogCount options) "fullWorkflow"
                (fun id => fullWorkflow world id cb blogCount options) taskId st
                (fun id => keeps_live_fullWorkflow id cb blogCount options)) as Hrun.
  cbv zeta in Hrun. rewrite Hq1 in Hrun. cbv beta in Hrun.
  destruct (fullWorkflow_resolves (task_of taskId st) cb blogCount options config article
              articles stored generated report (mkState q1 (reports st))
              Hload Hfetch Hstored Hbatch Hreport (Hwrite report)) as (st2 & Hexec & Hreports).
  rewrite Hexec in Hrun. destruct Hrun as (q3 & Hrun & Hstatus & _).
  exists (mkState q3 (reports st2)), report.
  split; [exact Hrun|]. split; [exact Hstatus|].
  split; [by rewrite Hcount, Hlen|]. split; [by rewrite Hblogs, Hgen|].
  split; [exact Hreports|]. split.
  - intros i e Hi He. split; [unfold generated_by; by rewrite He|].
    intros Hnext. apply StrategyFacts.iterations_run_next; [exact Hi| |exact Hnext].
    simpl. by rewrite He.
  - intros Hno. apply StrategyFacts.iterations_run_all. intros j Hj. apply Hno. lia.
Qed.

(** The same holds of the pipeline that analyses the articles already
    stored. *)
Lemma analyze_failed_iterations_are_skipped blogCount options cb taskId st config stats v :
  startable taskId st ->
  loadConfig world = Return config ->
  strategy config = Some v -> v <> JNull ->
  client_available (services world) options ->
  getArticleStats world = Return stats ->
  (forall r, writeReport world r = Return tt) ->
  let n := iterations_run (services world) config options blogCount 0 in
  exists st' report,
    analyzeExistingArticles world blogCount options cb taskId st
      = (st', Some (TheReport report))
    /\ TaskQueue.getTaskStatus (task_of taskId st) (registry st') = Some TaskQueue.COMPLETED
    /\ generatedBlogs report
       = length (filter (fun i => succeeded (services world) config options i = true)
                        (seq 0 n))
    /\ reports st' = (reports st ++ [report])%list.
Proof.
  intros Hstart Hload Hs Hv Hclient Hstats Hwrite n.
  destruct (StrategyFacts.executeStrategy_spec (services world) config options blogCount Hclient)
    as (generated & Hbatch & Hgen & Hlen).
  destruct (generateReport_defined (clock world 2) generated config (clock world 0) stats v
              Hstats Hs Hv) as (report & Hreport & Hcount & Hblogs & _).
  destruct (startable_begins (AnalyzeWorkflow blogCount options) "analyzeWorkflow" _ _ Hstart)
    as [q1 Hq1].
  pose proof (run_spec "分析现有文章失败" (AnalyzeWorkflow blogCount options) "analyzeWorkflow"
                (fun id => analyzeWorkflow world id cb blogCount options) taskId st
                (fun id => keeps_live_analyzeWorkflow id cb blogCount options)) as Hrun.
  cbv zeta in Hrun. rewrite Hq1 in Hrun. cbv beta in Hrun.
  destruct (analyzeWorkflow_resolves (task_of taskId st) cb blogCount options config
              generated report (mkState q1 (reports st))
              Hload Hbatch Hreport (Hwrite report)) as (st2 & Hexec & Hreports).
  rewrite Hexec in Hrun. destruct Hrun as (q3 & Hrun & Hstatus & _).
  exists (mkState q3 (reports st2)), report.
  split; [exact Hrun|]. split; [exact Hstatus|].
  split; [by rewrite Hcount, Hlen|]. exact Hreports.
Qed.

(** *** The fetch workflow *)

Lemma and_then_returned {A C : Type} id k (a : A) (f : A -> Executor C) st :
  and_then (await world id k (Return a)) f st = f a (await world id k (Return a) st).1.
Proof. done. Qed.

Lemma and_then_thrown {A C : Type} id k e (f : A -> Executor C) st :
  and_then (await world id k (Throw e)) f st
  = ((await world id k (Throw (A := A) e) st).1, Throw e).
Proof. done. Qed.

Lemma and_then_saveReport_throw {C : Type} id k report (f : unit -> Executor C) st e :
  writeReport world report = Throw e ->
  and_then (saveReport world id k report) f st
  = ((await world id k (writeReport world report) st).1, Throw e).
Proof. intros H. unfold and_then, saveReport, await. by rewrite H. Qed.

Ltac unchanged_reports :=
  cbn [fst snd];
  repeat first [rewrite reports_await | rewrite reports_progress];
  split; [by left|done].

(** Whatever the collaborators answer, the executor of the fetch
    workflow persists at most a report that counts no generated blog, and
    a report in the payload it resolves with counts none either. *)
Lemma fetchWorkflow_outcome id cb selectedFeeds st :
  (forall r, r ∈ reports (fetchWorkflow world id cb selectedFeeds st).1 ->
     r ∈ reports st \/ generatedBlogs r = 0%nat)
  /\ (forall p r, (fetchWorkflow world id cb selectedFeeds st).2 = Return p ->
       report_of (Some p) = Some r -> generatedBlogs r = 0%nat).
Proof.
  unfold fetchWorkflow. rewrite and_then_progress.
  destruct (loadConfig world) as [config|e];
    [rewrite and_then_returned | rewrite and_then_thrown; unchanged_reports].
  rewrite and_then_progress.
  destruct (fetchRSSFeeds world _) as [articles|e];
    [rewrite and_then_returned | rewrite and_then_thrown; unchanged_reports].
  destruct articles as [|article articles].
  { rewrite and_then_progress. unfold resolve. cbn [fst snd].
    repeat first [rewrite reports_await | rewrite reports_progress].
    split; [by left|]. by intros p r [= <-]. }
  rewrite and_then_progress.
  destruct (mapM (storeArticle world) _) as [stored|e];
    [rewrite and_then_returned | rewrite and_then_thrown; unchanged_reports].
  rewrite and_then_progress.
  destruct (getArticleStats world) as [stats|e];
    [rewrite and_then_returned | rewrite and_then_thrown; unchanged_reports].
  cbv zeta.
  match goal with |- context [saveReport world id 4 ?r] => set (report := r) end.
  destruct (writeReport world report) as [[]|e] eqn:Hwrite;
    [rewrite (and_then_saveReport _ _ _ _ _ Hwrite)
    |rewrite (and_then_saveReport_throw _ _ _ _ _ _ Hwrite); unchanged_reports].
  rewrite and_then_progress. unfold resolve. cbn [fst snd].
  rewrite reports_progress, (reports_saveReport _ _ _ _ Hwrite).
  repeat first [rewrite reports_await | rewrite reports_progress].
  split.
  - intros r [Hr|Hr%list_elem_of_singleton]%elem_of_app; [by left|]. right. by subst r.
  - intros p r [= <-]. simpl. by intros [= <-].
Qed.

Lemma fetchWorkflow_resolves id cb selectedFeeds config article articles stored stats st :
  loadConfig world = Return config ->
  fetchRSSFeeds world (feedsToFetch selectedFeeds config) = Return (article :: articles) ->
  mapM (storeArticle world) (article :: articles) = Return stored ->
  getArticleStats world = Return stats ->
  (forall r, writeReport world r = Return tt) ->
  exists st' w report,
    fetchWorkflow world id cb selectedFeeds st = (st', Return (TheResult w))
    /\ result_success w = true
    /\ data w = ReportData report
    /\ generatedBlogs report = 0%nat
    /\ articlesFetched report = Some (S (length articles))
    /\ reports st' = (reports st ++ [report])%list.
Proof.
  intros Hload Hfetch Hstore Hstats Hwrite.
  unfold fetchWorkflow.
  rewrite and_then_progress, (and_then_await _ _ _ _ _ _ Hload),
    and_then_progress, (and_then_await _ _ _ _ _ _ Hfetch),
    and_then_progress, (and_then_await _ _ _ _ _ _ Hstore),
    and_then_progress, (and_then_await _ _ _ _ _ _ Hstats).
  cbv zeta.
  rewrite (and_then_saveReport _ _ _ _ _ (Hwrite _)), and_then_progress.
  unfold resolve. eexists _, _, _. split; [done|].
  repeat (split; [done|]).
  rewrite reports_progress, (reports_saveReport _ _ _ _ (Hwrite _)).
  by repeat first [rewrite reports_await | rewrite reports_progress].
Qed.

(** C6, as the code has it: every report that a run of the fetch-only
    pipeline returns or persists counts no generated blog, however many
    items were fetched; when at least one item is fetched and the
    collaborators answer, there is such a report, and the task ends
    COMPLETED; when no item is fetched there is no report at all: nothing
    is persisted and the run returns a result whose [success] is false and
    whose [data] is empty, the task ending COMPLETED. *)
Theorem C6_fetch_reports_count_nothing selectedFeeds cb taskId st :
  let run := executeFetchWorkflow world selectedFeeds cb taskId st in
  (forall r, report_of run.2 = Some r -> generatedBlogs r = 0%nat)
  /\ (forall r, r ∈ reports run.1 -> r ∈ reports st \/ generatedBlogs r = 0%nat)
  /\ (forall config article articles stats,
        startable taskId st ->
        loadConfig world = Return config ->
        fetchRSSFeeds world (feedsToFetch selectedFeeds config) = Return (article :: articles) ->
        is_return (mapM (storeArticle world) (article :: articles)) = true ->
        getArticleStats world = Return stats ->
        (forall r, writeReport world r = Return tt) ->
        exists report,
          report_of run.2 = Some report
          /\ generatedBlogs report = 0%nat
          /\ articlesFetched report = Some (S (length articles))
          /\ reports run.1 = (reports st ++ [report])%list
          /\ TaskQueue.getTaskStatus (task_of taskId st) (registry run.1)
             = Some TaskQueue.COMPLETED)
  /\ (forall config,
        startable taskId st ->
        loadConfig world = Return config ->
        fetchRSSFeeds world (feedsToFetch selectedFeeds config) = Return [] ->
        run.2 = Some (TheResult (createWorkflowResult (clock world 2) false
                                                      "没有抓取到任何文章" NoData))
        /\ report_of run.2 = None
        /\ reports run.1 = reports st
        /\ TaskQueue.getTaskStatus (task_of taskId st) (registry run.1)
           = Some TaskQueue.COMPLETED).
Proof.
  intros run.
  pose proof (run_spec "选择性抓取执行失败" (FetchWorkflow selectedFeeds) "fetchWorkflow"
                (fun id => fetchWorkflow world id cb selectedFeeds) taskId st
                (fun id => keeps_live_fetchWorkflow id cb selectedFeeds)) as Hrun.
  cbv zeta in Hrun. fold (executeFetchWorkflow world selectedFeeds cb taskId st) in Hrun.
  fold run in Hrun.
  split; [|split; [|split]].
  - destruct (TaskQueue.startTask_begin _ _ _) as [q1|e]; [|by rewrite Hrun].
    pose proof (fetchWorkflow_outcome (task_of taskId st) cb selectedFeeds
                  (mkState q1 (reports st))) as [_ Hout].
    destruct (fetchWorkflow world _ cb selectedFeeds _) as [st2 [p|e]];
      destruct Hrun as (q3 & -> & _); [|done].
    intros r Hr. by apply (Hout p r).
  - destruct (TaskQueue.startTask_begin _ _ _) as [q1|e]; [|rewrite Hrun; by left].
    pose proof (fetchWorkflow_outcome (task_of taskId st) cb selectedFeeds
                  (mkState q1 (reports st))) as [Hrep _].
    destruct (fetchWorkflow world _ cb selectedFeeds _) as [st2 [p|e]];
      destruct Hrun as (q3 & -> & _); exact Hrep.
  - intros config article articles stats Hstart Hload Hfetch Hstore Hstats Hwrite.
    destruct (mapM (storeArticle world) (article :: articles)) as [stored|] eqn:Hstored;
      [clear Hstore|done].
    destruct (startable_begins (FetchWorkflow selectedFeeds) "fetchWorkflow" _ _ Hstart)
      as [q1 Hq1].
    rewrite Hq1 in Hrun.
    destruct (fetchWorkflow_resolves (task_of taskId st) cb selectedFeeds config article
                articles stored stats (mkState q1 (reports st))
                Hload Hfetch Hstored Hstats Hwrite)
      as (st2 & w & report & Hexec & _ & Hdata & Hzero & Hcount & Hreports).
    cbv beta in Hrun. rewrite Hexec in Hrun. destruct Hrun as (q3 & -> & Hstatus & _).
    exists report. simpl. rewrite Hdata. by repeat split.
  - intros config Hstart Hload Hfetch.
    destruct (startable_begins (FetchWorkflow selectedFeeds) "fetchWorkflow" _ _ Hstart)
      as [q1 Hq1].
    rewrite Hq1 in Hrun. cbv beta in Hrun.
    unfold fetchWorkflow in Hrun at 1.
    rewrite and_then_progress, (and_then_await _ _ _ _ _ _ Hload),
      and_then_progress, (and_then_await _ _ _ _ _ _ Hfetch), and_then_progress in Hrun.
    unfold resolve in Hrun. destruct Hrun as (q3 & -> & Hstatus & _).
    repeat (split; [done|]). split; [|done]. cbn [fst reports].
    by repeat first [rewrite reports_await | rewrite reports_progress].
Qed.

(** C7: when the fetch step of the full pipeline returns no item, the
    workflow returns a result whose [success] is false and whose message
    is "没有抓取到任何文章" (no article was fetched), the task ends
    COMPLETED with that result, and no report is persisted. *)
Theorem C7_nothing_fetched_completes blogCount options cb taskId st config :
  startable taskId st ->
  loadConfig world = Return config ->
  fetchRSSFeeds world (rssFeeds config) = Return [] ->
  exists st' w,
    executeFullWorkflow world blogCount options cb taskId st = (st', Some (TheResult w))
    /\ result_success w = false
    /\ message w = "没有抓取到任何文章"
    /\ data w = NoData
    /\ TaskQueue.getTaskStatus (task_of taskId st) (registry st') = Some TaskQueue.COMPLETED
    /\ TaskQueue.result <$> TaskQueue.getTask (task_of taskId st) (registry st')
       = Some (Some (TheResult w))
    /\ reports st' = reports st.
Proof.
  intros Hstart Hload Hfetch.
  destruct (startable_begins (FullWorkflow blogCount options) "fullWorkflow" _ _ Hstart)
    as [q1 Hq1].
  pose proof (run_spec "工作流执行失败" (FullWorkflow blogCount options) "fullWorkflow"
                (fun id => fullWorkflow world id cb blogCount options) taskId st
                (fun id => keeps_live_fullWorkflow id cb blogCount options)) as Hrun.
  cbv zeta in Hrun. rewrite Hq1 in Hrun. cbv beta in Hrun.
  unfold fullWorkflow in Hrun at 1.
  rewrite and_then_progress, (and_then_await _ _ _ _ _ _ Hload),
    and_then_progress, (and_then_await _ _ _ _ _ _ Hfetch) in Hrun.
  unfold resolve in Hrun. destruct Hrun as (q3 & Hrun & Hstatus & Hresult).
  eexists _, _. split; [exact Hrun|].
  repeat (split; [done|]).
  cbn [reports]. by repeat first [rewrite reports_await | rewrite reports_progress].
Qed.

End Run.

Lemma C7_nothing_fetched_completes_witness :
  exists st' w,
    executeFullWorkflow (B := Examples.no_numerals) Examples.silent_world 1
      Examples.no_options None None Examples.fresh = (st', Some (TheResult w))
    /\ result_success w = false
    /\ message w = "没有抓取到任何文章"
    /\ TaskQueue.getTaskStatus "task_1" (registry st') = Some TaskQueue.COMPLETED.
Proof.
  destruct (C7_nothing_fetched_completes (B := Examples.no_numerals) Examples.silent_world 1
              Examples.no_options None None Examples.fresh Examples.example_config)
    as (st' & w & Hrun & Hs & Hm & _ & Hc & _); [exact I | reflexivity | reflexivity |].
  exists st', w. repeat split; assumption.
Defined.

(** The example of the specification: three articles are asked for and
    the analysis of the second iteration throws. *)
Lemma C2_failed_iterations_are_skipped_witness :
  exists st' report,
    executeFullWorkflow (B := Examples.no_numerals) Examples.busy_world 3
      Examples.no_options None None Examples.fresh = (st', Some (TheReport report))
    /\ TaskQueue.getTaskStatus "task_1" (registry st') = Some TaskQueue.COMPLETED
    /\ generatedBlogs report = 2%nat.
Proof.
  destruct (C2_failed_iterations_are_skipped (B := Examples.no_numerals) Examples.busy_world 3
              Examples.no_options None None Examples.fresh Examples.example_config
              Examples.an_article [] Examples.example_stats
              (JObj defaultStrategyConfig))
    as (st' & report & Hrun & Hstatus & Hcount & _);
    [exact I | reflexivity | reflexivity | discriminate | reflexivity | reflexivity
    | exact I | reflexivity | reflexivity |].
  exists st', report. split; [exact Hrun|]. split; [exact Hstatus|].
  rewrite Hcount. vm_compute. reflexivity.
Defined.

(** C6 as the specification words it fails: a run that fetches nothing
    has no report, hence no generated count to be 0. *)
Lemma C6_counterexample :
  ~ exists report,
      report_of (executeFetchWorkflow Examples.silent_world []
                   None None Examples.fresh).2 = Some report
      /\ generatedBlogs report = 0%nat.
Proof. intros (report & Hreport & _). vm_compute in Hreport. discriminate. Qed.

Lemma C6_fetch_reports_count_nothing_witness :
  (exists report,
     report_of (executeFetchWorkflow Examples.busy_world []
                  None None Examples.fresh).2 = Some report
     /\ generatedBlogs report = 0%nat
     /\ articlesFetched report = Some 1%nat)
  /\ report_of (executeFetchWorkflow Examples.silent_world []
                  None None Examples.fresh).2 = None.
Proof.
  destruct (C6_fetch_reports_count_nothing Examples.busy_world []
              None None Examples.fresh) as (_ & _ & Hsome & _).
  destruct (C6_fetch_reports_count_nothing Examples.silent_world []
              None None Examples.fresh) as (_ & _ & _ & Hnone).
  split.
  - destruct (Hsome Examples.example_config Examples.an_article [] Examples.example_stats)
      as (report & Hr & Hzero & Hcount & _);
      [exact I | reflexivity | reflexivity | reflexivity | reflexivity | reflexivity |].
    exists report. repeat split; assumption.
  - destruct (Hnone Examples.example_config) as (_ & Hr & _);
      [exact I | reflexivity | reflexivity |]. exact Hr.
Defined.

End WorkflowFacts.

(** ** The registry under all its calls *)

Module RegistryFacts.
Import TaskQueue RegistryCalls TaskQueueFacts.

Section Registry.
Context {Options Result : Type}.
Implicit Types (q : TaskQueue Options Result) (t : Task Options Result)
               (s : System Options Result) (c : Call Options Result).

Lemma call_all_app cs cs' s : call_all (cs ++ cs')%list s = call_all cs' (call_all cs s).
Proof. apply foldl_app. Qed.

Lemma reachable_initial : reachable (initial : System Options Result).
Proof. by exists []. Qed.

Lemma reachable_call c s : reachable s -> reachable (call c s).
Proof. intros [cs ->]. exists (cs ++ [c])%list. by rewrite call_all_app. Qed.

(** A property of the fresh registry that every call preserves holds in
    every reachable state. *)
Lemma reachable_ind (P : System Options Result -> Prop) :
  P initial -> (forall c s, reachable s -> P s -> P (call c s)) ->
  forall s, reachable s -> P s.
Proof.
  intros H0 Hstep s [cs ->].
  induction cs as [|c cs IH] using rev_ind; [done|].
  rewrite call_all_app. simpl. apply Hstep; [by exists cs | done].
Qed.

Lemma status_cleanupTasks maxAge now q taskId :
  getTaskStatus taskId (cleanupTasks maxAge now q) =
    match tasks q !! taskId with
    | Some t => if expired maxAge now t then None else Some (status t)
    | None => None
    end.
Proof.
  unfold getTaskStatus. rewrite cleanupTasks_lookup.
  destruct (tasks q !! taskId) as [t|]; [|done]. by destruct (expired maxAge now t).
Qed.

Lemma well_formed_call c s : well_formed s -> well_formed (call c s).
Proof.
  destruct c as [op|maxAge now]; [apply well_formed_perform|].
  intros [Hids Hrun]. split; cbn [call queue running].
  - intros k t. rewrite cleanupTasks_lookup.
    destruct (tasks (queue s) !! k) as [t'|] eqn:Hl; [|done].
    destruct (expired maxAge now t'); [done|]. intros _. by apply (Hids k t').
  - intros k Hk. rewrite status_cleanupTasks.
    specialize (Hrun k Hk). unfold getTaskStatus in Hrun.
    destruct (tasks (queue s) !! k) as [t|] eqn:Hl; simpl in Hrun; [|by destruct Hrun].
    destruct (expired maxAge now t) eqn:He.
    + apply expired_spec in He as [[He|He] _]; rewrite He in Hrun; by destruct Hrun.
    + done.
Qed.

Lemma reachable_well_formed s : reachable s -> well_formed s.
Proof.
  revert s. apply reachable_ind; [apply well_formed_initial|].
  intros c s _. apply well_formed_call.
Qed.

(** *** Status changes under every call *)

Lemma status_change_perform op s taskId a b :
  well_formed s ->
  getTaskStatus taskId (queue s) = Some a ->
  getTaskStatus taskId (queue (perform op s)) = Some b ->
  a = b \/ step_of_code a b = true.
Proof.
  intros Hwf Ha Hb.
  destruct op; cbn [perform queue] in Hb.
  - rewrite status_createTask, decide_False in Hb; [left; congruence|].
    apply known_task_name; eauto.
  - destruct (startTask_begin now taskId0 (queue s)) as [q'|e] eqn:Hs;
      [|left; congruence].
    destruct (status_startTask_begin _ _ _ _ taskId Hs) as [Hp Hq]. cbn [queue] in Hb.
    rewrite Hq in Hb. destruct (decide _) as [->|]; [|left; congruence].
    right. by simplify_eq.
  - case_bool_decide as Hin; [|left; congruence]. cbn [queue] in Hb.
    rewrite status_startTask_settle in Hb.
    destruct (decide _) as [->|]; [|left; congruence].
    destruct Hwf as [_ Hrun]. rewrite Ha in Hb. simpl in Hb.
    destruct (Hrun _ Hin) as [Hr|Hr]; rewrite Ha in Hr;
      right; destruct outcome; by simplify_eq.
  - rewrite status_cancelTask in Hb.
    destruct (decide _) as [[-> Hp]|]; [|left; congruence].
    right. by simplify_eq.
  - rewrite status_updateProgress in Hb. left; congruence.
Qed.

Lemma status_kept_perform op s taskId :
  is_Some (getTaskStatus taskId (queue s)) ->
  is_Some (getTaskStatus taskId (queue (perform op s))).
Proof.
  intros [a Ha]. destruct op; cbn [perform queue].
  - rewrite status_createTask. destruct (decide _); eauto.
  - destruct (startTask_begin now taskId0 (queue s)) as [q'|e] eqn:Hs; [|eauto].
    cbn [queue]. destruct (status_startTask_begin _ _ _ _ taskId Hs) as [_ ->].
    destruct (decide _); eauto.
  - case_bool_decide; [|eauto]. cbn [queue]. rewrite status_startTask_settle.
    destruct (decide _); [|eauto]. rewrite Ha. simpl. eauto.
  - rewrite status_cancelTask. destruct (decide _); eauto.
  - rewrite status_updateProgress. eauto.
Qed.

Lemma status_new_perform op s taskId b :
  getTaskStatus taskId (queue s) = None ->
  getTaskStatus taskId (queue (perform op s)) = Some b ->
  b = PENDING /\ exists type options, op = CreateTask type options.
Proof.
  intros Ha Hb. destruct op; cbn [perform queue] in Hb.
  - rewrite status_createTask in Hb. destruct (decide _); [|congruence].
    split; [congruence|eauto].
  - destruct (startTask_begin now taskId0 (queue s)) as [q'|e] eqn:Hs; [|congruence].
    destruct (status_startTask_begin _ _ _ _ taskId Hs) as [Hp Hq]. cbn [queue] in Hb.
    rewrite Hq in Hb. destruct (decide _) as [->|]; congruence.
  - case_bool_decide; [|congruence]. cbn [queue] in Hb.
    rewrite status_startTask_settle in Hb.
    destruct (decide _); [|congruence]. by rewrite Ha in Hb.
  - rewrite status_cancelTask in Hb.
    destruct (decide _) as [[-> Hp]|]; congruence.
  - rewrite status_updateProgress in Hb. congruence.
Qed.

(** In every state that calls on a fresh registry lead to, and as long as
    the id counter has not passed [Number.MAX_SAFE_INTEGER] (up to which
    the increment of the code is exact and no id is issued twice), one
    more call of any method does one of four things to a task: it leaves
    its status as it is; it moves it along PENDING -> IN_PROGRESS,
    IN_PROGRESS -> COMPLETED, FAILED or CANCELLED, or from CANCELLED to
    COMPLETED or FAILED (the executor of a cancelled task settles); it
    removes it, which only [cleanupTasks] does and only when the task is
    COMPLETED or FAILED; or it creates it, which only [createTask] does, in
    status PENDING. *)
Theorem status_changes_of_call s c taskId :
  reachable s -> (nextTaskId (queue s) <= MAX_SAFE_INTEGER)%N ->
  match getTaskStatus taskId (queue s), getTaskStatus taskId (queue (call c s)) with
  | Some a, Some b => a = b \/ step_of_code a b = true
  | Some a, None =>
      (a = COMPLETED \/ a = FAILED) /\ exists maxAge now, c = CleanupTasks maxAge now
  | None, Some b =>
      b = PENDING /\ exists type options, c = Operate (CreateTask type options)
  | None, None => True
  end.
Proof.
  intros Hwf%reachable_well_formed _.
  destruct c as [op|maxAge now]; cbn [call].
  - destruct (getTaskStatus taskId (queue s)) as [a|] eqn:Ha.
    + destruct (status_kept_perform op s taskId) as [b Hb]; [by rewrite Ha|].
      rewrite Hb. by apply (status_change_perform op s taskId).
    + destruct (getTaskStatus taskId (queue (perform op s))) as [b|] eqn:Hb; [|done].
      destruct (status_new_perform op s taskId b Ha Hb) as (-> & type & options & ->).
      split; [done|eauto].
  - cbn [queue]. rewrite status_cleanupTasks. unfold getTaskStatus.
    destruct (tasks (queue s) !! taskId) as [t|]; simpl; [|done].
    destruct (expired maxAge now t) eqn:He; [|by left].
    apply expired_spec in He as [He _]. split; [done|eauto].
Qed.

(** *** The fields of the task records *)

Lemma upsert_step_names name msg now (l : list Step) :
  map step (upsert_step name msg now l)
  = if decide (name ∈ map step l) then map step l else (map step l ++ [name])%list.
Proof.
  induction l as [|x l IH]; [done|]. cbn [upsert_step map].
  destruct (String.eqb (step x) name) eqn:Hx.
  - apply String.eqb_eq in Hx. cbn [map step]. rewrite decide_True; [done|]. subst. by left.
  - apply String.eqb_neq in Hx. cbn [map]. rewrite IH.
    destruct (decide (name ∈ map step l)) as [Hin|Hin].
    + rewrite decide_True; [done|]. by right.
    + rewrite decide_False; [done|]. by intros [?|?]%elem_of_cons.
Qed.

Lemma upsert_step_NoDup name msg now (l : list Step) :
  NoDup (map step l) -> NoDup (map step (upsert_step name msg now l)).
Proof.
  intros Hl. rewrite upsert_step_names. destruct (decide _) as [|Hin]; [done|].
  apply NoDup_app. split; [done|]. split; [|apply NoDup_singleton].
  intros x Hx ->%list_elem_of_singleton. done.
Qed.

Lemma clamp_range percent : 0 <= clamp percent <= 100.
Proof. unfold clamp. lia. Qed.

Lemma tasks_update k f q key :
  tasks (update k f q) !! key = if decide (k = key) then f <$> tasks q !! k else tasks q !! key.
Proof. unfold update; simpl. apply lookup_alter. Qed.

Lemma consistent_set_started now key t :
  consistent key t -> status t = PENDING -> consistent key (set_started now t).
Proof.
  intros (Hid & Hp & Hn & Hs) Hst. rewrite Hst in Hs.
  destruct Hs as (_ & _ & _ & He & Hd & Hr & Hx).
  repeat split; simpl; try done; try lia.
Qed.

Lemma consistent_set_completed now r key t :
  consistent key t -> status t = IN_PROGRESS \/ status t = CANCELLED ->
  consistent key (set_completed now r t).
Proof.
  intros (Hid & Hp & Hn & Hs) Hst.
  assert (is_Some (startTime t) /\ error t = None) as [[s0 Hs0] Hx].
  { destruct Hst as [Hst|Hst]; rewrite Hst in Hs; by destruct Hs as (? & _ & _ & _ & ?). }
  unfold consistent. simpl. split; [done|]. split; [lia|]. split; [done|].
  split; [done|]. split; [by eexists|]. split; [done|].
  exists s0, now. simpl. unfold elapsed. by rewrite Hs0.
Qed.

Lemma consistent_set_failed now e key t :
  consistent key t -> status t = IN_PROGRESS \/ status t = CANCELLED ->
  consistent key (set_failed now e t).
Proof.
  intros (Hid & Hp & Hn & Hs) Hst.
  assert (is_Some (startTime t) /\ result t = None) as [[s0 Hs0] Hx].
  { destruct Hst as [Hst|Hst]; rewrite Hst in Hs; by destruct Hs as (? & _ & _ & ? & _). }
  unfold consistent. simpl. split; [done|]. split; [done|]. split; [done|].
  split; [by eexists|]. split; [done|].
  exists s0, now. simpl. unfold elapsed. by rewrite Hs0.
Qed.

Lemma consistent_set_cancelled key t :
  consistent key t -> status t = IN_PROGRESS -> consistent key (set_cancelled t).
Proof.
  intros (Hid & Hp & Hn & Hs) Hst. rewrite Hst in Hs.
  unfold consistent. simpl. by repeat (split; [done|]).
Qed.

Lemma consistent_set_progress now percent name msg key t :
  consistent key t -> status t = IN_PROGRESS ->
  consistent key (set_progress now percent name msg t).
Proof.
  intros (Hid & Hp & Hn & Hs) Hst. rewrite Hst in Hs.
  pose proof (clamp_range percent).
  split; [done|]. split; [done|]. split.
  - simpl. destruct (String.eqb name ""); [done|]. by apply upsert_step_NoDup.
  - simpl. by rewrite Hst.
Qed.

Lemma has_status_lookup st k q :
  has_status st k q = true -> exists t, tasks q !! k = Some t /\ status t = st.
Proof.
  unfold has_status. destruct (tasks q !! k) as [t|]; [|done].
  intros H%bool_decide_eq_true. eauto.
Qed.

Lemma consistent_call c s :
  well_formed s ->
  (forall key t, tasks (queue s) !! key = Some t -> consistent key t) ->
  forall key t, tasks (queue (call c s)) !! key = Some t -> consistent key t.
Proof.
  intros [_ Hrun] Hc key t.
  destruct c as [[type options|now taskId|now taskId outcome|taskId
                 |now taskId percent name msg]|maxAge now]; cbn [call perform queue].
  - unfold createTask; simpl. rewrite lookup_insert.
    destruct (decide _) as [<-|]; [|apply Hc].
    intros [= <-]. repeat split; simpl; try done. apply NoDup_nil_2.
  - unfold startTask_begin.
    destruct (tasks (queue s) !! taskId) as [t0|] eqn:Hl; [|apply Hc].
    case_bool_decide as Hst; [apply Hc|].
    cbn [queue emit tasks]. rewrite tasks_update.
    destruct (decide _) as [<-|]; [|apply Hc]. rewrite Hl. intros [= <-].
    apply consistent_set_started; [by apply Hc|done].
  - case_bool_decide as Hin; [|apply Hc].
    assert (exists t0, tasks (queue s) !! taskId = Some t0
                       /\ (status t0 = IN_PROGRESS \/ status t0 = CANCELLED))
      as (t0 & Hl & Hst).
    { specialize (Hrun _ Hin). unfold getTaskStatus in Hrun.
      destruct (tasks (queue s) !! taskId) as [t0|]; simpl in Hrun;
        [|by destruct Hrun].
      exists t0. split; [done|]. destruct Hrun as [[= ->]|[= ->]]; eauto. }
    destruct outcome as [r|e]; cbn [startTask_settle fst queue emit tasks];
      rewrite tasks_update; (destruct (decide _) as [<-|]; [|apply Hc]);
      rewrite Hl; intros [= <-].
    + apply consistent_set_completed; [by apply Hc|done].
    + apply consistent_set_failed; [by apply Hc|done].
  - unfold cancelTask. destruct (has_status _ _ _) eqn:Hh; [|apply Hc].
    apply has_status_lookup in Hh as (t0 & Hl & Hst).
    cbn [emit tasks]. rewrite tasks_update.
    destruct (decide _) as [<-|]; [|apply Hc]. rewrite Hl. intros [= <-].
    apply consistent_set_cancelled; [by apply Hc|done].
  - unfold updateProgress. destruct (has_status _ _ _) eqn:Hh; [|apply Hc].
    apply has_status_lookup in Hh as (t0 & Hl & Hst).
    cbn [emit tasks]. rewrite tasks_update.
    destruct (decide _) as [<-|]; [|apply Hc]. rewrite Hl. intros [= <-].
    apply consistent_set_progress; [by apply Hc|done].
  - rewrite cleanupTasks_lookup.
    destruct (tasks (queue s) !! key) as [t0|] eqn:Hl; [|done].
    destruct (expired maxAge now t0); [done|]. intros [= <-]. by apply Hc.
Qed.

(** In every state that calls on a fresh registry lead to, each task
    record agrees with the key it is stored under and with its status: its
    [id] is its key, its progress lies between 0 and 100, no two of its
    steps have the same name; a PENDING task has no step, no times, no
    result and no error; a task that is IN_PROGRESS or CANCELLED has a
    start time and neither end time, duration, result nor error (cancelling
    records no end time); a COMPLETED task has progress 100 and a result, a
    FAILED one has an error, and both have their end time set and a
    duration that is the difference of end and start time. *)
Theorem task_records_consistent s key t :
  reachable s -> tasks (queue s) !! key = Some t -> consistent key t.
Proof.
  intros Hr. revert key t. pattern s. revert s Hr. apply reachable_ind.
  - intros key t. simpl. by rewrite lookup_empty.
  - intros c s Hr IH. apply consistent_call; [by apply reachable_well_formed|done].
Qed.

(** *** Events: a task is started at most once *)

Lemma emitted_emit event taskId event' taskId' q :
  emitted event taskId (emit event' taskId' q)
  = (emitted event taskId q
     + if decide ((event', taskId') = (event, taskId)) then 1 else 0)%nat.
Proof.
  unfold emitted, emit; simpl. rewrite filter_app, length_app. f_equal.
  cbn [filter list_filter]. by destruct (decide _).
Qed.

Lemma emitted_update event taskId k f q :
  emitted event taskId (update k f q) = emitted event taskId q.
Proof. done. Qed.

Lemma events_emit event taskId q e :
  e ∈ events (emit event taskId q) <-> e ∈ events q \/ e = (event, taskId).
Proof. unfold emit; simpl. by rewrite elem_of_app, list_elem_of_singleton. Qed.

Lemma emitted_none event taskId q :
  (forall e, e ∈ events q -> e.2 <> taskId) -> emitted event taskId q = 0%nat.
Proof.
  unfold emitted. induction (events q) as [|e l IH]; intros H; [done|].
  rewrite filter_cons_False.
  - apply IH. intros e' He'. apply H. by right.
  - intros ->. apply (H (event, taskId)); [by left|done].
Qed.

Lemma started_once_call c s :
  well_formed s -> started_once s -> started_once (call c s).
Proof.
  intros [Hids Hrun] [Hev Hst].
  destruct c as [[type options|now taskId|now taskId outcome|taskId
                 |now taskId percent name msg]|maxAge now]; cbn [call perform].
  - split; cbn [queue].
    + intros event k [Hin| [= -> ->]]%events_emit.
      * destruct (Hev _ _ Hin) as (n & -> & Hn). exists n. split; [done|]. simpl. lia.
      * exists (nextTaskId (queue s)). split; [done|]. simpl. lia.
    + intros k. unfold createTask. cbn [snd]. rewrite emitted_emit.
      rewrite decide_False by discriminate. rewrite Nat.add_0_r.
      change (emitted "taskStarted" k (mkQueue _ _ (events (queue s))))
        with (emitted "taskStarted" k (queue s)).
      split; [apply Hst|].
      intros Hk.
      change (getTaskStatus k (emit "taskCreated" (task_name (nextTaskId (queue s)))
                (mkQueue (<[task_name (nextTaskId (queue s)) :=
                   mkTask (task_name (nextTaskId (queue s))) type PENDING 0 None None None
                          options None None []]> (tasks (queue s)))
                   (nextTaskId (queue s) + 1)%N (events (queue s)))))
        with (getTaskStatus k (createTask type options (queue s)).2) in Hk.
      rewrite status_createTask in Hk. destruct (decide _) as [<-|]; [|by apply Hst].
      apply emitted_none. intros [ev k'] Hin Heq. simpl in Heq. subst k'.
      destruct (Hev _ _ Hin) as (n & Hn%task_name_inj & Hlt). lia.
  - destruct (startTask_begin now taskId (queue s)) as [q'|e] eqn:Hb; [|done].
    pose proof (fun k => status_startTask_begin _ _ _ _ k Hb) as Hq.
    unfold startTask_begin in Hb.
    destruct (tasks (queue s) !! taskId) as [t0|] eqn:Hl; [|done].
    case_bool_decide; [done|]. injection Hb as <-.
    split; cbn [queue].
    + intros event k [Hin| [= -> ->]]%events_emit; [by apply (Hev event)|].
      by apply (Hids _ t0).
    + intros k. destruct (Hq k) as [Hp Hk]. rewrite Hk.
      rewrite emitted_emit, emitted_update.
      destruct (Hst k) as [Hle Hzero].
      destruct (decide (taskId = k)) as [->|Hne].
      * rewrite decide_True by done. rewrite (Hzero Hp). split; [lia|done].
      * rewrite decide_False by congruence. rewrite Nat.add_0_r. by split.
  - case_bool_decide as Hin; [|done]. split; cbn [queue].
    + destruct outcome; cbn [startTask_settle fst];
        intros event k [Hk| [= -> ->]]%events_emit; try by apply (Hev event).
      all: destruct (Hrun _ Hin) as [Hr|Hr]; unfold getTaskStatus in Hr;
        destruct (tasks (queue s) !! taskId) as [t0|] eqn:Hl; try done;
        by apply (Hids _ t0).
    + intros k. rewrite status_startTask_settle.
      assert (emitted "taskStarted" k (startTask_settle now taskId outcome (queue s)).1
              = emitted "taskStarted" k (queue s)) as ->.
      { destruct outcome; cbn [startTask_settle fst];
          rewrite emitted_emit, emitted_update, decide_False by discriminate; lia. }
      split; [apply Hst|].
      destruct (decide _) as [->|]; [|apply Hst].
      destruct (getTaskStatus k (queue s)); simpl; [|done]. by destruct outcome.
  - split; cbn [queue].
    + unfold cancelTask. destruct (has_status _ _ _) eqn:Hh; [|done].
      apply has_status_lookup in Hh as (t0 & Hl & _).
      intros event k [Hk| [= -> ->]]%events_emit; [by apply (Hev event)|].
      by apply (Hids _ t0).
    + intros k. rewrite status_cancelTask.
      assert (emitted "taskStarted" k (cancelTask taskId (queue s))
              = emitted "taskStarted" k (queue s)) as ->.
      { unfold cancelTask. destruct (has_status _ _ _); [|done].
        rewrite emitted_emit, emitted_update, decide_False by discriminate. lia. }
      split; [apply Hst|]. destruct (decide _); [done|apply Hst].
  - split; cbn [queue].
    + unfold updateProgress. destruct (has_status _ _ _) eqn:Hh; [|done].
      apply has_status_lookup in Hh as (t0 & Hl & _).
      intros event k [Hk| [= -> ->]]%events_emit; [by apply (Hev event)|].
      by apply (Hids _ t0).
    + intros k. rewrite status_updateProgress.
      assert (emitted "taskStarted" k (updateProgress now taskId percent name msg (queue s))
              = emitted "taskStarted" k (queue s)) as ->.
      { unfold updateProgress. destruct (has_status _ _ _); [|done].
        rewrite emitted_emit, emitted_update, decide_False by discriminate. lia. }
      apply Hst.
  - split; cbn [queue]; [done|].
    intros k. change (emitted "taskStarted" k (cleanupTasks maxAge now (queue s)))
      with (emitted "taskStarted" k (queue s)).
    split; [apply Hst|]. rewrite status_cleanupTasks. intros Hk. apply Hst.
    unfold getTaskStatus. destruct (tasks (queue s) !! k) as [t0|]; [|done].
    by destruct (expired maxAge now t0).
Qed.

Lemma reachable_started_once s : reachable s -> started_once s.
Proof.
  revert s. apply reachable_ind.
  - split; [intros event taskId; simpl; by intros ?%elem_of_nil|].
    intros taskId. split; [unfold emitted; simpl; lia|done].
  - intros c s Hr. apply started_once_call. by apply reachable_well_formed.
Qed.

(** In every state that calls on a fresh registry lead to, and as long as
    the id counter has not passed [Number.MAX_SAFE_INTEGER] (up to which
    no id is issued twice), the event [taskStarted] has been emitted at
    most once for each task, and not at all for a task that is still
    PENDING: the executor of a task is never called a second time,
    whatever calls are made in between. *)
Theorem task_started_at_most_once s taskId :
  reachable s -> (nextTaskId (queue s) <= MAX_SAFE_INTEGER)%N ->
  (emitted "taskStarted" taskId (queue s) <= 1)%nat
  /\ (getTaskStatus taskId (queue s) = Some PENDING ->
      emitted "taskStarted" taskId (queue s) = 0%nat).
Proof. intros [_ H]%reachable_started_once _. apply H. Qed.

(** *** [createTask] *)

(** In every state that calls on a fresh registry lead to, and as long as
    the id counter has not passed [Number.MAX_SAFE_INTEGER] (up to which
    the increment of the code is exact), [createTask] returns an id that
    is not in use and that no event has ever mentioned, so that the id of
    a task removed by [cleanupTasks] is not issued again; it stores under
    it a PENDING task with progress 0, no step and the type and options
    given, leaves every other task as it is, and emits [taskCreated]. *)
Theorem createTask_fresh s type options :
  reachable s -> (nextTaskId (queue s) <= MAX_SAFE_INTEGER)%N ->
  let taskId := (createTask type options (queue s)).1 in
  let q' := (createTask type options (queue s)).2 in
  tasks (queue s) !! taskId = None
  /\ (forall event, (event, taskId) ∉ events (queue s))
  /\ tasks q' !! taskId
     = Some (mkTask taskId type PENDING 0 None None None options None None [])
  /\ (forall k, k <> taskId -> tasks q' !! k = tasks (queue s) !! k)
  /\ size (tasks q') = S (size (tasks (queue s)))
  /\ events q' = (events (queue s) ++ [("taskCreated", taskId)])%list
  /\ nextTaskId q' = (nextTaskId (queue s) + 1)%N.
Proof.
  intros Hr _. pose proof (reachable_well_formed s Hr) as [Hids _].
  pose proof (reachable_started_once s Hr) as [Hev _].
  assert (tasks (queue s) !! task_name (nextTaskId (queue s)) = None) as Hnew.
  { destruct (tasks (queue s) !! _) as [t|] eqn:Hl; [|done].
    destruct (Hids _ _ Hl) as (n & Hn%task_name_inj & Hlt). lia. }
  cbn [createTask fst snd emit tasks events nextTaskId].
  split; [done|]. split.
  { intros event Hin. destruct (Hev _ _ Hin) as (n & Hn%task_name_inj & Hlt). lia. }
  split; [by rewrite lookup_insert_eq|]. split.
  { intros k Hk. by rewrite lookup_insert_ne. }
  split; [by rewrite map_size_insert_None|done].
Qed.

(** *** [updateProgress] and [cancelTask] *)

Lemma upsert_step_named name msg now (l : list Step) x :
  NoDup (map step l) -> x ∈ upsert_step name msg now l -> step x = name ->
  x = mkStep name msg now.
Proof.
  induction l as [|y l IH]; cbn [upsert_step map].
  - by intros _ ->%list_elem_of_singleton.
  - intros [Hy Hl]%NoDup_cons. destruct (String.eqb (step y) name) eqn:Hyn.
    + apply String.eqb_eq in Hyn. intros [->|Hx]%elem_of_cons Hn; [by rewrite Hyn|].
      exfalso. apply Hy. rewrite Hyn, <- Hn. by apply list_elem_of_fmap_2.
    + apply String.eqb_neq in Hyn. intros [->|Hx]%elem_of_cons Hn; [done|by apply IH].
Qed.

Lemma upsert_step_others name msg now (l : list Step) x :
  step x <> name -> x ∈ upsert_step name msg now l <-> x ∈ l.
Proof.
  intros Hx. induction l as [|y l IH]; cbn [upsert_step].
  - rewrite list_elem_of_singleton. split; [by intros ->|by intros ?%elem_of_nil].
  - destruct (String.eqb (step y) name) eqn:Hyn.
    + apply String.eqb_eq in Hyn. rewrite !elem_of_cons.
      split; (intros [->|?]; [|by right]).
      * done.
      * by left.
    + by rewrite !elem_of_cons, IH.
Qed.

(** [updateProgress] for a task that is IN_PROGRESS, with a step name
    that is not empty: the progress becomes the percentage clamped to
    0..100; the step is recorded under its name, in the place of the entry
    of that name when there is one (no second entry is made), at the end of
    the list otherwise, with the message and the time of this call; the
    entries of other names, the status and the other tasks are left as
    they are. *)
Theorem updateProgress_records_step q taskId t now percent name msg :
  tasks q !! taskId = Some t -> status t = IN_PROGRESS -> name <> "" ->
  NoDup (map step (steps t)) ->
  let q' := updateProgress now taskId percent name msg q in
  exists t',
    tasks q' !! taskId = Some t'
    /\ status t' = IN_PROGRESS
    /\ progress t' = Z.max 0 (Z.min 100 percent)
    /\ map step (steps t')
       = (if decide (name ∈ map step (steps t)) then map step (steps t)
          else map step (steps t) ++ [name])%list
    /\ (forall x, x ∈ steps t' -> step x = name -> message x = msg /\ timestamp x = now)
    /\ (forall x, step x <> name -> x ∈ steps t' <-> x ∈ steps t)
    /\ (forall k, k <> taskId -> tasks q' !! k = tasks q !! k)
    /\ events q' = (events q ++ [("taskProgress", taskId)])%list.
Proof.
  intros Hl Hst Hname Hnd. cbn zeta. unfold updateProgress, has_status.
  rewrite Hl, bool_decide_eq_true_2 by done.
  cbn [emit tasks events update]. rewrite lookup_alter_eq, Hl.
  eexists. split; [reflexivity|]. cbn [set_progress status progress steps].
  apply String.eqb_neq in Hname. rewrite Hname.
  split; [done|]. split; [done|]. split; [apply upsert_step_names|]. split.
  { intros x Hx Hn. by rewrite (upsert_step_named _ _ _ _ _ Hnd Hx Hn). }
  split; [intros x Hx; by apply upsert_step_others|]. split; [|done].
  intros k Hk. by rewrite lookup_alter_ne.
Qed.

(** Calls for a task that is not IN_PROGRESS, be it unknown, PENDING or
    in a terminal status, are ignored: [cancelTask] and [updateProgress]
    change nothing and emit no event. In particular, once [cancelTask] has
    been called for a task, the progress that its executor goes on
    reporting is dropped, and a second [cancelTask] does nothing. *)
Theorem calls_after_cancel_are_ignored q taskId now percent name msg :
  (getTaskStatus taskId q <> Some IN_PROGRESS ->
     cancelTask taskId q = q /\ updateProgress now taskId percent name msg q = q)
  /\ cancelTask taskId (cancelTask taskId q) = cancelTask taskId q
  /\ updateProgress now taskId percent name msg (cancelTask taskId q) = cancelTask taskId q.
Proof.
  assert (forall q', getTaskStatus taskId q' <> Some IN_PROGRESS ->
            cancelTask taskId q' = q'
            /\ updateProgress now taskId percent name msg q' = q') as Hidle.
  { intros q' Hs. unfold cancelTask, updateProgress.
    destruct (has_status IN_PROGRESS taskId q') eqn:Hh; [|done].
    by apply has_status_true in Hh. }
  assert (getTaskStatus taskId (cancelTask taskId q) <> Some IN_PROGRESS) as Hc.
  { rewrite status_cancelTask. destruct (decide _) as [|Hn]; [done|].
    intros Hs. apply Hn. done. }
  split; [apply Hidle|]. split; by apply Hidle.
Qed.

(** *** [cleanupTasks] *)

Lemma cleanupTasks_tasks maxAge now q :
  tasks (cleanupTasks maxAge now q) = filter (fun entry => expired maxAge now entry.2 = false) (tasks q).
Proof.
  apply map_eq. intros k. rewrite cleanupTasks_lookup, map_lookup_filter.
  destruct (tasks q !! k) as [t|]; simpl; [|done].
  destruct (expired maxAge now t).
  - by rewrite option_guard_False.
  - by rewrite option_guard_True.
Qed.

(** [cleanupTasks] keeps exactly the tasks that are not both finished
    (COMPLETED or FAILED) and older than [maxAge]; calling it again with
    the same arguments at the same time removes nothing more; and the
    number of tasks never grows. *)
Theorem cleanupTasks_idempotent maxAge now q :
  tasks (cleanupTasks maxAge now q) = filter (fun entry => expired maxAge now entry.2 = false) (tasks q)
  /\ cleanupTasks maxAge now (cleanupTasks maxAge now q) = cleanupTasks maxAge now q
  /\ (size (tasks (cleanupTasks maxAge now q)) <= size (tasks q))%nat.
Proof.
  split; [apply cleanupTasks_tasks|]. split.
  - assert (tasks (cleanupTasks maxAge now (cleanupTasks maxAge now q))
            = tasks (cleanupTasks maxAge now q)) as H.
    { apply map_eq. intros k. rewrite !cleanupTasks_lookup.
      destruct (tasks q !! k) as [t|]; [|done].
      destruct (expired maxAge now t) eqn:He; [done|]. by rewrite He. }
    unfold cleanupTasks at 1. unfold cleanupTasks at 1 in H. cbn [tasks] in H.
    rewrite H. by destruct q.
  - rewrite cleanupTasks_tasks. apply map_subseteq_size, map_filter_subseteq.
Qed.

(** *** [getStats] *)

Lemma counted_partition (m : gmap string (Task Options Result)) :
  size m = (counted PENDING m + counted IN_PROGRESS m + counted COMPLETED m
            + counted FAILED m + counted CANCELLED m)%nat.
Proof.
  induction m as [|k t m Hk _ IH] using map_first_key_ind.
  - unfold counted. by rewrite !map_filter_empty, !map_size_empty.
  - rewrite map_size_insert_None, !counted_insert by done.
    destruct (status t); simpl;
      repeat (rewrite bool_decide_eq_false_2 by done);
      repeat (rewrite bool_decide_eq_true_2 by done); lia.
Qed.

(** For every registry [getStats] reports the exact number of tasks as
    [total] and the exact numbers of pending, completed, failed and
    cancelled tasks; [inProgress] is reported as 0 whatever the registry
    holds, so that the number of tasks in progress is the total minus the
    four other counters. *)
Theorem getStats_exact_counters q :
  getStats q !! "total" = Some (Js.num (Z.of_nat (size (tasks q))))
  /\ getStats q !! "pending" = Some (Js.num (Z.of_nat (tasks_in PENDING q)))
  /\ getStats q !! "completed" = Some (Js.num (Z.of_nat (tasks_in COMPLETED q)))
  /\ getStats q !! "failed" = Some (Js.num (Z.of_nat (tasks_in FAILED q)))
  /\ getStats q !! "cancelled" = Some (Js.num (Z.of_nat (tasks_in CANCELLED q)))
  /\ getStats q !! "inProgress" = Some (Js.num 0)
  /\ (tasks_in IN_PROGRESS q
      = size (tasks q) - tasks_in PENDING q - tasks_in COMPLETED q
        - tasks_in FAILED q - tasks_in CANCELLED q)%nat.
Proof.
  destruct (counting_loop (Js.num (Z.of_nat (size (tasks q)))) (tasks q))
    as (Ht & Hp & Hc & Hf & Hx & Hi & _).
  repeat (split; [done|]).
  unfold tasks_in. rewrite (counted_partition (tasks q)). lia.
Qed.

End Registry.

(** The theorems above at the session of [Scenarios]. *)

Lemma status_changes_of_call_witness :
  IN_PROGRESS = CANCELLED \/ step_of_code IN_PROGRESS CANCELLED = true.
Proof.
  apply (status_changes_of_call Scenarios.under_way (Operate (CancelTask "task_1")) "task_1").
  - exists Scenarios.opening. reflexivity.
  - vm_compute. discriminate.
Defined.

Lemma task_records_consistent_witness :
  consistent "task_1" Scenarios.finished_task.
Proof.
  apply (task_records_consistent Scenarios.over).
  - exists (Scenarios.opening ++ Scenarios.closing)%list. reflexivity.
  - vm_compute. reflexivity.
Defined.

Lemma task_started_at_most_once_witness :
  (emitted "taskStarted" "task_1" (queue Scenarios.over) <= 1)%nat.
Proof.
  apply (task_started_at_most_once Scenarios.over "task_1").
  - exists (Scenarios.opening ++ Scenarios.closing)%list. reflexivity.
  - vm_compute. discriminate.
Defined.

Lemma createTask_fresh_witness :
  tasks (queue Scenarios.over) !! "task_3" = None
  /\ (forall event, (event, "task_3") ∉ events (queue Scenarios.over)).
Proof.
  destruct (createTask_fresh Scenarios.over "fullWorkflow" tt) as (Hnew & Hevents & _).
  - exists (Scenarios.opening ++ Scenarios.closing)%list. reflexivity.
  - vm_compute. discriminate.
  - split; [exact Hnew | exact Hevents].
Defined.

Lemma updateProgress_records_step_witness :
  exists t',
    tasks (updateProgress 12 "task_1" 250 "抓取RSS" "完成" (queue Scenarios.under_way))
      !! "task_1" = Some t'
    /\ progress t' = 100
    /\ map step (steps t') = ["抓取RSS"].
Proof.
  destruct (updateProgress_records_step (queue Scenarios.under_way) "task_1"
              Scenarios.running_task 12 250 "抓取RSS" "完成")
    as (t' & Hl & _ & Hp & Hn & _).
  - vm_compute. reflexivity.
  - reflexivity.
  - discriminate.
  - vm_compute. apply NoDup_singleton.
  - exists t'. split; [exact Hl|]. split; [exact Hp | exact Hn].
Defined.

End RegistryFacts.

(** ** The workflows as a whole *)

Module WorkflowOutcomeFacts.
Import Js StrategyExecutor WorkflowManager WorkflowOutcomes WorkflowFacts.

Section Run.
Context {B : Builtins} (world : World).

(** *** Every run settles its task *)

Lemma settle_failed now id e (q : TaskQueue.TaskQueue TaskOptions Payload) :
  live id q ->
  exists task,
    TaskQueue.getTask id (TaskQueue.startTask_settle now id (Throw e) q).1 = Some task
    /\ TaskQueue.status task = TaskQueue.FAILED
    /\ TaskQueue.error task = Some e.
Proof.
  intros Hq. unfold TaskQueue.getTask. simpl. rewrite lookup_alter_eq.
  assert (is_Some (TaskQueue.tasks q !! id)) as [t Ht].
  { unfold live, TaskQueue.getTaskStatus in Hq.
    destruct (TaskQueue.tasks q !! id); [by eexists|]. by destruct Hq. }
  rewrite Ht. by eexists.
Qed.

(** What [run] does once [startTask] has accepted the task. *)
Lemma run_started failure options type executor taskId st q1 :
  (forall id, keeps_live id (executor id)) ->
  let id := task_of taskId st in
  TaskQueue.startTask_begin (clock world 0) id (task_for options type taskId st).2
    = Return q1 ->
  let out := run world failure options type executor taskId st in
  match executor id (mkState q1 (reports st)) with
  | (st2, Return payload) =>
      out.2 = Some payload
      /\ reports out.1 = reports st2
      /\ exists task,
           TaskQueue.getTask id (registry out.1) = Some task
           /\ TaskQueue.status task = TaskQueue.COMPLETED
           /\ TaskQueue.result task = Some payload
  | (st2, Throw e) =>
      out.2 = Some (TheResult (createWorkflowResult (clock world 7) false failure
                                                    (ErrorData e)))
      /\ reports out.1 = reports st2
      /\ exists task,
           TaskQueue.getTask id (registry out.1) = Some task
           /\ TaskQueue.status task = TaskQueue.FAILED
           /\ TaskQueue.error task = Some e
  end.
Proof.
  intros Hlive id. subst id. rewrite <- (task_for_id options type).
  unfold run. destruct (task_for options type taskId st) as [id q]. cbn [fst snd].
  intros Hb. rewrite Hb.
  assert (live id q1) as Hq1.
  { left. destruct (TaskQueueFacts.status_startTask_begin _ _ _ _ id Hb) as [_ ->].
    by rewrite decide_True. }
  pose proof (Hlive id (mkState q1 (reports st)) Hq1) as Hq2.
  destruct (executor id (mkState q1 (reports st))) as [st2 [payload|e]]; cbn [fst] in Hq2.
  - destruct (settle_completed (clock world 7) id payload _ Hq2) as (task & Ht & Hs & Hr).
    cbn [TaskQueue.startTask_settle]. cbv zeta.
    cbn [TaskQueue.startTask_settle fst] in Ht.
    rewrite Ht, Hs, Hr. cbn [fst snd registry reports]. split; [done|]. split; [done|].
    exists task. by rewrite Ht.
  - destruct (settle_failed (clock world 7) id e _ Hq2) as (task & Ht & Hs & He).
    cbn [TaskQueue.startTask_settle]. cbv zeta.
    cbn [TaskQueue.startTask_settle fst] in Ht.
    cbn [fst snd registry reports]. split; [done|]. split; [done|].
    exists task. by rewrite Ht.
Qed.

Lemma run_settles failure options type executor taskId st :
  (forall id, keeps_live id (executor id)) ->
  startable taskId st ->
  settled failure (task_of taskId st) (run world failure options type executor taskId st).
Proof.
  intros Hlive Hstart.
  destruct (startable_begins world options type _ _ Hstart) as [q1 Hq1].
  pose proof (run_started failure options type executor taskId st q1 Hlive Hq1) as Hrun.
  cbv zeta in Hrun.
  destruct (executor (task_of taskId st) (mkState q1 (reports st))) as [st2 [payload|e]].
  - destruct Hrun as (Hout & _ & task & Ht & Hs & Hr). left. by exists payload, task.
  - destruct Hrun as (Hout & _ & task & Ht & Hs & He). right.
    by exists e, (clock world 7), task.
Qed.

(** Whatever the collaborators answer and whenever a [cancelTask] comes
    in, a workflow whose task can be started (it is created by the
    workflow, or passed in and PENDING) leaves that task COMPLETED, with
    what the workflow returns as its result, or FAILED, with the error that
    the failure result returned carries. No run leaves its task PENDING,
    IN_PROGRESS or CANCELLED, and the error of the last branch of the
    status check ("状态异常") is never produced. *)
Theorem workflows_settle_their_task blogCount options selectedFeeds cb taskId st :
  startable taskId st ->
  settled "工作流执行失败" (task_of taskId st)
          (executeFullWorkflow world blogCount options cb taskId st)
  /\ settled "分析现有文章失败" (task_of taskId st)
             (analyzeExistingArticles world blogCount options cb taskId st)
  /\ settled "选择性抓取执行失败" (task_of taskId st)
             (executeFetchWorkflow world selectedFeeds cb taskId st).
Proof.
  intros Hstart. split; [|split]; apply run_settles; try done; intros id.
  - apply keeps_live_fullWorkflow.
  - apply keeps_live_analyzeWorkflow.
  - apply keeps_live_fetchWorkflow.
Qed.

(** *** A task that cannot be started *)

Lemma no_task_some id : id <> "" -> no_task (Some id) = false.
Proof. by destruct id. Qed.

Lemma run_refused failure options type executor id st :
  id <> "" ->
  TaskQueue.getTaskStatus id (registry st) <> Some TaskQueue.PENDING ->
  run world failure options type executor (Some id) st
  = (st, Some (TheResult (createWorkflowResult (clock world 0) false failure
         (ErrorData (refusal id (TaskQueue.getTaskStatus id (registry st))))))).
Proof.
  intros Hid Hs. unfold run, task_for. rewrite (no_task_some id Hid). cbn [default].
  unfold TaskQueue.getTaskStatus in *.
  destruct (TaskQueue.tasks (registry st) !! id) as [t|] eqn:Hl; simpl in Hs |- *.
  - rewrite (TaskQueueFacts.startTask_begin_not_pending _ _ _ t Hl) by congruence.
    by destruct st.
  - rewrite (TaskQueueFacts.startTask_begin_unknown _ _ _ Hl). by destruct st.
Qed.

(** A workflow that is handed the id of a task that the registry does not
    hold, or of a task that is not PENDING (it has been started before, for
    instance by an earlier call with the same id), does not run: it returns
    the failure result that carries the error of [startTask], and leaves
    the registry, the task and the reports as they were. *)
Theorem workflows_refuse_a_task_not_pending id st blogCount options selectedFeeds cb :
  id <> "" ->
  TaskQueue.getTaskStatus id (registry st) <> Some TaskQueue.PENDING ->
  let e := refusal id (TaskQueue.getTaskStatus id (registry st)) in
  executeFullWorkflow world blogCount options cb (Some id) st
    = (st, Some (TheResult (createWorkflowResult (clock world 0) false
                              "工作流执行失败" (ErrorData e))))
  /\ analyzeExistingArticles world blogCount options cb (Some id) st
     = (st, Some (TheResult (createWorkflowResult (clock world 0) false
                               "分析现有文章失败" (ErrorData e))))
  /\ executeFetchWorkflow world selectedFeeds cb (Some id) st
     = (st, Some (TheResult (createWorkflowResult (clock world 0) false
                               "选择性抓取执行失败" (ErrorData e)))).
Proof. intros Hid Hs. repeat split; by apply run_refused. Qed.

(** *** Errors outside the batch loop *)

Lemma run_fails failure options type executor taskId st e :
  (forall id, keeps_live id (executor id)) ->
  startable taskId st ->
  (forall id st0, (executor id st0).2 = Throw e
                  /\ reports (executor id st0).1 = reports st0) ->
  failed_with failure (clock world 7) e (task_of taskId st) st
              (run world failure options type executor taskId st).
Proof.
  intros Hlive Hstart Hexec.
  destruct (startable_begins world options type _ _ Hstart) as [q1 Hq1].
  pose proof (run_started failure options type executor taskId st q1 Hlive Hq1) as Hrun.
  cbv zeta in Hrun.
  destruct (Hexec (task_of taskId st) (mkState q1 (reports st))) as [Hthrow Hreports].
  destruct (executor (task_of taskId st) (mkState q1 (reports st))) as [st2 [payload|e']];
    cbn [fst snd] in Hthrow, Hreports; [done|].
  injection Hthrow as ->. destruct Hrun as (Hout & Hrep & task & Ht & Hs & He).
  split; [done|]. split; [by exists task|]. by rewrite Hrep, Hreports.
Qed.

Lemma executeStrategy_unavailable config count options model e :
  aiModel options = Some model -> model <> "" -> model <> "default" ->
  newAIClient (services world) model = Throw e ->
  executeStrategy (services world) config count options = Throw e.
Proof.
  intros Hm Hne Hnd Hc. unfold executeStrategy. rewrite Hm.
  apply String.eqb_neq in Hne, Hnd. by rewrite Hne, Hnd, Hc.
Qed.

Ltac step_through :=
  repeat first
    [ rewrite and_then_progress
    | rewrite and_then_returned
    | rewrite and_then_thrown
    | progress cbn [fst snd]
    | rewrite reports_await
    | rewrite reports_progress ].

(** An error outside the batch loop is not isolated as those of an
    iteration are: when the configuration cannot be loaded, the feeds
    cannot be fetched, one of the fetched articles cannot be stored, the
    client for the model asked for cannot be made, the statistics cannot be
    read or the report cannot be saved, the full workflow returns the
    failure result that carries that error and its task ends FAILED with
    it, in the last two cases although the loop has run. In every case but
    the last no report is persisted; when the saving itself throws, the
    report file may have been written already, and nothing is stated about
    it. *)
Theorem full_workflow_fails_outside_the_loop blogCount options cb taskId st e :
  startable taskId st ->
  let failed := failed_with "工作流执行失败" (clock world 7) e (task_of taskId st) st
                  (executeFullWorkflow world blogCount options cb taskId st) in
  let task_failed :=
    task_failed_with "工作流执行失败" (clock world 7) e (task_of taskId st)
      (executeFullWorkflow world blogCount options cb taskId st) in
  (loadConfig world = Throw e -> failed)
  /\ (forall config,
        loadConfig world = Return config ->
        fetchRSSFeeds world (rssFeeds config) = Throw e -> failed)
  /\ (forall config article articles,
        loadConfig world = Return config ->
        fetchRSSFeeds world (rssFeeds config) = Return (article :: articles) ->
        (mapM (storeArticle world) (article :: articles) = Throw e -> failed)
        /\ (forall stored model,
              mapM (storeArticle world) (article :: articles) = Return stored ->
              aiModel options = Some model -> model <> "" -> model <> "default" ->
              newAIClient (services world) model = Throw e -> failed)
        /\ (forall stored entries,
              mapM (storeArticle world) (article :: articles) = Return stored ->
              executeStrategy (services world) config blogCount options = Return entries ->
              (getArticleStats world = Throw e -> failed)
              /\ (forall report,
                    generateReport world (clock world 4) entries config (clock world 0)
                      = Return report ->
                    writeReport world report = Throw e -> task_failed))).
Proof.
  intros Hstart failed task_failed. subst failed task_failed.
  assert (forall ex : string -> Executor Payload,
            (forall id, ex id = fullWorkflow world id cb blogCount options) ->
            (forall id st0, (ex id st0).2 = Throw e
                            /\ reports (ex id st0).1 = reports st0) ->
            failed_with "工作流执行失败" (clock world 7) e (task_of taskId st) st
              (executeFullWorkflow world blogCount options cb taskId st)) as Hfail.
  { intros ex Hex Hthrow. apply run_fails; [|done|].
    - intros id. apply keeps_live_fullWorkflow.
    - intros id st0. rewrite <- Hex. apply Hthrow. }
  split; [|split].
  - intros Hload. apply (Hfail _ (fun _ => eq_refl)). intros id st0.
    unfold fullWorkflow. rewrite Hload. by step_through.
  - intros config Hload Hfetch. apply (Hfail _ (fun _ => eq_refl)). intros id st0.
    unfold fullWorkflow. rewrite Hload. step_through. rewrite Hfetch. by step_through.
  - intros config article articles Hload Hfetch. split; [|split].
    + intros Hstore. apply (Hfail _ (fun _ => eq_refl)). intros id st0.
      unfold fullWorkflow. rewrite Hload. step_through. rewrite Hfetch. step_through.
      rewrite Hstore. by step_through.
    + intros stored model Hstore Hm Hne Hnd Hc.
      apply (Hfail _ (fun _ => eq_refl)). intros id st0.
      unfold fullWorkflow. rewrite Hload. step_through. rewrite Hfetch. step_through.
      rewrite Hstore. step_through.
      rewrite (executeStrategy_unavailable config blogCount options model e Hm Hne Hnd Hc).
      by step_through.
    + intros stored entries Hstore Hbatch. split.
      * intros Hstats. apply (Hfail _ (fun _ => eq_refl)). intros id st0.
        unfold fullWorkflow. rewrite Hload. step_through. rewrite Hfetch. step_through.
        rewrite Hstore. step_through. rewrite Hbatch. step_through.
        unfold generateReport. rewrite Hstats. cbn [bind]. by step_through.
      * intros report Hreport Hwrite.
        assert (failed_with "工作流执行失败" (clock world 7) e (task_of taskId st) st
                  (executeFullWorkflow world blogCount options cb taskId st))
          as (Hout & Htask & _); [|by split].
        apply (Hfail _ (fun _ => eq_refl)). intros id st0.
        unfold fullWorkflow. rewrite Hload. step_through. rewrite Hfetch. step_through.
        rewrite Hstore. step_through. rewrite Hbatch. step_through.
        rewrite Hreport. step_through.
        rewrite (and_then_saveReport_throw _ _ _ _ _ _ _ Hwrite). by step_through.
Qed.

(** A configuration file without a [strategy] section: [loadConfig]
    supplies no default for it. The batch loop works with the default
    strategy figures, since [getStrategyConfig] spreads an [undefined]
    section into nothing; but [generateReport] reads
    [config.strategy.articlesPerBlog], which throws. So the workflow that
    analyses the stored articles, and the full workflow once it has
    fetched and stored at least one article, run their loop and then fail:
    they return the failure result carrying that [TypeError], their task is
    FAILED, and no report is persisted. *)
Theorem report_needs_a_strategy_section blogCount options cb taskId st config entries :
  startable taskId st ->
  loadConfig world = Return config ->
  strategy config = None ->
  executeStrategy (services world) config blogCount options = Return entries ->
  is_return (getArticleStats world) = true ->
  let e := TypeError "Cannot read properties of undefined (reading 'articlesPerBlog')" in
  getStrategyConfig config = defaultStrategyConfig
  /\ failed_with "分析现有文章失败" (clock world 7) e (task_of taskId st) st
                 (analyzeExistingArticles world blogCount options cb taskId st)
  /\ (forall article articles,
        fetchRSSFeeds world (rssFeeds config) = Return (article :: articles) ->
        is_return (mapM (storeArticle world) (article :: articles)) = true ->
        failed_with "工作流执行失败" (clock world 7) e (task_of taskId st) st
                    (executeFullWorkflow world blogCount options cb taskId st)).
Proof.
  intros Hstart Hload Hnone Hbatch Hstats e.
  destruct (getArticleStats world) as [stats|] eqn:Hst; [clear Hstats|done].
  assert (forall now start,
            generateReport world now entries config start = Throw e) as Hreport.
  { intros now start. unfold generateReport, strategy_field. by rewrite Hst, Hnone. }
  split; [unfold getStrategyConfig; by rewrite Hnone|]. split.
  - apply run_fails; [intros id; apply keeps_live_analyzeWorkflow|done|].
    intros id st0. unfold analyzeWorkflow. rewrite Hload. step_through.
    rewrite Hbatch. step_through. rewrite Hreport. by step_through.
  - intros article articles Hfetch Hstore.
    destruct (mapM (storeArticle world) (article :: articles)) as [stored|] eqn:Hstored;
      [clear Hstore|done].
    apply run_fails; [intros id; apply keeps_live_fullWorkflow|done|].
    intros id st0. unfold fullWorkflow. rewrite Hload. step_through.
    rewrite Hfetch. step_through. rewrite Hstored. step_through.
    rewrite Hbatch. step_through. rewrite Hreport. by step_through.
Qed.

(** *** The command that only fetches *)

Lemma executeStrategy_none services config options :
  aiModel options = None -> executeStrategy services config 0 options = Return [].
Proof. intros H. unfold executeStrategy. by rewrite H. Qed.

(** [CLI.fetchOnly] calls the full workflow with a count of 0: the loop
    is not entered and no client is made, so that what the command returns
    and how it leaves the registry and the reports does not depend on the
    services of the loop (the repository queries, the model, the image
    service, the formatters); when articles are fetched and stored and the
    report can be built and written, the report counts no generated blog
    and lists none. *)
Theorem fetchOnly_asks_no_service services' st :
  fetchOnly (with_services world services') st = fetchOnly world st
  /\ (forall config article articles stats v,
        loadConfig world = Return config ->
        strategy config = Some v -> v <> JNull ->
        fetchRSSFeeds world (rssFeeds config) = Return (article :: articles) ->
        is_return (mapM (storeArticle world) (article :: articles)) = true ->
        getArticleStats world = Return stats ->
        (forall r, writeReport world r = Return tt) ->
        exists report,
          (fetchOnly world st).2 = Some (TheReport report)
          /\ generatedBlogs report = 0%nat
          /\ blogs report = Some []
          /\ reports (fetchOnly world st).1 = (reports st ++ [report])%list).
Proof.
  split.
  - unfold fetchOnly, executeFullWorkflow, run, fullWorkflow, with_services.
    destruct world. reflexivity.
  - intros config article articles stats v Hload Hs Hv Hfetch Hstore Hstats Hwrite.
    destruct (mapM (storeArticle world) (article :: articles)) as [stored|] eqn:Hstored;
      [clear Hstore|done].
    destruct (generateReport_defined world (clock world 4) [] config (clock world 0) stats v
                Hstats Hs Hv) as (report & Hreport & Hcount & Hblogs & _).
    assert (startable None st) as Hstart by exact I.
    destruct (startable_begins world (FullWorkflow 0 (mkOptions None None None []))
                "fullWorkflow" _ _ Hstart) as [q1 Hq1].
    pose proof (run_started "工作流执行失败" (FullWorkflow 0 (mkOptions None None None []))
                  "fullWorkflow"
                  (fun id => fullWorkflow world id None 0 (mkOptions None None None []))
                  None st q1
                  (fun id => keeps_live_fullWorkflow world id None 0 _) Hq1) as Hrun.
    cbv beta zeta in Hrun.
    destruct (fullWorkflow_resolves world (task_of None st) None 0
                (mkOptions None None None []) config article articles stored [] report
                (mkState q1 (reports st)) Hload Hfetch Hstored
                (executeStrategy_none (services world) config (mkOptions None None None []) eq_refl) Hreport (Hwrite report))
      as (st2 & Hexec & Hreports).
    rewrite Hexec in Hrun. destruct Hrun as (Hout & Hrep & _).
    exists report. split; [exact Hout|]. split; [exact Hcount|]. split; [exact Hblogs|].
    unfold fetchOnly, executeFullWorkflow. by rewrite Hrep.
Qed.

End Run.

(** The theorems above in the worlds of [Examples] and [Worlds]. *)

Lemma workflows_settle_their_task_witness :
  settled "工作流执行失败" "task_1"
          (executeFullWorkflow (B := Examples.no_numerals) Examples.busy_world 3
             Examples.no_options None None Examples.fresh).
Proof.
  apply (workflows_settle_their_task (B := Examples.no_numerals) Examples.busy_world 3
           Examples.no_options [] None None Examples.fresh).
  exact I.
Defined.

Lemma workflows_refuse_a_task_not_pending_witness :
  executeFullWorkflow (B := Examples.no_numerals) Examples.busy_world 1
    Examples.no_options None (Some "task_9") Examples.fresh
  = (Examples.fresh,
     Some (TheResult (createWorkflowResult 0 false "工作流执行失败"
                        (ErrorData (Error "任务不存在: task_9"))))).
Proof.
  apply (workflows_refuse_a_task_not_pending (B := Examples.no_numerals) Examples.busy_world
           "task_9" Examples.fresh 1 Examples.no_options [] None).
  - discriminate.
  - vm_compute. discriminate.
Defined.

Lemma full_workflow_fails_outside_the_loop_witness :
  failed_with "工作流执行失败" 7 Worlds.unreadable "task_1" Examples.fresh
    (executeFullWorkflow (B := Examples.no_numerals) Worlds.broken_world 1
       Examples.no_options None None Examples.fresh).
Proof.
  apply (full_workflow_fails_outside_the_loop (B := Examples.no_numerals) Worlds.broken_world
           1 Examples.no_options None None Examples.fresh Worlds.unreadable).
  - exact I.
  - reflexivity.
Defined.

Lemma report_needs_a_strategy_section_witness :
  failed_with "分析现有文章失败" 7
    (TypeError "Cannot read properties of undefined (reading 'articlesPerBlog')")
    "task_1" Examples.fresh
    (analyzeExistingArticles (B := Examples.no_numerals) Worlds.bare_world 1
       Examples.no_options None None Examples.fresh).
Proof.
  apply (report_needs_a_strategy_section (B := Examples.no_numerals) Worlds.bare_world 1
           Examples.no_options None None Examples.fresh Worlds.bare_config Worlds.one_entry).
  - exact I.
  - reflexivity.
  - reflexivity.
  - vm_compute. reflexivity.
  - reflexivity.
Defined.

Lemma analyze_failed_iterations_are_skipped_witness :
  exists st' report,
    analyzeExistingArticles (B := Examples.no_numerals) Examples.busy_world 3
      Examples.no_options None None Examples.fresh = (st', Some (TheReport report))
    /\ TaskQueue.getTaskStatus "task_1" (registry st') = Some TaskQueue.COMPLETED
    /\ generatedBlogs report = 2%nat.
Proof.
  destruct (analyze_failed_iterations_are_skipped (B := Examples.no_numerals)
              Examples.busy_world 3 Examples.no_options None None Examples.fresh
              Examples.example_config Examples.example_stats (JObj defaultStrategyConfig))
    as (st' & report & Hrun & Hstatus & Hcount & _);
    [exact I | reflexivity | reflexivity | discriminate | exact I | reflexivity
    | reflexivity |].
  exists st', report. split; [exact Hrun|]. split; [exact Hstatus|].
  rewrite Hcount. vm_compute. reflexivity.
Defined.

End WorkflowOutcomeFacts.

(** ** Configuration and selection *)

Module SelectionFacts.
Import Js StrategyExecutor Reading StrategyFacts.

(** *** Defaults and configured values *)

Lemma assoc_set_key k k' (v : json) kvs :
  assoc k (set_key k' v kvs) = if String.eqb k k' then Some v else assoc k kvs.
Proof.
  induction kvs as [|[k0 v0] kvs IH]; cbn [set_key].
  - rewrite assoc_cons. by destruct (String.eqb k k').
  - destruct (String.eqb k' k0) eqn:Hk0.
    + apply String.eqb_eq in Hk0. subst k0. rewrite !assoc_cons.
      by destruct (String.eqb k k').
    + rewrite !assoc_cons, IH. destruct (String.eqb k k0) eqn:Hk; [|done].
      apply String.eqb_eq in Hk. subst k0.
      by rewrite String.eqb_sym, Hk0.
Qed.

Lemma assoc_app {X : Type} k (l1 l2 : list (string * X)) :
  assoc k (l1 ++ l2) = match assoc k l1 with Some v => Some v | None => assoc k l2 end.
Proof.
  induction l1 as [|[k0 v0] l1 IH]; [done|].
  change (((k0, v0) :: l1) ++ l2)%list with ((k0, v0) :: (l1 ++ l2))%list.
  rewrite !assoc_cons, IH. by destruct (String.eqb k k0).
Qed.

Lemma assoc_None {X : Type} k (l : list (string * X)) :
  assoc k l = None <-> k ∉ l.*1.
Proof.
  induction l as [|[k0 v0] l IH]; [split; [intros _ ?%elem_of_nil|]; done|].
  rewrite assoc_cons, fmap_cons, not_elem_of_cons. cbn [fst].
  destruct (String.eqb k k0) eqn:Hk.
  - apply String.eqb_eq in Hk. split; [done|]. by intros [? _].
  - apply String.eqb_neq in Hk. rewrite IH. tauto.
Qed.

Lemma assoc_reverse {X : Type} k (l : list (string * X)) :
  NoDup l.*1 -> assoc k (reverse l) = assoc k l.
Proof.
  induction l as [|[k0 v0] l IH]; [done|].
  rewrite fmap_cons, NoDup_cons. cbn [fst]. intros [Hk0 Hl].
  rewrite reverse_cons, assoc_app, IH, !assoc_cons by done.
  destruct (assoc k l) as [v|] eqn:Hkl.
  - destruct (String.eqb k k0) eqn:Hk; [|done].
    apply String.eqb_eq in Hk. subst k0. apply assoc_None in Hk0. congruence.
  - cbn [assoc]. by destruct (String.eqb k k0).
Qed.

Lemma assoc_spread k base over :
  assoc k (spread base over)
  = match assoc k (reverse over) with Some v => Some v | None => assoc k base end.
Proof.
  unfold spread. revert base. induction over as [|[k0 v0] over IH]; intros base; [done|].
  cbn [foldl fst snd]. rewrite IH, reverse_cons, assoc_app, assoc_set_key.
  destruct (assoc k (reverse over)); [done|].
  rewrite assoc_cons. cbn [assoc]. by destruct (String.eqb k k0).
Qed.

(** A value of the configuration file always wins over the default:
    whatever the key, [getStrategyConfig] and [getAnalysisConfig] yield the
    value that the [strategy] (the [analysis]) section holds under it,
    [null] included, and the default only when the section has no such
    key; an [analysis] section that is missing or falsy gives the defaults
    alone. The keys of a section are distinct, as those of a parsed object
    are. *)
Theorem configured_values_override_defaults config k :
  NoDup (own_props (strategy config)).*1 ->
  NoDup (analysisSection config).*1 ->
  assoc k (getStrategyConfig config)
  = match assoc k (own_props (strategy config)) with
    | Some v => Some v
    | None => assoc k defaultStrategyConfig
    end
  /\ assoc k (getAnalysisConfig config)
     = match assoc k (analysisSection config) with
       | Some v => Some v
       | None => assoc k defaultAnalysisConfig
       end
  /\ (truthy (analysis config) = false -> getAnalysisConfig config = defaultAnalysisConfig).
Proof.
  intros Hs Ha. unfold getStrategyConfig, getAnalysisConfig.
  fold (analysisSection config).
  rewrite !assoc_spread, !assoc_reverse by done.
  split; [done|]. split; [done|].
  intros Hf. unfold analysisSection. by rewrite Hf.
Qed.

(** *** The topics selected are the best ones *)

Lemma slice0_take {X : Type} (l : list X) e : exists n, slice0 l e = take n l.
Proof.
  unfold slice0. destruct (ToIntegerOrInfinity e).
  - by eexists.
  - exists (length l). by rewrite firstn_all.
  - by exists 0%nat.
Qed.

(** Whatever the thresholds, the topics that [generateBlog] selects are
    the best of the topics to rank: together with the topics left out they
    make up the topics to rank, they come in descending order of score,
    and no topic left out has a higher score than a selected one. *)
Theorem selection_takes_the_best (B : Builtins) th topics ranked :
  rankTopics th topics = Return ranked ->
  exists toRank rest,
    topicsToRank th topics = Return toRank
    /\ (ranked ++ rest)%list ≡ₚ toRank
    /\ StronglySorted score_ge ranked
    /\ (forall a b, a ∈ ranked -> b ∈ rest -> (_score b ≤ _score a)%Qc)
    /\ selectTopics th topics = Return (map (fun t => JObj (props t)) ranked).
Proof.
  unfold selectTopics, rankTopics.
  generalize (Math_max (num 1) (maxTopics th)). intros e.
  destruct (topicsToRank th topics) as [toRank|] eqn:Hrank; [|done].
  cbn [bind]. intros [= <-].
  destruct (slice0_take (sort by_score_desc toRank) e) as [n ->].
  pose proof (sort_sorted toRank) as Hsorted.
  rewrite <- (take_drop n (sort by_score_desc toRank)) in Hsorted.
  exists toRank, (drop n (sort by_score_desc toRank)).
  split; [done|]. split; [by rewrite take_drop, sort_perm|].
  split; [by apply StronglySorted_app_1_l in Hsorted|].
  split; [|done].
  intros a b Ha Hb. by apply (StronglySorted_app_1_elem_of _ _ _ a b Hsorted).
Qed.

(** *** The articles of high value *)

Lemma filterM_valued (B : Builtins) minimum items selected :
  filterM (fun item =>
             bind (get_field item "valueScore") (fun s =>
             bind (Number s) (fun n => Return (ge n minimum)))) items = Return selected ->
  selected = filter (fun item => valued minimum item = true) items.
Proof.
  revert selected. induction items as [|item items IH]; intros selected; cbn [filterM].
  - by intros [= <-].
  - destruct (get_field item "valueScore") as [score|] eqn:Hg; [|done]. cbn [bind].
    destruct (Number score) as [n|] eqn:Hn; [|done]. cbn [bind].
    destruct (filterM _ items) as [rest|]; [|done]. cbn [bind]. intros [= <-].
    assert (valued minimum item = ge n minimum) as Hv by (unfold valued; by rewrite Hg, Hn).
    rewrite (IH rest eq_refl). destruct (ge n minimum).
    + by rewrite filter_cons_True.
    + rewrite filter_cons_False; [done|]. by rewrite Hv.
Qed.

Lemma valued_missing (B : Builtins) minimum item :
  field item "valueScore" = None -> valued minimum item = false.
Proof.
  intros Hf. unfold valued. destruct (null_or_not item) as [->|Hn]; [done|].
  by rewrite (get_field_field item "valueScore" Hn), Hf.
Qed.

(** The articles of high value that [generateBlog] hands to the model,
    when it returns at all, are the items of [analysis.articles], in their
    order, whose [valueScore] converts to a number that reaches
    [minValueScore]; an item without a [valueScore] is never among them,
    however low the threshold (the comparison with [NaN] is false); and
    when [analysis.articles] is not an array there is none. *)
Theorem high_value_articles_reach_the_threshold (B : Builtins) th analysis selected :
  highValueArticles th analysis = Return selected ->
  (forall items, field analysis "articles" = Some (JArr items) ->
     selected = filter (fun item => valued (minValueScore th) item = true) items)
  /\ (forall item, field item "valueScore" = None -> item ∉ selected)
  /\ ((forall items, field analysis "articles" <> Some (JArr items)) -> selected = []).
Proof.
  unfold highValueArticles. intros Hsel.
  destruct (null_or_not analysis) as [->|Hn]; [done|].
  rewrite (get_field_field analysis "articles" Hn) in Hsel. cbn [bind] in Hsel.
  assert (forall items, field analysis "articles" = Some (JArr items) ->
            selected = filter (fun item => valued (minValueScore th) item = true) items)
    as Harray.
  { intros items Hf. rewrite Hf in Hsel. by apply filterM_valued. }
  split; [exact Harray|]. split.
  - intros item Hmissing Hin.
    destruct (field analysis "articles") as [[| | | |items|]|] eqn:Hf;
      try (injection Hsel as <-; by apply elem_of_nil in Hin).
    rewrite (Harray items eq_refl) in Hin. apply list_elem_of_filter in Hin as [Hv _].
    by rewrite (valued_missing B _ _ Hmissing) in Hv.
  - intros Hnot. destruct (field analysis "articles") as [[| | | |items|]|] eqn:Hf;
      try by injection Hsel as <-.
    by destruct (Hnot items).
Qed.

Lemma configured_values_override_defaults_witness :
  assoc "maxTopics" (getAnalysisConfig Examples.wordy_config) = Some (JStr "many")
  /\ assoc "wordCount" (getStrategyConfig Examples.wordy_config) = Some (JNum (num 5000)).
Proof.
  assert (NoDup (own_props (strategy Examples.wordy_config)).*1) as Hs
    by (vm_compute; apply NoDup_nil_2).
  assert (NoDup (analysisSection Examples.wordy_config).*1) as Ha
    by (vm_compute; apply NoDup_singleton).
  split.
  - rewrite (proj1 (proj2 (configured_values_override_defaults
                             Examples.wordy_config "maxTopics" Hs Ha))).
    reflexivity.
  - rewrite (proj1 (configured_values_override_defaults
                      Examples.wordy_config "wordCount" Hs Ha)).
    reflexivity.
Defined.

Lemma selection_takes_the_best_witness :
  exists ranked toRank rest,
    rankTopics (B := Examples.no_numerals) Examples.example_thresholds Examples.three_topics
    = Return ranked
    /\ topicsToRank (B := Examples.no_numerals) Examples.example_thresholds
                    Examples.three_topics = Return toRank
    /\ (ranked ++ rest)%list ≡ₚ toRank
    /\ StronglySorted score_ge ranked.
Proof.
  assert (exists ranked,
            rankTopics (B := Examples.no_numerals) Examples.example_thresholds
                       Examples.three_topics = Return ranked)
    as [ranked Hranked] by (eexists; vm_compute; reflexivity).
  destruct (selection_takes_the_best Examples.no_numerals Examples.example_thresholds
              Examples.three_topics ranked Hranked)
    as (toRank & rest & Hto & Hperm & Hsorted & _).
  exists ranked, toRank, rest. split; [exact Hranked|]. split; [exact Hto|].
  split; [exact Hperm|exact Hsorted].
Defined.

Lemma high_value_articles_reach_the_threshold_witness :
  exists selected,
    highValueArticles (B := Examples.no_numerals) Examples.example_thresholds rated_analysis
    = Return selected
    /\ (forall items, field rated_analysis "articles" = Some (JArr items) ->
          selected = filter (fun item => valued (B := Examples.no_numerals)
                                           (minValueScore Examples.example_thresholds) item
                                         = true) items).
Proof.
  assert (exists selected,
            highValueArticles (B := Examples.no_numerals) Examples.example_thresholds
                              rated_analysis = Return selected)
    as [selected Hselected] by (eexists; vm_compute; reflexivity).
  exists selected. split; [exact Hselected|].
  exact (proj1 (high_value_articles_reach_the_threshold Examples.no_numerals
                  Examples.example_thresholds rated_analysis selected Hselected)).
Defined.

End SelectionFacts.

(** ** The text functions *)

Module TextFacts.
Import Js Text.

(** *** No pass makes a [>] *)

Lemma closes_cons c s : closes (c :: s) = (c =? 62)%N || closes s.
Proof. done. Qed.

Lemma closes_app (l1 l2 : JsString) : closes (l1 ++ l2)%list = closes l1 || closes l2.
Proof. apply existsb_app. Qed.

Lemma closes_stripTags b s : closes (stripTags_from b s) = true -> closes s = true.
Proof.
  revert b. induction s as [|c s IH]; intros b; [done|]. cbn [stripTags_from]; rewrite ?closes_cons.
  destruct b.
  - destruct (c =? 62)%N; intros H%IH; rewrite H; apply orb_true_r.
  - destruct ((c =? 60)%N && closes s); [intros H%IH; rewrite H; apply orb_true_r|].
    rewrite ?closes_cons. intros [->|H%IH]%orb_true_iff; [done|]. rewrite H. apply orb_true_r.
Qed.

Lemma closes_blankEntities b s : closes (blankEntities_from b s) = true -> closes s = true.
Proof.
  revert b. induction s as [|c s IH]; intros b; [done|]. cbn [blankEntities_from]; rewrite ?closes_cons.
  destruct b.
  - destruct (c =? 59)%N; intros H%IH; rewrite H; apply orb_true_r.
  - destruct ((c =? 38)%N && entity_follows s); rewrite ?closes_cons.
    + intros [?|H%IH]%orb_true_iff; [done|]. rewrite H. apply orb_true_r.
    + intros [->|H%IH]%orb_true_iff; [done|]. rewrite H. apply orb_true_r.
Qed.

Lemma closes_squeeze b s : closes (squeeze_from 32 b s) = true -> closes s = true.
Proof.
  revert b. induction s as [|c s IH]; intros b; [done|]. cbn [squeeze_from]; rewrite ?closes_cons.
  destruct (isWhiteSpace c).
  - destruct b; rewrite ?closes_cons.
    + intros H%IH. rewrite H. apply orb_true_r.
    + intros [?|H%IH]%orb_true_iff; [done|]. rewrite H. apply orb_true_r.
  - rewrite ?closes_cons. intros [->|H%IH]%orb_true_iff; [done|]. rewrite H. apply orb_true_r.
Qed.

(** *** No pass makes a tag *)

Lemma tagFree_cons c s :
  tagFree (c :: s) = true <-> ((c =? 60)%N = false \/ closes s = false) /\ tagFree s = true.
Proof.
  cbn [tagFree]. rewrite andb_true_iff, orb_true_iff, !negb_true_iff. tauto.
Qed.

Lemma tagFree_stripTags b s : tagFree (stripTags_from b s) = true.
Proof.
  revert b. induction s as [|c s IH]; intros b; [done|]. cbn [stripTags_from].
  destruct b; [by destruct (c =? 62)%N|].
  destruct (c =? 60)%N eqn:Hc; cbn [andb].
  - destruct (closes s) eqn:Hs; [done|]. apply tagFree_cons. split; [|done].
    right. apply not_true_is_false. intros H%closes_stripTags. congruence.
  - apply tagFree_cons. split; [by left|done].
Qed.

Lemma tagFree_blankEntities b s :
  tagFree s = true -> tagFree (blankEntities_from b s) = true.
Proof.
  revert b. induction s as [|c s IH]; intros b; [done|].
  intros [Hc Hs]%tagFree_cons. cbn [blankEntities_from].
  destruct b; [destruct (c =? 59)%N; by apply IH|].
  destruct ((c =? 38)%N && entity_follows s); apply tagFree_cons.
  - split; [by left|by apply IH].
  - split; [|by apply IH]. destruct Hc as [Hc|Hc]; [by left|right].
    apply not_true_is_false. intros H%closes_blankEntities. congruence.
Qed.

Lemma tagFree_squeeze b s : tagFree s = true -> tagFree (squeeze_from 32 b s) = true.
Proof.
  revert b. induction s as [|c s IH]; intros b; [done|].
  intros [Hc Hs]%tagFree_cons. cbn [squeeze_from].
  destruct (isWhiteSpace c).
  - destruct b; [by apply IH|]. apply tagFree_cons. split; [by left|by apply IH].
  - apply tagFree_cons. split; [|by apply IH]. destruct Hc as [Hc|Hc]; [by left|right].
    apply not_true_is_false. intros H%closes_squeeze. congruence.
Qed.

Lemma tagFree_app_l (l1 l2 : JsString) :
  tagFree (l1 ++ l2)%list = true -> tagFree l1 = true.
Proof.
  induction l1 as [|c l1 IH]; [done|].
  change ((c :: l1) ++ l2)%list with (c :: (l1 ++ l2))%list.
  rewrite !tagFree_cons, closes_app. intros [Hc Hs]. split; [|by apply IH].
  destruct Hc as [Hc|Hc]; [by left|right]. by apply orb_false_iff in Hc as [? _].
Qed.

Lemma tagFree_app_r (l1 l2 : JsString) :
  tagFree (l1 ++ l2)%list = true -> tagFree l2 = true.
Proof.
  induction l1 as [|c l1 IH]; [done|].
  change ((c :: l1) ++ l2)%list with (c :: (l1 ++ l2))%list.
  rewrite tagFree_cons. intros [_ Hs]. by apply IH.
Qed.

Lemma tagFree_app (l1 l2 : JsString) :
  tagFree l1 = true -> tagFree l2 = true -> closes l2 = false ->
  tagFree (l1 ++ l2)%list = true.
Proof.
  intros H1 H2 Hc. induction l1 as [|c l1 IH]; [done|].
  change ((c :: l1) ++ l2)%list with (c :: (l1 ++ l2))%list.
  apply tagFree_cons in H1 as [Hc1 Hs]. apply tagFree_cons. split; [|by apply IH].
  rewrite closes_app, Hc, orb_false_r. exact Hc1.
Qed.

(** *** [trim] cuts at both ends *)

Lemma trimStart_suffix s : exists k, s = (k ++ trimStart s)%list.
Proof.
  induction s as [|c s [k IH]]; [by exists []|]. cbn [trimStart].
  destruct (isWhiteSpace c); [|by exists []].
  exists (c :: k). by rewrite IH at 1.
Qed.

Lemma trimEnd_prefix s : exists k, s = (trimEnd s ++ k)%list.
Proof.
  unfold trimEnd. destruct (trimStart_suffix (reverse s)) as [k Hk].
  exists (reverse k). rewrite <- reverse_app, <- Hk. by rewrite reverse_involutive.
Qed.

Lemma head_trimStart s c : head (trimStart s) = Some c -> isWhiteSpace c = false.
Proof.
  induction s as [|c' s IH]; [done|]. cbn [trimStart].
  destruct (isWhiteSpace c') eqn:Hc'; [done|]. by intros [= <-].
Qed.

Lemma last_trimEnd s c : last (trimEnd s) = Some c -> isWhiteSpace c = false.
Proof. unfold trimEnd. rewrite last_reverse. apply head_trimStart. Qed.

Lemma head_trim s c : head (trim s) = Some c -> isWhiteSpace c = false.
Proof.
  unfold trim. destruct (trimEnd_prefix (trimStart s)) as [k Hk].
  destruct (trimEnd (trimStart s)) as [|c' t] eqn:Ht; [done|].
  intros [= <-]. apply (head_trimStart s). by rewrite Hk.
Qed.

Lemma tagFree_trim s : tagFree s = true -> tagFree (trim s) = true.
Proof.
  intros Hs. unfold trim.
  destruct (trimStart_suffix s) as [k Hk]. rewrite Hk in Hs. apply tagFree_app_r in Hs.
  destruct (trimEnd_prefix (trimStart s)) as [k' Hk']. rewrite Hk' in Hs.
  by apply tagFree_app_l in Hs.
Qed.

(** *** White space after the cleaning *)

Lemma singleSpaced_cons c s :
  singleSpaced (c :: s) = true <->
  (isWhiteSpace c = false
   \/ c = 32%N /\ forall c', head s = Some c' -> isWhiteSpace c' = false)
  /\ singleSpaced s = true.
Proof.
  cbn [singleSpaced]. rewrite andb_true_iff, orb_true_iff, andb_true_iff, negb_true_iff,
    N.eqb_eq.
  destruct s as [|c' s]; cbn [head].
  - split; intros [Hc ?]; (split; [|done]);
      (destruct Hc as [?|[? _]]; [by left|right; by split]).
  - rewrite negb_true_iff. split; intros [Hc ?]; (split; [|done]);
      (destruct Hc as [?|[? Hc']]; [by left|right; split; [done|]]).
    + by intros ? [= <-].
    + by apply Hc'.
Qed.

Lemma squeeze_spaced b s :
  singleSpaced (squeeze_from 32 b s) = true
  /\ (b = true -> forall c, head (squeeze_from 32 b s) = Some c -> isWhiteSpace c = false).
Proof.
  revert b. induction s as [|c s IH]; intros b; [done|]. cbn [squeeze_from].
  destruct (isWhiteSpace c) eqn:Hc.
  - destruct b.
    + apply IH.
    + split; [|done]. apply singleSpaced_cons. split; [|apply IH].
      right. split; [done|]. by apply (IH true).
  - split.
    + apply singleSpaced_cons. split; [by left|apply IH].
    + intros _ c' [= <-]. exact Hc.
Qed.

Lemma singleSpaced_app_l (l1 l2 : JsString) :
  singleSpaced (l1 ++ l2)%list = true -> singleSpaced l1 = true.
Proof.
  induction l1 as [|c l1 IH]; [done|].
  change ((c :: l1) ++ l2)%list with (c :: (l1 ++ l2))%list.
  rewrite !singleSpaced_cons. intros [Hc Hs]. split; [|by apply IH].
  destruct Hc as [Hc|[-> Hc]]; [by left|right]. split; [done|].
  intros c' Hc'. apply Hc. by destruct l1.
Qed.

Lemma singleSpaced_app_r (l1 l2 : JsString) :
  singleSpaced (l1 ++ l2)%list = true -> singleSpaced l2 = true.
Proof.
  induction l1 as [|c l1 IH]; [done|].
  change ((c :: l1) ++ l2)%list with (c :: (l1 ++ l2))%list.
  rewrite singleSpaced_cons. intros [_ Hs]. by apply IH.
Qed.

Lemma singleSpaced_app (l1 l2 : JsString) :
  singleSpaced l1 = true -> singleSpaced l2 = true ->
  (forall c, head l2 = Some c -> isWhiteSpace c = false) ->
  singleSpaced (l1 ++ l2)%list = true.
Proof.
  intros H1 H2 Hh. induction l1 as [|c l1 IH]; [done|].
  change ((c :: l1) ++ l2)%list with (c :: (l1 ++ l2))%list.
  apply singleSpaced_cons in H1 as [Hc Hs]. apply singleSpaced_cons.
  split; [|by apply IH]. destruct Hc as [Hc|[-> Hc]]; [by left|right]. split; [done|].
  intros c'. destruct l1 as [|c1 l1]; [apply Hh|apply Hc].
Qed.

Lemma tidy_cleanContent content : tidy (cleanContent content).
Proof.
  unfold cleanContent. set (s := squeeze 32 _).
  assert (singleSpaced s = true) as Hs by apply squeeze_spaced.
  split; [|split].
  - unfold trim. destruct (trimStart_suffix s) as [k Hk]. rewrite Hk in Hs.
    apply singleSpaced_app_r in Hs.
    destruct (trimEnd_prefix (trimStart s)) as [k' Hk']. rewrite Hk' in Hs.
    by apply singleSpaced_app_l in Hs.
  - apply head_trim.
  - apply last_trimEnd.
Qed.

Lemma tagFree_cleanContent content : tagFree (cleanContent content) = true.
Proof.
  unfold cleanContent. apply tagFree_trim, tagFree_squeeze, tagFree_blankEntities,
    tagFree_stripTags.
Qed.

(** *** The preview *)

(** The preview that [getArticlePreview] makes of an article is short:
    it has at most [length] code units plus the three dots (3 code units
    when [length] is negative), and it is the whole cleaned content, with
    no dots, when that has at most [length] code units. Its white space is
    tidy: single spaces only, none at either end. And no tag is left in
    it: no [<] is followed, at any distance, by a [>]. *)
Theorem getArticlePreview_is_short_and_clean content length :
  let preview := getArticlePreview content length in
  Z.of_nat (List.length preview) <= Z.max 0 length + 3
  /\ (Z.of_nat (List.length (cleanContent content)) <= length ->
      preview = cleanContent content)
  /\ tidy preview
  /\ tagFree preview = true.
Proof.
  cbn zeta. unfold getArticlePreview.
  pose proof (tidy_cleanContent content) as (Hspaced & Hhead & Hlast).
  pose proof (tagFree_cleanContent content) as Hfree.
  set (clean := cleanContent content) in *.
  destruct (length <? Z.of_nat (List.length clean)) eqn:Hcut.
  - apply Z.ltb_lt in Hcut.
    assert (clean = (take (Z.to_nat length) clean ++ drop (Z.to_nat length) clean)%list)
      as Hsplit by (by rewrite take_drop).
    split; [rewrite length_app, length_take; simpl; lia|].
    split; [lia|]. split; [split; [|split]|].
    + apply singleSpaced_app; [|done|by intros c [= <-]].
      rewrite Hsplit in Hspaced. by apply singleSpaced_app_l in Hspaced.
    + intros c. destruct (take (Z.to_nat length) clean) as [|c' t] eqn:Ht.
      * by intros [= <-].
      * intros [= <-]. apply Hhead. by rewrite Hsplit.
    + intros c. rewrite last_app. by intros [= <-].
    + apply tagFree_app; [|done|done].
      rewrite Hsplit in Hfree. by apply tagFree_app_l in Hfree.
  - apply Z.ltb_ge in Hcut. split; [lia|]. split; [done|]. split; [by split|done].
Qed.

End TextFacts.

(** ** The reply of the model *)

Module ReplyFacts.
Import Js Text Reply.

Lemma quoted_cons c s : quoted (c :: s) = (c =? 96)%N || quoted s.
Proof. done. Qed.

Lemma quoted_app (l1 l2 : JsString) : quoted (l1 ++ l2)%list = quoted l1 || quoted l2.
Proof. apply existsb_app. Qed.

Lemma upper_backquote c : (upper 96 =? upper c)%N = (c =? 96)%N.
Proof.
  change (upper 96) with 96%N. unfold upper. destruct (isLower c) eqn:Hl.
  - apply andb_true_iff in Hl as [H1%N.leb_le H2%N.leb_le].
    rewrite (proj2 (N.eqb_neq 96 (c - 32))), (proj2 (N.eqb_neq c 96)) by lia. done.
  - apply N.eqb_sym.
Qed.

Lemma starts_with_fence c (s : JsString) :
  (c =? 96)%N = false -> starts_with fence (c :: s) = false.
Proof.
  intros Hc. change fence with [96; 96; 96]%N. cbn [starts_with].
  by rewrite N.eqb_sym, Hc.
Qed.

Lemma until_fence_first (inner rest : JsString) :
  fenceable inner -> until_fence (inner ++ fence ++ rest)%list = Some inner.
Proof.
  intros [Hin Hlast]. induction inner as [|c inner IH]; [done|].
  cbn [fence_inside] in Hin. apply orb_false_iff in Hin as [Hc Hin].
  change ((c :: inner) ++ fence ++ rest)%list with (c :: (inner ++ fence ++ rest))%list.
  cbn [until_fence].
  assert (starts_with fence (c :: (inner ++ fence ++ rest))%list = false) as ->.
  { change fence with [96; 96; 96]%N in *.
    destruct inner as [|d [|d' inner]]; cbn [starts_with app] in *.
    - destruct (96 =? c)%N eqn:H; [|done]. apply N.eqb_eq in H. by subst c.
    - destruct (96 =? c)%N; [|done]. destruct (96 =? d)%N eqn:H; [|done].
      apply N.eqb_eq in H. by subst d.
    - destruct (96 =? c)%N; [|done]. destruct (96 =? d)%N; [|done].
      cbn [andb] in *. exact Hc. }
  rewrite IH; [done|done|]. by destruct inner.
Qed.

Lemma fenced_unquoted (s : JsString) : quoted s = false -> fenced s = None.
Proof.
  induction s as [|c s IH]; [done|]. rewrite quoted_cons. intros [Hc Hq]%orb_false_iff.
  cbn [fenced]. cbn [lit list_ascii_of_string map starts_with_ci].
  change (N_of_ascii "`") with 96%N. rewrite upper_backquote, Hc. cbn [andb]. by apply IH.
Qed.

Lemma fenced_found (pre opening inner post : JsString) :
  quoted pre = false -> fenceable inner ->
  length opening = 7%nat -> starts_with_ci (lit "```json") opening = true ->
  fenced (pre ++ opening ++ inner ++ fence ++ post)%list = Some inner.
Proof.
  intros Hpre Hinner Hlen Hopen. induction pre as [|c pre IH].
  - destruct opening as [|c1 opening]; [done|].
    change ([] ++ (c1 :: opening) ++ inner ++ fence ++ post)%list
      with (c1 :: (opening ++ inner ++ fence ++ post))%list.
    cbn [fenced].
    assert (starts_with_ci (lit "```json") (c1 :: (opening ++ inner ++ fence ++ post))%list
            = true) as ->.
    { do 7 (destruct opening as [|? opening]; try done). }
    assert (drop 7 (c1 :: (opening ++ inner ++ fence ++ post))%list
            = (inner ++ fence ++ post)%list) as ->.
    { do 6 (destruct opening as [|? opening]; try done).
      by destruct opening. }
    by rewrite until_fence_first.
  - rewrite quoted_cons in Hpre. apply orb_false_iff in Hpre as [Hc Hq].
    change ((c :: pre) ++ opening ++ inner ++ fence ++ post)%list
      with (c :: (pre ++ opening ++ inner ++ fence ++ post))%list.
    cbn [fenced]. cbn [lit list_ascii_of_string map starts_with_ci].
    change (N_of_ascii "`") with 96%N. rewrite upper_backquote, Hc. cbn [andb].
    by apply IH.
Qed.

Lemma from_first_found x (pre rest : JsString) :
  x ∉ pre -> from_first x (pre ++ x :: rest)%list = Some (x :: rest).
Proof.
  induction pre as [|c pre IH]; intros Hx.
  - cbn [app from_first]. by rewrite N.eqb_refl.
  - apply not_elem_of_cons in Hx as [Hc Hx].
    change ((c :: pre) ++ x :: rest)%list with (c :: (pre ++ x :: rest))%list.
    cbn [from_first]. apply not_eq_sym, N.eqb_neq in Hc. rewrite Hc. by apply IH.
Qed.

Lemma from_first_none x (s : JsString) : x ∉ s -> from_first x s = None.
Proof.
  induction s as [|c s IH]; [done|]. intros [Hc Hx]%not_elem_of_cons.
  cbn [from_first]. apply not_eq_sym, N.eqb_neq in Hc. rewrite Hc. by apply IH.
Qed.

Lemma through_last_found x (body post : JsString) :
  x ∉ post -> through_last x (body ++ x :: post)%list = Some (body ++ [x])%list.
Proof.
  intros Hx. unfold through_last.
  rewrite reverse_app, reverse_cons, <- (assoc_L (++)%list). cbn [app].
  rewrite from_first_found by (by rewrite elem_of_reverse).
  simpl. by rewrite reverse_cons, reverse_involutive.
Qed.

Lemma braced_found (pre body post : JsString) :
  123%N ∉ pre -> 125%N ∉ post ->
  braced (pre ++ [123%N] ++ body ++ [125%N] ++ post)%list
  = Some ([123%N] ++ body ++ [125%N])%list.
Proof.
  intros Hpre Hpost. unfold braced. cbn [app].
  rewrite from_first_found by done.
  by rewrite (through_last_found 125 body post Hpost).
Qed.

Lemma braced_none (s : JsString) : 123%N ∉ s \/ 125%N ∉ s -> braced s = None.
Proof.
  intros [Hs|Hs]; unfold braced.
  - by rewrite from_first_none.
  - destruct (from_first 123 s) as [[|open s2]|] eqn:Hf; try done.
    assert (125%N ∉ s2) as Hs2.
    { intros Hin. apply Hs. clear Hs. revert Hf. induction s as [|c s IH]; [done|].
      cbn [from_first]. destruct (c =? 123)%N.
      - intros [= -> ->]. by right.
      - intros Hf. right. by apply IH. }
    unfold through_last. rewrite from_first_none; [done|]. by rewrite elem_of_reverse.
Qed.

Lemma unquoted_fenceable (s : JsString) : quoted s = false -> fenceable s.
Proof.
  intros Hq. split.
  - induction s as [|c s IH]; [done|]. rewrite quoted_cons in Hq.
    apply orb_false_iff in Hq as [Hc Hq]. cbn [fence_inside].
    by rewrite (starts_with_fence c s Hc), IH.
  - intros Hlast. apply last_Some in Hlast as [s' ->].
    rewrite quoted_app in Hq. apply orb_false_iff in Hq as [_ Hq]. done.
Qed.

(** What [extractJSON] reads from a reply. In a reply in which text
    without backquotes is followed by a fence opened by three backquotes
    and the word json, in any case of its letters, the document is the
    text between that opening and the first three backquotes in a row
    after it: for a document that has no three backquotes in a row and
    does not end in a backquote (single backquotes inside are fine), it is
    the whole document, whatever follows the closing fence, while a
    document with three backquotes inside is cut at them. The document is
    handed to the parser without the white space around it; when it
    parses, its value is the result, and when it does not, the result is
    that of the braces. The braces: the text from the first opening brace
    to the last closing brace is parsed, and the result is [null] when
    there is no such text or when it does not parse; this is what a reply
    without backquotes gives. A reply without backquotes that lacks an
    opening or a closing brace, an empty reply and a missing one give
    [null]. *)
Theorem extractJSON_finds_the_document (P : Parser) :
  (forall pre opening inner post,
     quoted pre = false -> fenceable inner ->
     length opening = 7%nat -> starts_with_ci (lit "```json") opening = true ->
     let text := (pre ++ opening ++ inner ++ fence ++ post)%list in
     extractJSON (Some text) = parsed_or (trim inner) (in_braces text)
     /\ (forall v, JSON_parse (trim inner) = Return v -> extractJSON (Some text) = v)
     /\ (forall e, JSON_parse (trim inner) = Throw e ->
           extractJSON (Some text) = in_braces text))
  /\ (forall inner, quoted inner = false -> fenceable inner)
  /\ (forall pre body post,
        quoted (pre ++ body ++ post)%list = false ->
        123%N ∉ pre -> 125%N ∉ post ->
        extractJSON (Some (pre ++ [123%N] ++ body ++ [125%N] ++ post)%list)
        = parsed_or ([123%N] ++ body ++ [125%N])%list JNull)
  /\ (forall text,
        quoted text = false -> 123%N ∉ text \/ 125%N ∉ text ->
        extractJSON (Some text) = JNull)
  /\ extractJSON None = JNull
  /\ extractJSON (Some []) = JNull.
Proof.
  split; [|split; [|split; [|split; [|done]]]].
  - intros pre opening inner post Hpre Hinner Hlen Hopen text.
    assert (extractJSON (Some text) = parsed_or (trim inner) (in_braces text)) as Heq.
    { unfold extractJSON, in_braces. subst text.
      rewrite (fenced_found pre opening inner post Hpre Hinner Hlen Hopen).
      destruct (pre ++ opening ++ inner ++ fence ++ post)%list eqn:Ht; [|done].
      destruct pre; [|done]. by destruct opening. }
    split; [done|]. rewrite Heq. unfold parsed_or.
    split; [by intros v ->|by intros e ->].
  - apply unquoted_fenceable.
  - intros pre body post Hq Hpre Hpost. unfold extractJSON.
    rewrite (braced_found pre body post Hpre Hpost).
    rewrite fenced_unquoted.
    + by destruct pre.
    + rewrite !quoted_app in Hq. apply orb_false_iff in Hq as [Hq1 Hq2].
      apply orb_false_iff in Hq2 as [Hq2 Hq3].
      rewrite !quoted_app, Hq1, Hq2, Hq3. done.
  - intros text Hq Hb. unfold extractJSON. destruct text as [|c text]; [done|].
    by rewrite (fenced_unquoted _ Hq), (braced_none _ Hb).
Qed.

End ReplyFacts.

(** ** File names and tags *)

Module FormatterFacts.
Import Text Formatters.

Lemma squeeze_chars r b (s : JsString) c :
  c ∈ squeeze_from r b s -> c = r \/ c ∈ s /\ isWhiteSpace c = false.
Proof.
  revert b. induction s as [|c' s IH]; intros b; [by intros ?%elem_of_nil|].
  cbn [squeeze_from]. destruct (isWhiteSpace c') eqn:Hc'.
  - destruct b.
    + intros [?|[? ?]]%IH; [by left|right; split; [by right|done]].
    + intros [->|[?|[? ?]]%IH]%elem_of_cons; [by left|by left|].
      right; split; [by right|done].
  - intros [->|[?|[? ?]]%IH]%elem_of_cons.
    + right; split; [by left|done].
    + by left.
    + right; split; [by right|done].
Qed.

Lemma length_squeeze r b (s : JsString) : (length (squeeze_from r b s) <= length s)%nat.
Proof.
  revert b. induction s as [|c s IH]; intros b; [done|]. cbn [squeeze_from].
  pose proof (IH true). pose proof (IH false).
  destruct (isWhiteSpace c); [destruct b|]; simpl; lia.
Qed.

Lemma filter_none (f : N -> bool) (s : JsString) :
  (forall c, c ∈ s -> f c = false) -> filter (fun c => f c = true) s = [].
Proof.
  unfold JsString in *. induction s as [|c s IH]; intros Hnone; [done|].
  rewrite filter_cons_False.
  - apply IH. intros c' Hc'. apply Hnone. by right.
  - rewrite (Hnone c) by (by left). done.
Qed.

(** *** [formatJekyllPost] *)

Lemma isSlugged_plain c :
  isSlugged c = true ->
  isWhiteSpace c = false /\ c <> 47%N /\ c <> 92%N /\ c <> 46%N /\ c <> 0%N.
Proof.
  unfold isSlugged, isLower, isUpper, isDigit, isWhiteSpace.
  rewrite !orb_true_iff, !andb_true_iff, !N.leb_le, N.eqb_eq. intros H.
  split; [|lia].
  rewrite !orb_false_iff, !andb_false_iff, !N.leb_gt, !N.eqb_neq. lia.
Qed.

Lemma titleSlug_chars title c : c ∈ titleSlug title -> isSlugged c = true.
Proof.
  unfold titleSlug. intros Hc.
  apply elem_of_take in Hc as (i & Hc%list_elem_of_lookup_2 & _).
  apply squeeze_chars in Hc as [->|[Hc Hw]]; [done|].
  apply list_elem_of_filter in Hc as [Hs _]. unfold isSlugChar in Hs. unfold isSlugged.
  rewrite Hw in Hs. by rewrite orb_false_r in Hs.
Qed.

Lemma distinct_from_spec seen l :
  NoDup (distinct_from seen l)
  /\ (forall x, x ∈ distinct_from seen l <-> x ∈ l /\ x ∉ seen).
Proof.
  revert seen. induction l as [|y l IH]; intros seen; cbn [distinct_from].
  - split; [apply NoDup_nil_2|]. intros x. rewrite elem_of_nil. tauto.
  - case_bool_decide as Hy.
    + destruct (IH seen) as [Hn Hx]. split; [done|]. intros x.
      rewrite Hx, elem_of_cons. split; [tauto|]. intros [[->|?] ?]; tauto.
    + destruct (IH (y :: seen)) as [Hn Hx]. split.
      * apply NoDup_cons. split; [|done]. rewrite Hx, elem_of_cons. tauto.
      * intros x. rewrite !elem_of_cons, Hx, not_elem_of_cons.
        destruct (decide (x = y)) as [->|]; tauto.
Qed.

Lemma distinct_from_prefix seen l1 l2 :
  distinct_from seen l1 `prefix_of` distinct_from seen (l1 ++ l2).
Proof.
  revert seen. induction l1 as [|y l1 IH]; intros seen; [apply prefix_nil|].
  change ((y :: l1) ++ l2)%list with (y :: (l1 ++ l2))%list. cbn [distinct_from].
  case_bool_decide; [apply IH|]. apply prefix_cons, IH.
Qed.

Lemma distinct_from_NoDup seen l :
  NoDup l -> (forall x, x ∈ l -> x ∉ seen) -> distinct_from seen l = l.
Proof.
  revert seen. induction l as [|y l IH]; intros seen Hn Hs; [done|].
  apply NoDup_cons in Hn as [Hy Hn]. cbn [distinct_from].
  rewrite bool_decide_eq_false_2 by (apply Hs; left).
  f_equal. apply IH; [done|]. intros x Hx. rewrite not_elem_of_cons. split.
  - intros ->. done.
  - apply Hs. by right.
Qed.

(** The slug of a post's file name has at most 50 code units, all of
    them Chinese characters, letters, digits or hyphens: no white space,
    slash, backslash, dot or NUL. A title without any character of the
    kept class gives the empty slug. *)
Theorem post_slugs_are_short_and_plain (title : JsString) :
  (length (titleSlug title) <= 50)%nat
  /\ (length (titleSlug title) <= length title)%nat
  /\ (forall c, c ∈ titleSlug title ->
        isSlugged c = true
        /\ isWhiteSpace c = false /\ c <> 47%N /\ c <> 92%N /\ c <> 46%N /\ c <> 0%N)
  /\ ((forall c, c ∈ title -> isSlugChar c = false) -> titleSlug title = []).
Proof.
  split; [|split; [|split]].
  - unfold titleSlug. rewrite length_take. lia.
  - unfold titleSlug, squeeze. rewrite length_take.
    etrans; [apply Nat.le_min_r|]. etrans; [apply length_squeeze|]. apply length_filter.
  - intros c Hc. apply titleSlug_chars in Hc. split; [done|]. by apply isSlugged_plain.
  - intros Hnone. unfold titleSlug.
    by rewrite filter_none.
Qed.

(** The tags of the front matter: no tag twice, exactly the default tags
    and the tags passed, and the default tags first when they are
    distinct themselves. *)
Theorem front_matter_tags_are_distinct (defaultTags tags : list JsString) :
  NoDup (frontMatterTags defaultTags tags)
  /\ (forall tag, tag ∈ frontMatterTags defaultTags tags <-> tag ∈ defaultTags \/ tag ∈ tags)
  /\ (NoDup defaultTags -> defaultTags `prefix_of` frontMatterTags defaultTags tags)
  /\ (forall tag, tag ∈ defaultTags -> tag ∈ tags ->
        frontMatterTags defaultTags tags <> (defaultTags ++ tags)%list).
Proof.
  unfold frontMatterTags, distinct.
  destruct (distinct_from_spec [] (defaultTags ++ tags)) as [Hn Hx].
  split; [done|]. split; [|split].
  - intros tag. rewrite Hx, elem_of_app, elem_of_nil. tauto.
  - intros Hd. rewrite <- (distinct_from_NoDup [] defaultTags) at 1.
    + apply distinct_from_prefix.
    + done.
    + intros x _. apply not_elem_of_nil.
  - intros tag Hd Ht Heq. rewrite Heq in Hn.
    apply NoDup_app in Hn as (_ & Hdis & _). by apply (Hdis tag).
Qed.

(** *** [generateFileName] *)

Lemma lower_safe c : isPlain c = true -> isWhiteSpace c = false -> isSafe (lower c) = true.
Proof.
  unfold isPlain, isWordChar, isSafe, lower, isLower, isUpper, isDigit.
  intros Hp Hw. rewrite Hw, orb_false_r in Hp.
  destruct ((65 <=? c) && (c <=? 90))%N eqn:Hu.
  - apply andb_true_iff in Hu as [H1%N.leb_le H2%N.leb_le].
    rewrite !orb_true_iff, !andb_true_iff, !N.leb_le, !N.eqb_eq. lia.
  - rewrite !orb_true_iff, !andb_true_iff, !N.leb_le, !N.eqb_eq in *.
    rewrite andb_false_iff, !N.leb_gt in Hu. lia.
Qed.

(** The safe title of an article's file name is made of small letters,
    digits, underscores and hyphens only, is not longer than the title,
    and is empty for a title without any ASCII letter, digit,
    underscore, hyphen or white space. *)
Theorem safe_titles_are_plain (title : JsString) :
  (forall c, c ∈ safeTitle title -> isSafe c = true)
  /\ (length (safeTitle title) <= length title)%nat
  /\ ((forall c, c ∈ title -> isPlain c = false) -> safeTitle title = []).
Proof.
  unfold safeTitle. split; [|split].
  - intros c (c' & -> & Hc)%list_elem_of_fmap.
    apply squeeze_chars in Hc as [->|[Hc Hw]]; [done|].
    apply list_elem_of_filter in Hc as [Hs _]. by apply lower_safe.
  - rewrite length_map. unfold squeeze.
    etrans; [apply length_squeeze|]. apply length_filter.
  - intros Hnone.
    by rewrite filter_none.
Qed.

End FormatterFacts.

(** ** The pages of the report list *)

Module ReportFacts.
Import Js Reports.

Lemma chunks_concat {A : Type} (s : nat) (n : nat) (l : list A) :
  (length l <= n * s)%nat ->
  concat (map (fun k => take s (drop (k * s) l)) (seq 0 n)) = l.
Proof.
  revert l. induction n as [|n IH]; intros l Hl.
  - destruct l; [done|simpl in Hl; lia].
  - cbn [seq map concat]. rewrite <- seq_shift, map_map.
    rewrite Nat.mul_0_l, drop_0.
    etrans; [|apply (take_drop s l)]. f_equal.
    etrans; [|apply (IH (drop s l)); rewrite length_drop; lia].
    f_equal. apply map_ext. intros k. rewrite drop_drop. do 2 f_equal; lia.
Qed.

(** *** Whole numbers *)

Lemma Qceiling_quotient a b :
  b <> 0 -> Qceiling (Qc_of_Z a / Qc_of_Z b)%Qc = - (- a / b).
Proof.
  intros Hb. unfold Qceiling. f_equal. rewrite Zdiv_Qdiv.
  apply Qfloor_comp. unfold Qcdiv, Qcmult, Qcinv, Qc_of_Z, Q2Qc. cbn [this].
  repeat setoid_rewrite Qred_correct. rewrite inject_Z_opp. unfold Qdiv. ring.
Qed.

Lemma min_num a b : Math_min (num a) (num b) = num (Z.min a b).
Proof.
  unfold Math_min, num. case_bool_decide as H; rewrite <- Z2Qc_inj_le in H.
  - by rewrite Z.min_l.
  - by rewrite Z.min_r by lia.
Qed.

Lemma ceil_divide_num a b :
  b <> 0 -> Math_ceil (divide (num a) (num b)) = num (- (- a / b)).
Proof.
  intros Hb. unfold divide, num. rewrite bool_decide_eq_false_2.
  - cbn [Math_ceil]. by rewrite Qceiling_quotient.
  - intros H%Z2Qc_inj. done.
Qed.

Lemma relative_num z len :
  0 <= z -> relative (num z) len = Z.min z len.
Proof.
  intros Hz. unfold relative, num. cbn [ToIntegerOrInfinity].
  rewrite StrategyFacts.truncate_integer. by rewrite (proj2 (Z.ltb_ge z 0)).
Qed.

Lemma ceiling_bounds (t s : Z) :
  0 <= t -> 0 < s -> (- (- t / s) - 1) * s < t /\ t <= - (- t / s) * s /\ 0 <= - (- t / s).
Proof.
  intros Ht Hs. pose proof (Z.div_mod (- t) s). pose proof (Z.mod_pos_bound (- t) s). nia.
Qed.

(** The page size and the page asked for, once clamped. *)
Lemma pageSize_whole s :
  whole s ->
  exists sz, 1 <= sz <= 50 /\ Math_min (Math_max s (num 1)) (num 50) = num sz.
Proof.
  destruct s as [q| | |]; cbn [whole]; [|done|intros _|intros _].
  - generalize (truncate q). intros z ->.
    exists (Z.min (Z.max z 1) 50). split; [lia|].
    change (Fin (Qc_of_Z z)) with (num z).
    by rewrite StrategyFacts.Math_max_num, min_num.
  - exists 50. split; [lia|]. done.
  - exists 1. split; [lia|]. change (Math_max NegInf (num 1)) with (num 1).
    by rewrite min_num.
Qed.

Lemma safePage_whole p n :
  whole p -> 1 <= n ->
  exists k, 1 <= k <= n /\ Math_min (Math_max p (num 1)) (num n) = num k
            /\ (forall j, p = num j -> k = Z.min (Z.max j 1) n).
Proof.
  intros Hp Hn. destruct p as [q| | |]; cbn [whole] in Hp; [|done| |].
  - revert Hp. generalize (truncate q). intros z ->.
    exists (Z.min (Z.max z 1) n). split; [lia|].
    change (Fin (Qc_of_Z z)) with (num z).
    rewrite StrategyFacts.Math_max_num, min_num. split; [done|].
    intros j [= ->]. done.
  - exists n. split; [lia|]. split; [done|]. intros j [=].
  - exists 1. split; [lia|]. change (Math_max NegInf (num 1)) with (num 1).
    rewrite min_num. split; [f_equal; lia|]. intros j [=].
Qed.

Section Pages.
Context {A : Type} (reports : list A).

Lemma listReports_whole p s :
  whole p -> whole s ->
  exists k sz,
    1 <= sz <= 50
    /\ 1 <= k <= Z.max (- (- Z.of_nat (length reports) / sz)) 1
    /\ Z.of_nat (length reports) <= Z.max (- (- Z.of_nat (length reports) / sz)) 1 * sz
    /\ Math_min (Math_max s (num 1)) (num 50) = num sz
    /\ (forall j, p = num j ->
          k = Z.min (Z.max j 1) (Z.max (- (- Z.of_nat (length reports) / sz)) 1))
    /\ listReports p s reports
       = mkListing (num k) (num sz) (length reports)
                   (num (Z.max (- (- Z.of_nat (length reports) / sz)) 1))
                   (take (Z.to_nat sz) (drop (Z.to_nat ((k - 1) * sz)) reports)).
Proof.
  intros Hp Hs. destruct (pageSize_whole s Hs) as (sz & Hsz & Hsize).
  pose proof (ceiling_bounds (Z.of_nat (length reports)) sz ltac:(lia) ltac:(lia))
    as (Hlow & Hup & Hpos).
  destruct (safePage_whole p (Z.max (- (- Z.of_nat (length reports) / sz)) 1) Hp ltac:(lia))
    as (k & Hk & Hpage & Hj).
  exists k, sz. split; [done|]. split; [done|]. split; [nia|]. split; [done|].
  split; [done|].
  unfold listReports. rewrite Hsize.
  rewrite ceil_divide_num by lia. rewrite StrategyFacts.Math_max_num, Hpage.
  f_equal. unfold sub, mul, add, num.
  rewrite <- Z2Qc_inj_sub, <- Z2Qc_inj_mul, <- Z2Qc_inj_add.
  change (Fin (Qc_of_Z ?z)) with (num z).
  assert ((k - 1) * sz <= Z.of_nat (length reports)) as Hstart by nia.
  unfold slice. rewrite !relative_num by nia.
  rewrite (Z.min_l ((k - 1) * sz)) by lia.
  destruct (decide ((k - 1) * sz + sz <= Z.of_nat (length reports))) as [Hend|Hend].
  - rewrite Z.min_l by lia. do 2 f_equal. lia.
  - rewrite Z.min_r by lia.
    rewrite !take_ge; [done|rewrite length_drop; lia|rewrite length_drop; lia].
Qed.

Lemma whole_num z : whole (num z).
Proof. unfold whole, num. by rewrite StrategyFacts.truncate_integer. Qed.

Lemma num_inj a b : num a = num b -> a = b.
Proof. intros [= H]. done. Qed.

Lemma items_of_page s sz j :
  whole s -> Math_min (Math_max s (num 1)) (num 50) = num sz ->
  1 <= j <= Z.max (- (- Z.of_nat (length reports) / sz)) 1 ->
  items (listReports (num j) s reports)
  = take (Z.to_nat sz) (drop (Z.to_nat ((j - 1) * sz)) reports).
Proof.
  intros Hs Hsize Hj.
  destruct (listReports_whole (num j) s (whole_num j) Hs)
    as (k & sz' & _ & _ & _ & Hsize' & Hk & ->).
  rewrite Hsize in Hsize'. apply num_inj in Hsize' as <-.
  rewrite (Hk j eq_refl). cbn [items].
  by rewrite Z.max_l, Z.min_l by lia.
Qed.

Lemma all_pages_whole s :
  whole s ->
  exists sz n,
    1 <= sz <= 50 /\ 1 <= n
    /\ n = Z.max (- (- Z.of_nat (length reports) / sz)) 1
    /\ Z.of_nat (length reports) <= n * sz
    /\ Math_min (Math_max s (num 1)) (num 50) = num sz
    /\ all_pages s reports
       = map (fun k => take (Z.to_nat sz) (drop (k * Z.to_nat sz) reports))
             (seq 0 (Z.to_nat n)).
Proof.
  intros Hs.
  destruct (listReports_whole (num 1) s (whole_num 1) Hs)
    as (k & sz & Hsz & Hk & Hcover & Hsize & _ & Hlist).
  exists sz, (Z.max (- (- Z.of_nat (length reports) / sz)) 1).
  split; [done|]. split; [lia|]. split; [done|]. split; [done|]. split; [done|].
  unfold all_pages. rewrite Hlist. cbn [totalPages num].
  rewrite StrategyFacts.truncate_integer.
  rewrite <- seq_shift, map_map. apply map_ext_in. intros j Hj%in_seq.
  rewrite (items_of_page s sz) by (done || lia). do 2 f_equal. nia.
Qed.

End Pages.

(** For a page and a page size that are whole numbers or infinite, the
    pages that the handler announces make up the list of the reports, in
    its order; the answer holds at most 50 reports, has a page number
    between 1 and the number of pages, the nearest to the one asked for,
    and is the page of that number. *)
Theorem report_pages_cover_the_list {A : Type} (reports : list A)
    (parsedPage parsedPageSize : JsNumber) :
  whole parsedPage -> whole parsedPageSize ->
  let answer := listReports parsedPage parsedPageSize reports in
  concat (all_pages parsedPageSize reports) = reports
  /\ (length (items answer) <= 50)%nat
  /\ exists k n,
       page answer = num k /\ totalPages answer = num n /\ 1 <= k <= n
       /\ (forall j, parsedPage = num j -> k = Z.min (Z.max j 1) n)
       /\ length (all_pages parsedPageSize reports) = Z.to_nat n
       /\ all_pages parsedPageSize reports !! Z.to_nat (k - 1) = Some (items answer).
Proof.
  intros Hp Hs answer.
  destruct (all_pages_whole reports parsedPageSize Hs)
    as (sz & n & Hsz & Hn & Hdef & Hcover & Hsize & Hall).
  destruct (listReports_whole reports parsedPage parsedPageSize Hp Hs)
    as (k & sz' & _ & Hk & _ & Hsize' & Hj & Hlist).
  rewrite Hsize in Hsize'. apply num_inj in Hsize' as <-. rewrite <- Hdef in *.
  subst answer. rewrite Hlist, Hall. cbn [items page totalPages].
  split; [|split].
  - apply chunks_concat. nia.
  - rewrite length_take. lia.
  - exists k, n. split; [done|]. split; [done|]. split; [done|]. split; [done|].
    split; [by rewrite length_map, length_seq|].
    rewrite list_lookup_fmap, lookup_seq_lt by lia. cbn. do 3 f_equal. nia.
Qed.

(** A page or a page size that is not a number gives an answer without
    any report, whose page number is not a number either. *)
Theorem report_page_not_a_number {A : Type} (reports : list A) :
  (forall parsedPageSize,
     let answer := listReports NaN parsedPageSize reports in
     items answer = [] /\ page answer = NaN)
  /\ (forall parsedPage,
        let answer := listReports parsedPage NaN reports in
        items answer = [] /\ page answer = NaN /\ pageSize answer = NaN
        /\ totalPages answer = NaN).
Proof.
  assert (slice reports NaN NaN = []) as Hnone.
  { unfold slice, relative. cbn [ToIntegerOrInfinity]. change (truncate _) with 0.
    rewrite (Z.min_l 0) by lia. done. }
  split.
  - intros s. cbn. done.
  - intros p. cbn. by destruct (Math_max p (num 1)).
Qed.

Lemma report_pages_cover_the_list_witness :
  let answer := listReports (num 7) PosInf [10; 20; 30] in
  concat (all_pages PosInf [10; 20; 30]) = [10; 20; 30]
  /\ (length (items answer) <= 50)%nat
  /\ exists k n,
       page answer = num k /\ totalPages answer = num n /\ 1 <= k <= n
       /\ (forall j, num 7 = num j -> k = Z.min (Z.max j 1) n)
       /\ length (all_pages PosInf [10; 20; 30]) = Z.to_nat n
       /\ all_pages PosInf [10; 20; 30] !! Z.to_nat (k - 1) = Some (items answer).
Proof.
  apply (report_pages_cover_the_list [10; 20; 30] (num 7) PosInf); vm_compute; done.
Defined.

End ReportFacts.
